(** * Host-side core device driver ([artiq/coredevice/comm_generic.py])

    A shallow embedding of [CommGeneric]: the sync-framed message envelope
    (reader and writer interface), the control operation [check_ident], the
    tagged RPC value codec and the RPC service routine, followed by the
    properties of the driver that were checked against it.

    Conventions of the embedding.
    - Bytes are [Byte.byte]; [bytes] and [bytearray] objects are [list byte].
    - Python integers are [Z]; [struct.pack] fails outside the range of its
      format, [struct.unpack] fails on a buffer of the wrong size.
    - A Python [str] is held in a [string] as the bytes of its UTF-8
      encoding, a lone surrogate taking the three bytes that UTF-8 forbids
      (the error handler [surrogatepass]); [decode("utf-8")] validates,
      and [encode("utf-8")] fails on a string that holds a surrogate.
    - The driver object is the record [state]; methods are computations in
      the state-and-exception monad [M].  An exception keeps the state
      changes made before it was raised, as in Python.
    - The abstract channel is a pair of byte sequences: what [read] will
      deliver and what [write] has emitted.  [read] fails when the bytes
      are not there; the channel takes every [write].
    - What host code raises is an instance of [Exception] or is not
      ([KeyboardInterrupt], [SystemExit], [GeneratorExit]); [except
      Exception] catches the first kind only.
    - [bytearray] objects live in a store and are named by their index, so
      that a copy ([bytearray(tags)]), a mutation ([tags.pop(0)]) and the
      rebinding of a local name ([tags = tags_copy]) are told apart.
    - The recursive methods of the codec and the [while True] loop of
      [_receive_rpc_args] take a bound, [fuel] or [turns]; reaching it gives
      [OutOfFuel], which is no exception of the driver and is never
      caught.
    - What the driver imports or is handed (the software version, the
      embedding map, the services, the builtin [range]) is a parameter. *)

From Stdlib Require Import ZArith List Lia Bool String Ascii DecimalString.
From Stdlib Require Import Strings.Byte.
From stdpp Require Import base list gmap strings.

Local Open Scope Z_scope.

(* ================================================================= *)
(** ** Bytes and [struct] *)

#[global] Instance byte_eq_dec : EqDecision byte := Byte.byte_eq_dec.

Definition Z_of_byte (b : byte) : Z := Z.of_N (Byte.to_N b).

Definition byte_of_Z (z : Z) : byte :=
  match Byte.of_N (Z.to_N (z mod 256)) with
  | Some b => b
  | None => x00
  end.

(** Big-endian image of [v] on [n] bytes (the low [8*n] bits of [v]). *)
Fixpoint be_encode (n : nat) (v : Z) : list byte :=
  match n with
  | O => []
  | S n' => be_encode n' (v / 256) ++ [byte_of_Z v]
  end.

(** Unsigned value of a big-endian byte sequence. *)
Definition be_decode (bs : list byte) : Z :=
  fold_left (fun acc b => acc * 256 + Z_of_byte b) bs 0.

(** Two's complement reading of an unsigned [8*n]-bit value. *)
Definition to_signed (n : nat) (u : Z) : Z :=
  if u <? 2 ^ (8 * Z.of_nat n - 1) then u else u - 2 ^ (8 * Z.of_nat n).

(** ** The message type enumerations *)

Inductive _H2DMsgType :=
| LOG_REQUEST | LOG_CLEAR | IDENT_REQUEST | SWITCH_CLOCK | LOAD_LIBRARY
| RUN_KERNEL | RPC_REPLY | RPC_EXCEPTION | FLASH_READ_REQUEST
| FLASH_WRITE_REQUEST | FLASH_ERASE_REQUEST | FLASH_REMOVE_REQUEST.

Inductive _D2HMsgType :=
| LOG_REPLY | IDENT_REPLY | CLOCK_SWITCH_COMPLETED | CLOCK_SWITCH_FAILED
| LOAD_COMPLETED | LOAD_FAILED | KERNEL_FINISHED | KERNEL_STARTUP_FAILED
| KERNEL_EXCEPTION | RPC_REQUEST | FLASH_READ_REPLY | FLASH_OK_REPLY
| FLASH_ERROR_REPLY | WATCHDOG_EXPIRED | CLOCK_FAILURE.

#[global] Instance _H2DMsgType_eq_dec : EqDecision _H2DMsgType.
Proof. solve_decision. Defined.

#[global] Instance _D2HMsgType_eq_dec : EqDecision _D2HMsgType.
Proof. solve_decision. Defined.

(** [ty.value] *)
Definition H2D_value (ty : _H2DMsgType) : Z :=
  match ty with
  | LOG_REQUEST => 1 | LOG_CLEAR => 2 | IDENT_REQUEST => 3
  | SWITCH_CLOCK => 4 | LOAD_LIBRARY => 5 | RUN_KERNEL => 6
  | RPC_REPLY => 7 | RPC_EXCEPTION => 8 | FLASH_READ_REQUEST => 9
  | FLASH_WRITE_REQUEST => 10 | FLASH_ERASE_REQUEST => 11
  | FLASH_REMOVE_REQUEST => 12
  end.

Definition D2H_value (ty : _D2HMsgType) : Z :=
  match ty with
  | LOG_REPLY => 1 | IDENT_REPLY => 2 | CLOCK_SWITCH_COMPLETED => 3
  | CLOCK_SWITCH_FAILED => 4 | LOAD_COMPLETED => 5 | LOAD_FAILED => 6
  | KERNEL_FINISHED => 7 | KERNEL_STARTUP_FAILED => 8
  | KERNEL_EXCEPTION => 9 | RPC_REQUEST => 10 | FLASH_READ_REPLY => 11
  | FLASH_OK_REPLY => 12 | FLASH_ERROR_REPLY => 13
  | WATCHDOG_EXPIRED => 14 | CLOCK_FAILURE => 15
  end.

Definition all_D2H : list _D2HMsgType :=
  [LOG_REPLY; IDENT_REPLY; CLOCK_SWITCH_COMPLETED; CLOCK_SWITCH_FAILED;
   LOAD_COMPLETED; LOAD_FAILED; KERNEL_FINISHED; KERNEL_STARTUP_FAILED;
   KERNEL_EXCEPTION; RPC_REQUEST; FLASH_READ_REPLY; FLASH_OK_REPLY;
   FLASH_ERROR_REPLY; WATCHDOG_EXPIRED; CLOCK_FAILURE].

(** [_D2HMsgType(raw_type)]: the member with that value, if any. *)
Definition D2H_of_value (raw_type : Z) : option _D2HMsgType :=
  List.find (fun ty => D2H_value ty =? raw_type) all_D2H.

(* ================================================================= *)
(** ** Host values and exceptions *)

(** The Python values that travel through the RPC codec. *)
#[warnings="-register-all"]
Inductive pyval :=
| VSentinel                                  (* [CommGeneric._rpc_sentinel] *)
| VNone
| VBool (b : bool)
| VInt (n : Z)                               (* builtin [int] *)
| VWrapInt (n : Z) (width : Z)               (* [artiq.language.core.int] *)
| VFloat (image : list byte)                 (* a [float], by its binary64 image *)
| VFraction (numerator denominator : Z)
| VStr (s : string)
| VTuple (elts : list pyval)
| VList (elts : list pyval)
| VRange (start stop step : Z)
| VKeyword (name : string) (value : pyval)   (* [RPCKeyword(name, value)] *)
| VObject (id : Z)                           (* any other host object *)
| VSetattr.                                  (* the [setattr] lambda of [_serve_rpc] *)

(** The second argument of [check]: what the tag asked for. *)
Inductive shape :=
| tuple_of (length : Z) | shape_None | shape_bool | shape_int32
| shape_int64 | shape_float | shape_Fraction64 | shape_str | shape_list
| shape_range.

(** One entry of [traceback.extract_tb]. *)
Record frame_summary := mkFrame {
  tb_filename : string;
  tb_line : Z;
  tb_function : string
}.

(** [exceptions.CoreException], as far as [_serve_rpc] reads it. *)
Record core_exception := mkCore {
  core_name : string;
  core_message : string;
  core_param : list Z;
  core_traceback : list (string * Z * Z * string)
}.

(** The class of a host exception. *)
Record exn_class := mkClass {
  cls_name : string;        (* [__name__] *)
  cls_module : string;      (* [__module__] *)
  cls_qualname : string     (* [__qualname__] *)
}.

#[global] Instance exn_class_eq_dec : EqDecision exn_class.
Proof. solve_decision. Defined.

(** What the [except] clause of [_serve_rpc] observes of an exception. *)
Record host_exn := mkHostExn {
  artiq_core_exception : option core_exception;
  exn_type : exn_class;
  artiq_builtin : bool;                (* [hasattr(exn, 'artiq_builtin')] *)
  exn_str : string;                    (* [str(exn)] *)
  exn_traceback : list frame_summary   (* [exn.__traceback__], outermost first *)
}.

(** Exceptions, one constructor per [raise] of the driver and per failure
    of a primitive it calls. *)
Inductive exn :=
| IOError_ReadUnderrun (remaining : Z)
| OSError_ConnectionClosed
| ValueError_MsgType (raw_type : Z)
| IOError_HeaderOverrun (remaining : Z)
| IOError_IncorrectReply (got : option _D2HMsgType) (expected : _D2HMsgType)
| IOError_ReadOverrun (length remaining : Z) (ty : option _D2HMsgType)
| UnsupportedDevice (runtime_id : list byte)
| RPCReturnValueError (value : pyval) (expected : shape) (function root : pyval)
| IOError_UnknownTag (tag : Z)
| struct_error                    (* [struct.pack] / [struct.unpack] *)
| ChannelError                    (* [read] cannot deliver the bytes *)
| UnicodeDecodeError
| UnicodeEncodeError              (* [str.encode] on a lone surrogate *)
| IndexError                      (* [pop] from an empty [bytearray], index out of range *)
| AssertionError
| AttributeError                  (* [self._write_type.value] on [None] *)
| ZeroDivisionError               (* [Fraction(numerator, 0)] *)
| HostException (e : host_exn)    (* raised by host code outside the driver,
                                     an instance of [Exception] *)
| HostBaseException (e : host_exn)
                                  (* raised by host code outside the driver,
                                     not an instance of [Exception]:
                                     [KeyboardInterrupt], [SystemExit],
                                     [GeneratorExit] and their like *)
| OutOfFuel.                      (* not an exception: the bound on loop turns
                                     and call depth given to the model was
                                     reached *)

Inductive result (A : Type) :=
| Ok (a : A)
| Raise (e : exn).
Arguments Ok {A} a.
Arguments Raise {A} e.

(* ================================================================= *)
(** ** The driver object and its monad *)

Record state := mkState {
  chan_open : bool;                    (* the channel is opened *)
  chan_in : list byte;                 (* bytes [read] will deliver *)
  chan_out : list byte;                (* bytes [write] has emitted *)
  _read_type : option _D2HMsgType;
  _read_length : Z;
  _write_type : option _H2DMsgType;
  _write_buffer : list (list byte);
  bytearrays : list (list byte);       (* the store of [bytearray] objects *)
  warnings : list (string * string)    (* arguments of [logger.warning] *)
}.

(** [CommGeneric.__init__], over a channel that will deliver [input]. *)
Definition init (input : list byte) : state :=
  mkState false input [] None 0 None [] [] [].

Definition set_chan_open (v : bool) (st : state) : state :=
  mkState v (chan_in st) (chan_out st) (_read_type st) (_read_length st)
          (_write_type st) (_write_buffer st) (bytearrays st) (warnings st).
Definition set_chan_in (v : list byte) (st : state) : state :=
  mkState (chan_open st) v (chan_out st) (_read_type st) (_read_length st)
          (_write_type st) (_write_buffer st) (bytearrays st) (warnings st).
Definition set_chan_out (v : list byte) (st : state) : state :=
  mkState (chan_open st) (chan_in st) v (_read_type st) (_read_length st)
          (_write_type st) (_write_buffer st) (bytearrays st) (warnings st).
Definition set_read_type (v : option _D2HMsgType) (st : state) : state :=
  mkState (chan_open st) (chan_in st) (chan_out st) v (_read_length st)
          (_write_type st) (_write_buffer st) (bytearrays st) (warnings st).
Definition set_read_length (v : Z) (st : state) : state :=
  mkState (chan_open st) (chan_in st) (chan_out st) (_read_type st) v
          (_write_type st) (_write_buffer st) (bytearrays st) (warnings st).
Definition set_write_type (v : option _H2DMsgType) (st : state) : state :=
  mkState (chan_open st) (chan_in st) (chan_out st) (_read_type st)
          (_read_length st) v (_write_buffer st) (bytearrays st) (warnings st).
Definition set_write_buffer (v : list (list byte)) (st : state) : state :=
  mkState (chan_open st) (chan_in st) (chan_out st) (_read_type st)
          (_read_length st) (_write_type st) v (bytearrays st) (warnings st).
Definition set_bytearrays (v : list (list byte)) (st : state) : state :=
  mkState (chan_open st) (chan_in st) (chan_out st) (_read_type st)
          (_read_length st) (_write_type st) (_write_buffer st) v (warnings st).
Definition set_warnings (v : list (string * string)) (st : state) : state :=
  mkState (chan_open st) (chan_in st) (chan_out st) (_read_type st)
          (_read_length st) (_write_type st) (_write_buffer st)
          (bytearrays st) v.

(** State and exception monad: the state survives a raise. *)
Definition M (A : Type) : Type := state -> result A * state.

Definition ret {A} (a : A) : M A := fun st => (Ok a, st).
Definition raise {A} (e : exn) : M A := fun st => (Raise e, st).
Definition bind {A B} (c : M A) (k : A -> M B) : M B :=
  fun st => match c st with
            | (Ok a, st') => k a st'
            | (Raise e, st') => (Raise e, st')
            end.
Definition gets {A} (f : state -> A) : M A := fun st => (Ok (f st), st).
Definition modify (f : state -> state) : M unit := fun st => (Ok tt, f st).
Definition lift {A} (r : result A) : M A := fun st => (r, st).

Notation "'let!' x ':=' c 'in' k" := (bind c (fun x => k))
  (at level 10, x pattern, c at level 100, k at level 200).
Notation "c1 '>>' c2" := (bind c1 (fun _ => c2))
  (at level 100, c2 at level 200, right associativity).

(** [for x in xs: body(x)] *)
Section Loops.
Context {A : Type} (body : A -> M unit).
Fixpoint for_each (xs : list A) : M unit :=
  match xs with
  | [] => ret tt
  | x :: xs' => body x >> for_each xs'
  end.
End Loops.

(** [[body(x) for x in xs]] *)
Section Comprehensions.
Context {A B : Type} (body : A -> M B).
Fixpoint collect (xs : list A) : M (list B) :=
  match xs with
  | [] => ret []
  | x :: xs' => let! y := body x in let! ys := collect xs' in ret (y :: ys)
  end.
End Comprehensions.

(* ================================================================= *)
(** ** [struct.pack] and [struct.unpack] *)

(** [struct.pack("B", v)] *)
Definition pack_B (v : Z) : result (list byte) :=
  if (0 <=? v) && (v <=? 255) then Ok [byte_of_Z v] else Raise struct_error.

(** [struct.pack(">l", v)] *)
Definition pack_l (v : Z) : result (list byte) :=
  if (- 2 ^ 31 <=? v) && (v <=? 2 ^ 31 - 1) then Ok (be_encode 4 v)
  else Raise struct_error.

(** [struct.pack(">q", v)] *)
Definition pack_q (v : Z) : result (list byte) :=
  if (- 2 ^ 63 <=? v) && (v <=? 2 ^ 63 - 1) then Ok (be_encode 8 v)
  else Raise struct_error.

(** [struct.unpack("B", data)] *)
Definition unpack_B (data : list byte) : result Z :=
  match data with
  | [b] => Ok (Z_of_byte b)
  | _ => Raise struct_error
  end.

(** [struct.unpack(">l", data)] *)
Definition unpack_l (data : list byte) : result Z :=
  if decide (List.length data = 4%nat) then Ok (to_signed 4 (be_decode data))
  else Raise struct_error.

(** [struct.unpack(">q", data)] *)
Definition unpack_q (data : list byte) : result Z :=
  if decide (List.length data = 8%nat) then Ok (to_signed 8 (be_decode data))
  else Raise struct_error.

(* ================================================================= *)
(** ** The channel

    [open], [close], [read] and [write] are left to the subclasses of
    [CommGeneric].  Here [read(length)] delivers the next [length] bytes of
    [chan_in] and fails when they are not there; [write(data)] appends to
    [chan_out].  The channel takes every write: a connection that breaks
    while a message is written is not part of this model, and what is
    proved of the bytes written holds as long as no [write] fails. *)

Definition open : M unit := modify (set_chan_open true).
Definition close : M unit := modify (set_chan_open false).

Definition read (length : Z) : M (list byte) :=
  fun st =>
    if (0 <=? length) && (length <=? Z.of_nat (List.length (chan_in st))) then
      (Ok (take (Z.to_nat length) (chan_in st)),
       set_chan_in (drop (Z.to_nat length) (chan_in st)) st)
    else (Raise ChannelError, st).

Definition write (data : list byte) : M unit :=
  modify (fun st => set_chan_out (chan_out st ++ data) st).

Definition pause : M unit := close.

(* ================================================================= *)
(** ** Reader interface *)

(** The synchronisation loop of [_read_header]:
    [while sync_count < 4: (sync_byte,) = unpack("B", self.read(1)); ...].
    Every turn takes one byte of the channel, so the loop is written by
    recursion on the bytes the channel will deliver; [None] is the failure
    of [self.read(1)] on an exhausted channel. *)
Fixpoint sync_loop (sync_count : Z) (input : list byte) : option (list byte) :=
  if sync_count <? 4 then
    match input with
    | [] => None
    | sync_byte :: input' =>
        if Z_of_byte sync_byte =? 0x5a then sync_loop (sync_count + 1) input'
        else sync_loop 0 input'
    end
  else Some input.

Definition wait_sync : M unit :=
  fun st =>
    match sync_loop 0 (chan_in st) with
    | Some input' => (Ok tt, set_chan_in input' st)
    | None => (Raise ChannelError, set_chan_in [] st)
    end.

Definition _read_header : M unit :=
  open >>
  let! remaining := gets _read_length in
  if 0 <? remaining then raise (IOError_ReadUnderrun remaining) else
  (* Wait for a synchronization sequence, 5a 5a 5a 5a. *)
  wait_sync >>
  (* Read message header. *)
  let! data := read 4 in
  let! length := lift (unpack_l data) in
  modify (set_read_length length) >>
  if length =? 0 then raise OSError_ConnectionClosed else
  let! data := read 1 in
  let! raw_type := lift (unpack_B data) in
  match D2H_of_value raw_type with
  | None => raise (ValueError_MsgType raw_type)
  | Some ty =>
      modify (set_read_type (Some ty)) >>
      if length <? 9 then raise (IOError_HeaderOverrun length) else
      modify (set_read_length (length - 9))
  end.

Definition _read_expect (ty : _D2HMsgType) : M unit :=
  let! got := gets _read_type in
  if decide (got = Some ty) then ret tt
  else raise (IOError_IncorrectReply got ty).

Definition _read_empty (ty : _D2HMsgType) : M unit :=
  _read_header >> _read_expect ty.

Definition _read_chunk (length : Z) : M (list byte) :=
  let! remaining := gets _read_length in
  if remaining <? length then
    let! ty := gets _read_type in
    raise (IOError_ReadOverrun length remaining ty)
  else
    modify (set_read_length (remaining - length)) >>
    read length.

Definition _read_int8 : M Z :=
  let! data := _read_chunk 1 in lift (unpack_B data).

Definition _read_int32 : M Z :=
  let! data := _read_chunk 4 in lift (unpack_l data).

Definition _read_int64 : M Z :=
  let! data := _read_chunk 8 in lift (unpack_q data).

(** [_read_float64]: the float is kept as its eight-byte image. *)
Definition _read_float64 : M (list byte) :=
  let! data := _read_chunk 8 in
  if decide (List.length data = 8%nat) then ret data else raise struct_error.

Definition _read_bytes : M (list byte) :=
  let! length := _read_int32 in _read_chunk length.

(* ================================================================= *)
(** ** Writer interface *)

Definition _write_header (ty : _H2DMsgType) : M unit :=
  open >>
  modify (set_write_type (Some ty)) >>
  modify (set_write_buffer []).

(** [sum([len(chunk) for chunk in self._write_buffer])] *)
Definition buffer_length (buffer : list (list byte)) : Z :=
  fold_right Z.add 0 (map (fun chunk => Z.of_nat (List.length chunk)) buffer).

(** [struct.pack(">llB", 0x5a5a5a5a, length, ty)] *)
Definition pack_llB (sync length ty : Z) : result (list byte) :=
  match pack_l sync, pack_l length, pack_B ty with
  | Ok a, Ok b, Ok c => Ok (a ++ b ++ c)
  | _, _, _ => Raise struct_error
  end.

Definition _write_flush : M unit :=
  (* Calculate message size. *)
  let! buffer := gets _write_buffer in
  let length := buffer_length buffer in
  (* Write synchronization sequence, header and body. *)
  let! ty := gets _write_type in
  match ty with
  | None => raise AttributeError
  | Some ty =>
      let! header := lift (pack_llB 0x5a5a5a5a (9 + length) (H2D_value ty)) in
      write header >>
      for_each write buffer
  end.

Definition _write_empty (ty : _H2DMsgType) : M unit :=
  _write_header ty >> _write_flush.

Definition append_chunk (chunk : list byte) : M unit :=
  modify (fun st => set_write_buffer (_write_buffer st ++ [chunk]) st).

Definition _write_chunk (chunk : list byte) : M unit :=
  append_chunk chunk.

Definition _write_int8 (value : Z) : M unit :=
  let! data := lift (pack_B value) in append_chunk data.

Definition _write_int32 (value : Z) : M unit :=
  let! data := lift (pack_l value) in append_chunk data.

Definition _write_int64 (value : Z) : M unit :=
  let! data := lift (pack_q value) in append_chunk data.

(** [_write_float64], on the eight-byte image of the float. *)
Definition _write_float64 (image : list byte) : M unit :=
  append_chunk image.

Definition _write_bytes (value : list byte) : M unit :=
  _write_int32 (Z.of_nat (List.length value)) >>
  append_chunk value.

Definition reset_session : M unit :=
  let! a := lift (pack_l 0x5a5a5a5a) in
  let! b := lift (pack_l 0) in
  write (a ++ b).

(* ================================================================= *)
(** ** The message envelope, as data *)

(** The synchronisation sequence, 5a 5a 5a 5a. *)
Definition sync_sequence : list byte := [x5a; x5a; x5a; x5a].

(** An envelope: sync bytes, total length, type byte, body. *)
Definition envelope (raw_type : Z) (body : list byte) : list byte :=
  sync_sequence ++ be_encode 4 (9 + Z.of_nat (List.length body))
                ++ [byte_of_Z raw_type] ++ body.

(** The sync sequence occurs in [G]. *)
Definition contains_sync (G : list byte) : Prop :=
  exists before after, G = before ++ sync_sequence ++ after.

(** [G] ends with the byte 5a. *)
Definition ends_with_5a (G : list byte) : Prop :=
  exists before, G = before ++ [x5a].

(** The sync counter after the bytes of [G], when it never reaches four. *)
Definition sync_count_after (sync_count : Z) (G : list byte) : Z :=
  fold_left (fun c b => if Z_of_byte b =? 0x5a then c + 1 else 0) G sync_count.

(** A payload one byte too long for the length field of an envelope. *)
Definition oversized_payload : list byte :=
  repeat x00 (Z.to_nat (2 ^ 31 - 9)).

(** Building a message and flushing it: [_write_header(ty)], one
    [_write_chunk] per chunk, [_write_flush()]. *)
Definition send_message (ty : _H2DMsgType) (chunks : list (list byte)) : M unit :=
  _write_header ty >> for_each _write_chunk chunks >> _write_flush.

(** Parsing a message: [_read_header()], then [_read_chunk(length)]. *)
Definition receive_message (length : Z) : M (list byte) :=
  _read_header >> _read_chunk length.

(* ================================================================= *)
(** ** Strings *)

Definition is_continuation (b : Z) : bool := (0x80 <=? b) && (b <=? 0xBF).

(** Well-formed UTF-8 (what [bytes.decode("utf-8")] accepts). *)
Fixpoint utf8_valid (bs : list Z) : bool :=
  match bs with
  | [] => true
  | b0 :: r0 =>
      if b0 <=? 0x7F then utf8_valid r0
      else if (0xC2 <=? b0) && (b0 <=? 0xDF) then
        match r0 with
        | b1 :: r1 => is_continuation b1 && utf8_valid r1
        | _ => false
        end
      else if (0xE0 <=? b0) && (b0 <=? 0xEF) then
        match r0 with
        | b1 :: b2 :: r2 =>
            ((if b0 =? 0xE0 then 0xA0 else 0x80) <=? b1)
            && (b1 <=? (if b0 =? 0xED then 0x9F else 0xBF))
            && is_continuation b2 && utf8_valid r2
        | _ => false
        end
      else if (0xF0 <=? b0) && (b0 <=? 0xF4) then
        match r0 with
        | b1 :: b2 :: b3 :: r3 =>
            ((if b0 =? 0xF0 then 0x90 else 0x80) <=? b1)
            && (b1 <=? (if b0 =? 0xF4 then 0x8F else 0xBF))
            && is_continuation b2 && is_continuation b3 && utf8_valid r3
        | _ => false
        end
      else false
  end.

(** [data.decode("utf-8")] *)
Definition decode_utf8 (data : list byte) : result string :=
  if utf8_valid (map Z_of_byte data) then Ok (string_of_list_byte data)
  else Raise UnicodeDecodeError.

(** A Python [str] is held as the bytes of
    [value.encode("utf-8", "surrogatepass")]: its UTF-8 encoding, in which
    a lone surrogate, that UTF-8 has no encoding for, takes the three
    bytes ED A0..BF 80..BF.  [encode_utf8] gives these bytes. *)
Definition encode_utf8 (value : string) : list byte :=
  list_byte_of_string value.

(** The string holds no surrogate: its bytes are well-formed UTF-8. *)
Definition encodable (value : string) : bool :=
  utf8_valid (map Z_of_byte (encode_utf8 value)).

(** [value.encode("utf-8")]: the bytes of the string, unless it holds a
    surrogate. *)
Definition str_encode (value : string) : result (list byte) :=
  if encodable value then Ok (encode_utf8 value)
  else Raise UnicodeEncodeError.

(** ["{}".format(n)] for an integer [n] *)
Definition format_int (n : Z) : string := NilZero.string_of_int (Z.to_int n).

Definition _read_string : M string :=
  let! data := _read_bytes in lift (decode_utf8 (removelast data)).

Definition _write_string (value : string) : M unit :=
  let! data := lift (str_encode value) in
  _write_bytes (data ++ [x00]).

(* ================================================================= *)
(** ** Identity check *)

(** [logger.warning(...)] of [check_ident], by its two arguments. *)
Definition logger_warning (gateware software : string) : M unit :=
  modify (fun st => set_warnings (warnings st ++ [(gateware, software)]) st).

(** [b"AROR"] *)
Definition AROR : list byte := [x41; x52; x4f; x52].

Section Ident.
(** [artiq.__version__], which the driver imports. *)
Variable software_version : string.

(** [check_ident] has no [return] statement: its value is [None]. *)
Definition check_ident : M pyval :=
  _write_empty IDENT_REQUEST >>
  _read_header >>
  _read_expect IDENT_REPLY >>
  let! runtime_id := _read_chunk 4 in
  if negb (bool_decide (runtime_id = AROR))
  then raise (UnsupportedDevice runtime_id) else
  let! remaining := gets _read_length in
  let! data := _read_chunk remaining in
  let! gateware_version := lift (decode_utf8 data) in
  (if negb (bool_decide (gateware_version = software_version))
      && negb (bool_decide (gateware_version +:+ ".dirty" = software_version))
   then logger_warning gateware_version software_version
   else ret tt) >>
  ret VNone.
End Ident.

(* ================================================================= *)
(** ** The store of [bytearray] objects *)

(** [bytearray(data)]: a new object, named by its index in the store. *)
Definition bytearray_new (data : list byte) : M nat :=
  fun st => (Ok (List.length (bytearrays st)),
             set_bytearrays (bytearrays st ++ [data]) st).

(** [bytearray(tags)] for a bytearray [tags]: a copy. *)
Definition bytearray_copy (tags : nat) : M nat :=
  fun st => bytearray_new (bytearrays st !!! tags) st.

(** [tags.pop(0)] *)
Definition pop0 (tags : nat) : M Z :=
  fun st =>
    match bytearrays st !!! tags with
    | [] => (Raise IndexError, st)
    | b :: rest =>
        (Ok (Z_of_byte b), set_bytearrays (<[tags := rest]> (bytearrays st)) st)
    end.

(* ================================================================= *)
(** ** Tags and values *)

(** [ord(c)] *)
Definition ord (c : ascii) : Z := Z.of_N (N_of_ascii c).

(** [chr(tag) == c], for [tag] in [range(256)]. *)
Definition chr_eq (tag : Z) (c : ascii) : bool := tag =? ord c.

(** [tag == c] where [tag] is an [int] (an element of a [bytearray]) and
    [c] a [str]: objects of these two types never compare equal. *)
Definition int_eq_str (tag : Z) (c : ascii) : bool := false.

(** [range(n)], as the list of its elements. *)
Definition range_list (n : Z) : list Z := map Z.of_nat (seq 0 (Z.to_nat n)).

(** Modelled from the spec: [artiq.language.core.int] is imported by the
    driver but defined elsewhere; the spec gives received ['i'] and ['I']
    integers "wrapping semantics", so [wrapping_int(value, width)] holds
    [value] reduced to the signed range of [width] bits. *)
Definition wrapping_int (value width : Z) : pyval :=
  VWrapInt ((value + 2 ^ (width - 1)) mod 2 ^ width - 2 ^ (width - 1)) width.

(** [Fraction(numerator, denominator)], in lowest terms. *)
Definition Fraction (numerator denominator : Z) : result pyval :=
  if denominator =? 0 then Raise ZeroDivisionError
  else
    let g := Z.gcd numerator denominator in
    let g := if denominator <? 0 then - g else g in
    Ok (VFraction (numerator / g) (denominator / g)).

(** [isinstance(value, tuple)] and the elements; an [RPCKeyword] is a
    named tuple of two elements. *)
Definition as_tuple (value : pyval) : option (list pyval) :=
  match value with
  | VTuple elts => Some elts
  | VKeyword name v => Some [VStr name; v]
  | _ => None
  end.

(** [isinstance(value, int)] and the integer; [bool] is a subclass of
    [int]. *)
Definition as_int (value : pyval) : option Z :=
  match value with
  | VInt n => Some n
  | VBool b => Some (if b then 1 else 0)
  | _ => None
  end.

Definition as_bool (value : pyval) : option bool :=
  match value with VBool b => Some b | _ => None end.

Definition as_float (value : pyval) : option (list byte) :=
  match value with VFloat image => Some image | _ => None end.

Definition as_Fraction (value : pyval) : option (Z * Z) :=
  match value with VFraction n d => Some (n, d) | _ => None end.

Definition as_str (value : pyval) : option string :=
  match value with VStr s => Some s | _ => None end.

Definition as_list (value : pyval) : option (list pyval) :=
  match value with VList elts => Some elts | _ => None end.

Definition as_range (value : pyval) : option (Z * Z * Z) :=
  match value with VRange a b c => Some (a, b, c) | _ => None end.

(** ["\x00" not in value] *)
Definition no_NUL (value : string) : bool :=
  forallb (fun b => negb (Z_of_byte b =? 0)) (list_byte_of_string value).

(** The collaborator [embedding_map]. *)
Record EmbeddingMap := mkEmbeddingMap {
  retrieve_object : Z -> result pyval;
  store_object : exn_class -> result Z
}.

(* ================================================================= *)
(** ** The tagged value codec *)

Section RPC.
(** The builtin [range(start, stop, step)] on received values: whether
    they can be used as integers is up to their classes. *)
Variable builtin_range : pyval -> pyval -> pyval -> result pyval.

(** The call of [service] on [args] and [kwargs]: host code, outside the
    driver. *)
Variable call_service :
  pyval -> list pyval -> gmap string pyval -> result pyval.

(** What the Python runtime tells of an exception raised by the driver
    itself: class, [str()] and traceback. *)
Variable introspect : exn -> host_exn.

(** [fuel] bounds the depth of the recursion. *)
Fixpoint _receive_rpc_value (fuel : nat) (embedding_map : EmbeddingMap)
    : M pyval :=
  match fuel with
  | O => raise OutOfFuel
  | S fuel' =>
      let! tag := _read_int8 in
      if chr_eq tag "000" then ret VSentinel
      else if chr_eq tag "t" then
        let! length := _read_int8 in
        let! elts := collect (fun _ => _receive_rpc_value fuel' embedding_map)
                             (range_list length) in
        ret (VTuple elts)
      else if chr_eq tag "n" then ret VNone
      else if chr_eq tag "b" then
        let! v := _read_int8 in ret (VBool (negb (v =? 0)))
      else if chr_eq tag "i" then
        let! v := _read_int32 in ret (wrapping_int v 32)
      else if chr_eq tag "I" then
        let! v := _read_int64 in ret (wrapping_int v 64)
      else if chr_eq tag "f" then
        let! image := _read_float64 in ret (VFloat image)
      else if chr_eq tag "F" then
        let! numerator := _read_int64 in
        let! denominator := _read_int64 in
        lift (Fraction numerator denominator)
      else if chr_eq tag "s" then
        let! s := _read_string in ret (VStr s)
      else if chr_eq tag "l" then
        let! length := _read_int32 in
        let! elts := collect (fun _ => _receive_rpc_value fuel' embedding_map)
                             (range_list length) in
        ret (VList elts)
      else if chr_eq tag "r" then
        let! start := _receive_rpc_value fuel' embedding_map in
        let! stop := _receive_rpc_value fuel' embedding_map in
        let! step := _receive_rpc_value fuel' embedding_map in
        lift (builtin_range start stop step)
      else if chr_eq tag "k" then
        let! name := _read_string in
        let! value := _receive_rpc_value fuel' embedding_map in
        ret (VKeyword name value)
      else if chr_eq tag "O" then
        let! id := _read_int32 in
        lift (retrieve_object embedding_map id)
      else raise (IOError_UnknownTag tag)
  end.

(** The loop of [_receive_rpc_args]; [turns] bounds its iterations. *)
Fixpoint receive_rpc_args_loop (turns fuel : nat)
    (embedding_map : EmbeddingMap)
    (args : list pyval) (kwargs : gmap string pyval)
    : M (list pyval * gmap string pyval) :=
  match turns with
  | O => raise OutOfFuel
  | S turns' =>
      let! value := _receive_rpc_value fuel embedding_map in
      match value with
      | VSentinel => ret (args, kwargs)
      | VKeyword name v =>
          receive_rpc_args_loop turns' fuel embedding_map
                                args (<[name := v]> kwargs)
      | _ =>
          receive_rpc_args_loop turns' fuel embedding_map
                                (args ++ [value]) kwargs
      end
  end.

Definition _receive_rpc_args (turns fuel : nat)
    (embedding_map : EmbeddingMap) : M (list pyval * gmap string pyval) :=
  receive_rpc_args_loop turns fuel embedding_map [] ∅.

(** [tags] is a [bytearray]: [tags.pop(0)] is an [int], which the
    comparisons of [_skip_rpc_value] set against strings. *)
Fixpoint _skip_rpc_value (fuel : nat) (tags : nat) : M unit :=
  match fuel with
  | O => raise OutOfFuel
  | S fuel' =>
      let! tag := pop0 tags in
      if int_eq_str tag "t" then
        let! length := pop0 tags in
        for_each (fun _ => _skip_rpc_value fuel' tags) (range_list length)
      else if int_eq_str tag "l" then _skip_rpc_value fuel' tags
      else if int_eq_str tag "r" then _skip_rpc_value fuel' tags
      else ret tt
  end.

Fixpoint _send_rpc_value (fuel : nat) (tags : nat)
    (value root function : pyval) : M unit :=
  match fuel with
  | O => raise OutOfFuel
  | S fuel' =>
      let check (cond : bool) (expected : shape) : M unit :=
        if cond then ret tt
        else raise (RPCReturnValueError value expected function root) in
      let! tag := pop0 tags in
      if chr_eq tag "t" then
        let! length := pop0 tags in
        check (match as_tuple value with
               | Some elts => length =? Z.of_nat (List.length elts)
               | None => false
               end) (tuple_of length) >>
        for_each (fun elt => _send_rpc_value fuel' tags elt root function)
                 (default [] (as_tuple value))
      else if chr_eq tag "n" then
        check (match value with VNone => true | _ => false end) shape_None
      else if chr_eq tag "b" then
        check (match as_bool value with Some _ => true | None => false end)
              shape_bool >>
        _write_int8 (default 0 (as_int value))
      else if chr_eq tag "i" then
        check (match as_int value with
               | Some n => (- 2 ^ 31 <? n) && (n <? 2 ^ 31 - 1)
               | None => false
               end) shape_int32 >>
        _write_int32 (default 0 (as_int value))
      else if chr_eq tag "I" then
        check (match as_int value with
               | Some n => (- 2 ^ 63 <? n) && (n <? 2 ^ 63 - 1)
               | None => false
               end) shape_int64 >>
        _write_int64 (default 0 (as_int value))
      else if chr_eq tag "f" then
        check (match as_float value with Some _ => true | None => false end)
              shape_float >>
        _write_float64 (default [] (as_float value))
      else if chr_eq tag "F" then
        check (match as_Fraction value with
               | Some (n, d) =>
                   (- 2 ^ 63 <? n) && (n <? 2 ^ 63 - 1)
                   && (- 2 ^ 63 <? d) && (d <? 2 ^ 63 - 1)
               | None => false
               end) shape_Fraction64 >>
        _write_int64 (fst (default (0, 0) (as_Fraction value))) >>
        _write_int64 (snd (default (0, 0) (as_Fraction value)))
      else if chr_eq tag "s" then
        check (match as_str value with
               | Some s => no_NUL s
               | None => false
               end) shape_str >>
        _write_string (default EmptyString (as_str value))
      else if chr_eq tag "l" then
        check (match as_list value with Some _ => true | None => false end)
              shape_list >>
        _write_int32 (Z.of_nat (List.length (default [] (as_list value)))) >>
        for_each (fun elt =>
                    let! tags_copy := bytearray_copy tags in
                    _send_rpc_value fuel' tags_copy elt root function)
                 (default [] (as_list value)) >>
        _skip_rpc_value fuel' tags
      else if chr_eq tag "r" then
        check (match as_range value with Some _ => true | None => false end)
              shape_range >>
        let '(start, stop, step) := default (0, 0, 0) (as_range value) in
        let! tags_copy := bytearray_copy tags in
        _send_rpc_value fuel' tags_copy (VInt start) root function >>
        let! tags_copy := bytearray_copy tags in
        _send_rpc_value fuel' tags_copy (VInt stop) root function >>
        let! tags_copy := bytearray_copy tags in
        _send_rpc_value fuel' tags_copy (VInt step) root function >>
        (* [tags = tags_copy]: the local name is bound to the copy; the
           object the caller passed is not touched. *)
        let tags := tags_copy in
        ret tt
      else raise (IOError_UnknownTag tag)
  end.

(** [isinstance(e, Exception)].  The exceptions of the driver and of the
    primitives it calls are all instances of [Exception]; running out of
    fuel is not an exception. *)
Definition is_Exception (e : exn) : bool :=
  match e with
  | HostBaseException _ | OutOfFuel => false
  | _ => true
  end.

(** [try: body / except Exception as exn: handler]: what is not an
    instance of [Exception] is passed on as it is. *)
Definition try_except {A} (body : M A) (handler : exn -> M A) : M A :=
  fun st =>
    match body st with
    | (Raise e, st') => if is_Exception e then handler e st' else (Raise e, st')
    | (Ok a, st') => (Ok a, st')
    end.

(** The exception object as the handler observes it. *)
Definition observe (e : exn) : host_exn :=
  match e with
  | HostException h => h
  | _ => introspect e
  end.

(** [exn_type in (ZeroDivisionError, ValueError, IndexError)] *)
Definition is_wellknown_builtin (exn_type : exn_class) : bool :=
  bool_decide (exn_type = mkClass "ZeroDivisionError" "builtins"
                                  "ZeroDivisionError")
  || bool_decide (exn_type = mkClass "ValueError" "builtins" "ValueError")
  || bool_decide (exn_type = mkClass "IndexError" "builtins" "IndexError").

(** The body of the [except] clause of [_serve_rpc]. *)
Definition rpc_exception_handler (embedding_map : EmbeddingMap) (e : exn)
    : M unit :=
  let exn := observe e in
  _write_header RPC_EXCEPTION >>
  match artiq_core_exception exn with
  | Some exn =>
      _write_string (core_name exn) >>
      _write_string (core_message exn) >>
      for_each (fun index =>
                  match core_param exn !! Z.to_nat index with
                  | Some p => _write_int64 p
                  | None => raise IndexError
                  end) (range_list 3) >>
      match last (core_traceback exn) with
      | None => raise IndexError
      | Some (filename, line, column, function) =>
          _write_string filename >>
          _write_int32 line >>
          _write_int32 column >>
          _write_string function
      end
  | None =>
      let exn_type := exn_type exn in
      (if is_wellknown_builtin exn_type || artiq_builtin exn then
         _write_string ("0:" +:+ cls_name exn_type)
       else
         let! exn_id := lift (store_object embedding_map exn_type) in
         _write_string (format_int exn_id +:+ ":" +:+ cls_module exn_type
                          +:+ "." +:+ cls_qualname exn_type)) >>
      _write_string (exn_str exn) >>
      for_each (fun index => _write_int64 0) (range_list 3) >>
      let tb := take 2 (exn_traceback exn) in
      match tb with
      | [_; frame] | [frame] =>
          _write_string (tb_filename frame) >>
          _write_int32 (tb_line frame) >>
          _write_int32 (-1) >> (* column not known *)
          _write_string (tb_function frame)
      | _ => raise AssertionError
      end
  end >>
  _write_flush.

Definition _serve_rpc (fuel : nat) (embedding_map : EmbeddingMap) : M unit :=
  let! service_id := _read_int32 in
  let! service :=
    if service_id =? 0 then ret VSetattr
    else lift (retrieve_object embedding_map service_id) in
  let! (args, kwargs) := _receive_rpc_args fuel fuel embedding_map in
  let! return_tags := _read_bytes in
  try_except
    (let! result := lift (call_service service args kwargs) in
     if negb (service_id =? 0) then
       _write_header RPC_REPLY >>
       _write_bytes return_tags >>
       let! tags := bytearray_new return_tags in
       _send_rpc_value fuel tags result result service >>
       _write_flush
     else ret tt)
    (rpc_exception_handler embedding_map).
End RPC.

(* ================================================================= *)
(** ** Argument lists, as data *)

(** Successive calls of [_receive_rpc_value] from [st] return the values
    [values], none of them the sentinel, and lead to [st']. *)
Inductive receives (builtin_range : pyval -> pyval -> pyval -> result pyval)
    (fuel : nat) (embedding_map : EmbeddingMap)
    : state -> list pyval -> state -> Prop :=
| receives_nil st : receives builtin_range fuel embedding_map st [] st
| receives_cons st value st1 values st' :
    _receive_rpc_value builtin_range fuel embedding_map st = (Ok value, st1) ->
    value <> VSentinel ->
    receives builtin_range fuel embedding_map st1 values st' ->
    receives builtin_range fuel embedding_map st (value :: values) st'.

Definition is_keyword (value : pyval) : bool :=
  match value with VKeyword _ _ => true | _ => false end.

(** The positional values of an argument sequence, in emission order. *)
Definition positional_args (values : list pyval) : list pyval :=
  List.filter (fun value => negb (is_keyword value)) values.

(** The value of the last occurrence of the keyword [name]. *)
Fixpoint last_keyword (name : string) (values : list pyval) : option pyval :=
  match values with
  | [] => None
  | value :: values' =>
      match last_keyword name values' with
      | Some v => Some v
      | None =>
          match value with
          | VKeyword n v => if decide (n = name) then Some v else None
          | _ => None
          end
      end
  end.

(** The keyword mapping after the values [values], from [kwargs]. *)
Definition collate (values : list pyval) (kwargs : gmap string pyval)
    : gmap string pyval :=
  fold_left (fun m value =>
               match value with
               | VKeyword name v => <[name := v]> m
               | _ => m
               end) values kwargs.

(* ================================================================= *)
(** ** The body of an [RPC_EXCEPTION] message, as data *)

(** A string on the wire: length, UTF-8 bytes, NUL. *)
Definition wire_string (s : string) : list byte :=
  be_encode 4 (Z.of_nat (List.length (encode_utf8 s ++ [x00])))
  ++ encode_utf8 s ++ [x00].

(** Name, message, three zero parameters, file, line, column, function. *)
Definition rpc_exception_body (name message filename : string)
    (line column : Z) (function : string) : list byte :=
  wire_string name ++ wire_string message
  ++ be_encode 8 0 ++ be_encode 8 0 ++ be_encode 8 0
  ++ wire_string filename ++ be_encode 4 line ++ be_encode 4 column
  ++ wire_string function.

(** The name under which the class of a host exception is sent. *)
Definition exception_name (embedding_map : EmbeddingMap) (exn : host_exn)
    : result string :=
  if is_wellknown_builtin (exn_type exn) || artiq_builtin exn then
    Ok ("0:" +:+ cls_name (exn_type exn))
  else
    match store_object embedding_map (exn_type exn) with
    | Ok exn_id =>
        Ok (format_int exn_id +:+ ":" +:+ cls_module (exn_type exn)
              +:+ "." +:+ cls_qualname (exn_type exn))
    | Raise e => Raise e
    end.

(* ================================================================= *)
(** ** What a computation leaves alone *)

(** [st'] has every bytearray of [st], except perhaps the one at [t], with
    the content it had. *)
Definition frame (t : nat) (st st' : state) : Prop :=
  (List.length (bytearrays st) <= List.length (bytearrays st'))%nat /\
  forall l, (l < List.length (bytearrays st))%nat -> l <> t ->
            bytearrays st' !!! l = bytearrays st !!! l.

(** [st'] has every bytearray of [st] with the content it had. *)
Definition preserved (st st' : state) : Prop :=
  (List.length (bytearrays st) <= List.length (bytearrays st'))%nat /\
  forall l, (l < List.length (bytearrays st))%nat ->
            bytearrays st' !!! l = bytearrays st !!! l.

Definition respects (t : nat) {A} (c : M A) : Prop :=
  forall st, frame t st (snd (c st)).

Definition preserving {A} (c : M A) : Prop :=
  forall st, preserved st (snd (c st)).

(** [c] writes nothing: neither to the channel nor to the builder. *)
Definition silent {A} (c : M A) : Prop :=
  forall st, chan_out (snd (c st)) = chan_out st /\
             _write_buffer (snd (c st)) = _write_buffer st /\
             _write_type (snd (c st)) = _write_type st.

(** [c] only appends chunks to the message under construction. *)
Definition builds {A} (c : M A) : Prop :=
  forall st, chan_out (snd (c st)) = chan_out st /\
             _write_type (snd (c st)) = _write_type st.

(** [c] completes and appends the chunks [chunks] to the message under
    construction, whatever the state. *)
Definition appends (c : M unit) (chunks : list (list byte)) : Prop :=
  forall st,
    c st = (Ok tt, set_write_buffer (_write_buffer st ++ chunks) st).

(* ================================================================= *)
(** ** A host for the closed examples *)

Definition ValueError_bad : host_exn :=
  mkHostExn None (mkClass "ValueError" "builtins" "ValueError") false "bad"
            [mkFrame "comm_generic.py" 455 "_serve_rpc";
             mkFrame "services.py" 3 "service"].

Definition example_embedding_map : EmbeddingMap :=
  mkEmbeddingMap (fun id => Ok (VObject id)) (fun _ => Ok 42).

Definition example_range (start stop step : pyval) : result pyval :=
  match start, stop, step with
  | VWrapInt a _, VWrapInt b _, VWrapInt c _ =>
      if c =? 0 then Raise (HostException ValueError_bad)
      else Ok (VRange a b c)
  | _, _, _ => Raise (HostException ValueError_bad)
  end.

(** Service 7 adds its two arguments; the [setattr] lambda succeeds on an
    object, an attribute name and a value, and raises otherwise. *)
Definition example_call_service (service : pyval) (args : list pyval)
    (kwargs : gmap string pyval) : result pyval :=
  match service, args with
  | VObject 7, [VWrapInt a _; VWrapInt b _] => Ok (VInt (a + b))
  | VSetattr, [VObject _; VStr _; _] => Ok VNone
  | _, _ => Raise (HostException ValueError_bad)
  end.

Definition example_introspect (e : exn) : host_exn :=
  mkHostExn None (mkClass "Exception" "builtins" "Exception") false ""
            [mkFrame "comm_generic.py" 461 "_serve_rpc"].



(** The body of an [RPC_REQUEST] that is all there is to read. *)
Definition request (body : list byte) : state :=
  set_read_length (Z.of_nat (List.length body)) (init body).

(* ================================================================= *)
(** ** Control operations *)

(** An exception of a class defined outside the driver, by its module,
    class name and message. *)
Definition exception_of (module name message : string) : exn :=
  HostException (mkHostExn None (mkClass name module name) false message []).

(** [IOError("Flash storage is full")] *)
Definition IOError_FlashFull : exn :=
  exception_of "builtins" "OSError" "Flash storage is full".

(** [exceptions.WatchdogExpired] *)
Definition WatchdogExpired : exn :=
  exception_of "artiq.coredevice.exceptions" "WatchdogExpired" "".

(** [exceptions.ClockFailure] *)
Definition ClockFailure : exn :=
  exception_of "artiq.coredevice.exceptions" "ClockFailure" "".

Definition switch_clock (external : Z) : M unit :=
  _write_header SWITCH_CLOCK >>
  _write_int8 external >>
  _write_flush >>
  _read_empty CLOCK_SWITCH_COMPLETED.

Definition clear_log : M unit :=
  _write_empty LOG_CLEAR >>
  _read_empty LOG_REPLY.

Definition flash_storage_read (key : string) : M (list byte) :=
  _write_header FLASH_READ_REQUEST >>
  _write_string key >>
  _write_flush >>
  _read_header >>
  _read_expect FLASH_READ_REPLY >>
  let! remaining := gets _read_length in
  _read_chunk remaining.

Definition flash_storage_write (key : string) (value : list byte) : M unit :=
  _write_header FLASH_WRITE_REQUEST >>
  _write_string key >>
  _write_bytes value >>
  _write_flush >>
  _read_header >>
  let! ty := gets _read_type in
  if decide (ty = Some FLASH_ERROR_REPLY) then raise IOError_FlashFull
  else _read_expect FLASH_OK_REPLY.

Definition flash_storage_erase : M unit :=
  _write_empty FLASH_ERASE_REQUEST >>
  _read_empty FLASH_OK_REPLY.

Definition flash_storage_remove (key : string) : M unit :=
  _write_header FLASH_REMOVE_REQUEST >>
  _write_string key >>
  _write_flush >>
  _read_empty FLASH_OK_REPLY.

Definition load (kernel_library : list byte) : M unit :=
  _write_header LOAD_LIBRARY >>
  _write_chunk kernel_library >>
  _write_flush >>
  _read_empty LOAD_COMPLETED.

Definition run : M unit :=
  _write_empty RUN_KERNEL.

(* ================================================================= *)
(** ** The serve loop *)

Section Serve.
Variable builtin_range : pyval -> pyval -> pyval -> result pyval.
Variable call_service :
  pyval -> list pyval -> gmap string pyval -> result pyval.
Variable introspect : exn -> host_exn.

(** The exception [_serve_exception] ends with.  After the record has
    been read, every path of the method raises: the host exception built
    from the record, or what the symbolizer, the demangler, the lookup of
    the exception class or the formatting of the message raised on the
    way.  The arguments are the embedding map and the fields read: name,
    message, params, filename, line, column, function, backtrace. *)
Variable kernel_exception :
  EmbeddingMap -> string -> string -> list Z -> string -> Z -> Z -> string ->
  list Z -> exn.

Definition _serve_exception (embedding_map : EmbeddingMap) : M unit :=
  let! name := _read_string in
  let! message := _read_string in
  let! params := collect (fun _ => _read_int64) (range_list 3) in
  let! filename := _read_string in
  let! line := _read_int32 in
  let! column := _read_int32 in
  let! function := _read_string in
  let! count := _read_int32 in
  let! backtrace := collect (fun _ => _read_int32) (range_list count) in
  raise (kernel_exception embedding_map name message params
                          filename line column function backtrace).

(** [serve]; [turns] bounds the iterations of its [while True] loop. *)
Fixpoint serve (turns fuel : nat) (embedding_map : EmbeddingMap) : M unit :=
  match turns with
  | O => raise OutOfFuel
  | S turns' =>
      _read_header >>
      let! ty := gets _read_type in
      if decide (ty = Some RPC_REQUEST) then
        _serve_rpc builtin_range call_service introspect fuel embedding_map >>
        serve turns' fuel embedding_map
      else if decide (ty = Some KERNEL_EXCEPTION) then
        _serve_exception embedding_map >>
        serve turns' fuel embedding_map
      else if decide (ty = Some WATCHDOG_EXPIRED) then
        raise WatchdogExpired
      else if decide (ty = Some CLOCK_FAILURE) then
        raise ClockFailure
      else
        _read_expect KERNEL_FINISHED
  end.
End Serve.

(* ================================================================= *)
(** ** What the codec does to the message being read and written *)

(** Whenever [c] returns, the bytes it took from the channel are as many
    as it took off the count of the message being read, and that count
    has not gone below zero. *)
Definition within_message {A} (c : M A) : Prop :=
  forall st a st',
    c st = (Ok a, st') ->
    0 <= _read_length st ->
    exists taken,
      chan_in st = taken ++ chan_in st' /\
      _read_length st' = _read_length st - Z.of_nat (List.length taken) /\
      0 <= _read_length st'.

(** Whatever its outcome, [c] leaves the reader alone, writes nothing to
    the channel, keeps the type of the message under construction, and
    only adds chunks after those pending. *)
Definition extends_message {A} (c : M A) : Prop :=
  forall st,
    chan_in (snd (c st)) = chan_in st /\
    _read_length (snd (c st)) = _read_length st /\
    _read_type (snd (c st)) = _read_type st /\
    chan_out (snd (c st)) = chan_out st /\
    _write_type (snd (c st)) = _write_type st /\
    exists chunks, _write_buffer (snd (c st)) = _write_buffer st ++ chunks.

(** The tags of the scalar values. *)
Definition scalar_tags : list byte :=
  [x6e; x62; x69; x49; x66; x46; x73].

(** What a step of [_serve_rpc] has written: nothing, or, when it
    returned, one envelope of one of the two types of answer. *)
Definition answered (out : list byte) (r : result unit) (st' : state)
    : Prop :=
  chan_out st' = out \/
  (r = Ok tt /\
   exists body, chan_out st' = out ++ envelope 7 body \/
                chan_out st' = out ++ envelope 8 body).

(* ================================================================= *)
(** * Properties of the driver *)

(** ** Bytes and integers *)

Lemma Z_of_byte_range (b : byte) : 0 <= Z_of_byte b < 256.
Proof.
  unfold Z_of_byte. pose proof (Byte.to_N_bounded b). lia.
Qed.

Lemma Z_of_byte_of_Z (z : Z) : Z_of_byte (byte_of_Z z) = z mod 256.
Proof.
  unfold Z_of_byte, byte_of_Z.
  pose proof (Z.mod_pos_bound z 256 ltac:(lia)) as Hb.
  destruct (Byte.of_N (Z.to_N (z mod 256))) as [b|] eqn:E.
  - apply Byte.to_of_N in E. rewrite E. lia.
  - apply Byte.of_N_None_iff in E. lia.
Qed.

Lemma byte_of_Z_of_byte (b : byte) : byte_of_Z (Z_of_byte b) = b.
Proof.
  unfold byte_of_Z, Z_of_byte.
  pose proof (Byte.to_N_bounded b).
  rewrite Z.mod_small by lia. rewrite N2Z.id, Byte.of_to_N. reflexivity.
Qed.

Lemma be_decode_snoc (bs : list byte) (b : byte) :
  be_decode (bs ++ [b]) = be_decode bs * 256 + Z_of_byte b.
Proof. unfold be_decode. rewrite fold_left_app. reflexivity. Qed.

Lemma be_encode_length (n : nat) (v : Z) : List.length (be_encode n v) = n.
Proof.
  revert v. induction n as [|n IH]; intros v; simpl; [reflexivity|].
  rewrite length_app, IH. simpl. lia.
Qed.

Lemma be_decode_encode (n : nat) (v : Z) :
  be_decode (be_encode n v) = v mod 256 ^ Z.of_nat n.
Proof.
  revert v. induction n as [|n IH]; intros v.
  - simpl. rewrite Z.mod_1_r. reflexivity.
  - cbn [be_encode]. rewrite be_decode_snoc, IH, Z_of_byte_of_Z.
    rewrite Nat2Z.inj_succ, Z.pow_succ_r by lia.
    rewrite (Z.rem_mul_r v 256 (256 ^ Z.of_nat n)) by lia. lia.
Qed.

Lemma to_signed_wrap (n : nat) (v : Z) :
  (0 < n)%nat ->
  - 2 ^ (8 * Z.of_nat n - 1) <= v < 2 ^ (8 * Z.of_nat n - 1) ->
  to_signed n (v mod 256 ^ Z.of_nat n) = v.
Proof.
  intros Hn Hv. unfold to_signed.
  assert (E : 256 ^ Z.of_nat n = 2 ^ (8 * Z.of_nat n)).
  { change 256 with (2 ^ 8). rewrite <- Z.pow_mul_r by lia. reflexivity. }
  rewrite E.
  assert (H2 : 2 ^ (8 * Z.of_nat n) = 2 * 2 ^ (8 * Z.of_nat n - 1)).
  { rewrite <- Z.pow_succ_r by lia. f_equal. lia. }
  set (h := 2 ^ (8 * Z.of_nat n - 1)) in *.
  assert (0 < h) by (apply Z.pow_pos_nonneg; lia).
  destruct (Z_lt_le_dec v 0) as [Hneg|Hpos].
  - assert (Em : v mod (2 ^ (8 * Z.of_nat n)) = v + 2 * h).
    { symmetry. apply (Z.mod_unique _ _ (-1)); lia. }
    rewrite Em. destruct (Z.ltb_spec (v + 2 * h) h); lia.
  - rewrite Z.mod_small by lia. destruct (Z.ltb_spec v h); lia.
Qed.

Lemma unpack_pack_l (v : Z) (data : list byte) :
  pack_l v = Ok data -> unpack_l data = Ok v.
Proof.
  unfold pack_l, unpack_l. intros H.
  destruct (andb _ _) eqn:E; [|discriminate].
  assert (data = be_encode 4 v) as -> by congruence. clear H. rewrite be_encode_length.
  destruct (decide (4%nat = 4%nat)); [|congruence].
  rewrite be_decode_encode. f_equal.
  apply andb_true_iff in E as [E1 E2].
  apply Z.leb_le in E1, E2.
  apply to_signed_wrap; [lia|]. change (8 * Z.of_nat 4 - 1) with 31. lia.
Qed.

(** ** Running the monad *)

Lemma bind_Ok {A B} (c : M A) (k : A -> M B) st a st' :
  c st = (Ok a, st') -> bind c k st = k a st'.
Proof. unfold bind. intros ->. reflexivity. Qed.

Lemma bind_Raise {A B} (c : M A) (k : A -> M B) st e st' :
  c st = (Raise e, st') -> bind c k st = (Raise e, st').
Proof. unfold bind. intros ->. reflexivity. Qed.

Lemma read_exact (a b : list byte) (n : Z) (st : state) :
  Z.of_nat (List.length a) = n -> chan_in st = a ++ b ->
  read n st = (Ok a, set_chan_in b st).
Proof.
  intros Hn Hin. unfold read. rewrite Hin, length_app.
  replace ((0 <=? n) && (n <=? Z.of_nat (List.length a + List.length b)))
    with true by (symmetry; apply andb_true_iff; split; apply Z.leb_le; lia).
  subst n. rewrite Nat2Z.id, take_app_length, drop_app_length. reflexivity.
Qed.

Lemma read_short (n : Z) (st : state) :
  Z.of_nat (List.length (chan_in st)) < n ->
  read n st = (Raise ChannelError, st).
Proof.
  intros H. unfold read.
  replace (n <=? Z.of_nat (List.length (chan_in st))) with false
    by (symmetry; apply Z.leb_gt; lia).
  rewrite andb_false_r. reflexivity.
Qed.

Lemma sync_loop_done (c : Z) (input : list byte) :
  4 <= c -> sync_loop c input = Some input.
Proof.
  intros H. destruct input; simpl;
    (destruct (Z.ltb_spec c 4); [lia | reflexivity]).
Qed.

Lemma Z_of_byte_5a (b : byte) : Z_of_byte b = 0x5a <-> b = x5a.
Proof.
  split; [|intros ->; reflexivity].
  intros H. rewrite <- (byte_of_Z_of_byte b), H. reflexivity.
Qed.

(** ** The reader *)

Lemma _read_header_underrun (st : state) :
  0 < _read_length st ->
  _read_header st =
    (Raise (IOError_ReadUnderrun (_read_length st)), set_chan_open true st).
Proof.
  intros H. unfold _read_header, bind, open, modify, gets, raise.
  cbn [_read_length set_chan_open].
  destruct (Z.ltb_spec 0 (_read_length st)); [reflexivity | lia].
Qed.

(** What [_read_header] does once the sync sequence has been found and
    the four bytes of the length field are there. *)
Lemma _read_header_synced (st : state) b1 b2 b3 b4 after :
  _read_length st <= 0 ->
  sync_loop 0 (chan_in st) = Some (b1 :: b2 :: b3 :: b4 :: after) ->
  let length := to_signed 4 (be_decode [b1; b2; b3; b4]) in
  let st1 := set_read_length length
               (set_chan_in after (set_chan_open true st)) in
  _read_header st =
    if length =? 0 then (Raise OSError_ConnectionClosed, st1)
    else match after with
         | [] => (Raise ChannelError, st1)
         | t :: after' =>
             let st2 := set_chan_in after' st1 in
             match D2H_of_value (Z_of_byte t) with
             | None => (Raise (ValueError_MsgType (Z_of_byte t)), st2)
             | Some ty =>
                 let st3 := set_read_type (Some ty) st2 in
                 if length <? 9 then (Raise (IOError_HeaderOverrun length), st3)
                 else (Ok tt, set_read_length (length - 9) st3)
             end
         end.
Proof.
  intros Hrl Hsync length st1.
  unfold _read_header.
  rewrite (bind_Ok _ _ st tt (set_chan_open true st)) by reflexivity.
  rewrite (bind_Ok _ _ _ (_read_length st) (set_chan_open true st))
    by reflexivity.
  destruct (Z.ltb_spec 0 (_read_length st)); [lia|].
  rewrite (bind_Ok _ _ _ tt
             (set_chan_in (b1 :: b2 :: b3 :: b4 :: after)
                          (set_chan_open true st))).
  2:{ unfold wait_sync. cbn [chan_in set_chan_open]. rewrite Hsync.
      reflexivity. }
  rewrite (bind_Ok _ _ _ [b1; b2; b3; b4]
             (set_chan_in after (set_chan_open true st))).
  2:{ rewrite (read_exact [b1; b2; b3; b4] after 4); reflexivity. }
  rewrite (bind_Ok _ _ _ length (set_chan_in after (set_chan_open true st)))
    by reflexivity.
  rewrite (bind_Ok _ _ _ tt st1) by reflexivity.
  destruct (length =? 0); [reflexivity|].
  destruct after as [|t after'].
  - apply bind_Raise. apply read_short. cbn. lia.
  - rewrite (bind_Ok _ _ _ [t] (set_chan_in after' st1)).
    2:{ rewrite (read_exact [t] after' 1); reflexivity. }
    rewrite (bind_Ok _ _ _ (Z_of_byte t) (set_chan_in after' st1))
      by reflexivity.
    cbv zeta.
    destruct (D2H_of_value (Z_of_byte t)) as [ty|]; [|reflexivity].
    rewrite (bind_Ok _ _ _ tt (set_read_type (Some ty) (set_chan_in after' st1)))
      by reflexivity.
    destruct (length <? 9); reflexivity.
Qed.

(** C7. [_read_header] fails with a read underrun whenever bytes of the
    previous message remain.  Otherwise, once the sync sequence has been
    found and the length field read: it fails with "connection closed"
    exactly when the length is zero; for a nonzero length it fails on an
    unknown type byte; for a known type it fails with the malformed-header
    error exactly when the length is below 9, and else it leaves
    [length - 9] in [_read_length] and the type in [_read_type]. *)
Theorem read_header_outcomes (st : state) :
  (0 < _read_length st ->
   fst (_read_header st) = Raise (IOError_ReadUnderrun (_read_length st)))
  /\
  (forall b1 b2 b3 b4 after,
     _read_length st <= 0 ->
     sync_loop 0 (chan_in st) = Some (b1 :: b2 :: b3 :: b4 :: after) ->
     let length := to_signed 4 (be_decode [b1; b2; b3; b4]) in
     (fst (_read_header st) = Raise OSError_ConnectionClosed <-> length = 0)
     /\
     (forall t after',
        after = t :: after' -> length <> 0 ->
        match D2H_of_value (Z_of_byte t) with
        | None =>
            fst (_read_header st) = Raise (ValueError_MsgType (Z_of_byte t))
        | Some ty =>
            (fst (_read_header st) = Raise (IOError_HeaderOverrun length)
             <-> length < 9)
            /\
            (9 <= length ->
             fst (_read_header st) = Ok tt /\
             _read_length (snd (_read_header st)) = length - 9 /\
             _read_type (snd (_read_header st)) = Some ty /\
             chan_in (snd (_read_header st)) = after')
        end)).
Proof.
  split.
  - intros H. rewrite _read_header_underrun by exact H. reflexivity.
  - intros b1 b2 b3 b4 after Hrl Hsync length.
    pose proof (_read_header_synced st b1 b2 b3 b4 after Hrl Hsync) as Hrun.
    cbv zeta in Hrun. fold length in Hrun.
    split.
    + rewrite Hrun. destruct (Z.eqb_spec length 0) as [E|E].
      * split; [intros _; exact E | reflexivity].
      * split; [|intros E'; contradiction].
        destruct after as [|t after']; [discriminate|].
        destruct (D2H_of_value (Z_of_byte t)); [|discriminate].
        destruct (length <? 9); discriminate.
    + intros t after' -> Hnz. rewrite Hrun.
      destruct (Z.eqb_spec length 0) as [E|_]; [contradiction|].
      destruct (D2H_of_value (Z_of_byte t)) as [ty|]; [|reflexivity].
      destruct (Z.ltb_spec length 9) as [Hlt|Hge].
      * split; [split; [intros _; exact Hlt | reflexivity] | lia].
      * split; [split; [discriminate | lia] |].
        intros _. repeat split.
Qed.

Lemma read_header_outcomes_witness :
  fst (_read_header (set_read_length 3 (init []))) =
    Raise (IOError_ReadUnderrun 3) /\
  fst (_read_header (init (envelope 2 [x41; x52]))) = Ok tt /\
  _read_length (snd (_read_header (init (envelope 2 [x41; x52])))) = 2 /\
  _read_type (snd (_read_header (init (envelope 2 [x41; x52])))) =
    Some IDENT_REPLY.
Proof.
  split.
  - apply (proj1 (read_header_outcomes (set_read_length 3 (init [])))).
    vm_compute. reflexivity.
  - pose proof (proj2 (read_header_outcomes (init (envelope 2 [x41; x52])))
                  x00 x00 x00 x0b [x02; x41; x52]
                  ltac:(vm_compute; discriminate) eq_refl) as [_ H].
    specialize (H x02 [x41; x52] eq_refl ltac:(vm_compute; discriminate)).
    cbn [D2H_of_value] in H.
    change (D2H_of_value (Z_of_byte x02)) with (Some IDENT_REPLY) in H.
    destruct H as [_ H].
    specialize (H ltac:(vm_compute; discriminate)).
    destruct H as (H1 & H2 & H3 & _). repeat split; assumption.
Defined.

(** ** Resynchronisation *)

Lemma contains_sync_cons (b : byte) (G : list byte) :
  contains_sync G -> contains_sync (b :: G).
Proof.
  intros (before & after & ->). exists (b :: before), after. reflexivity.
Qed.

Lemma sync_loop_skip (G : list byte) :
  forall (c : Z) (input : list byte),
    0 <= c < 4 ->
    ~ contains_sync (repeat x5a (Z.to_nat c) ++ G) ->
    sync_loop c (G ++ input) = sync_loop (sync_count_after c G) input /\
    0 <= sync_count_after c G < 4.
Proof.
  induction G as [|b G IH]; intros c input Hc Hno.
  - split; [reflexivity | exact Hc].
  - cbn [app sync_loop sync_count_after fold_left].
    destruct (Z.ltb_spec c 4) as [_|?]; [|lia].
    destruct (Z.eqb_spec (Z_of_byte b) 0x5a) as [E|E].
    + apply Z_of_byte_5a in E. subst b.
      assert (Hc' : c + 1 < 4).
      { destruct (Z_lt_le_dec (c + 1) 4) as [?|Hge]; [assumption|].
        exfalso. apply Hno. replace c with 3 by lia.
        exists [], G. reflexivity. }
      apply IH; [lia|].
      replace (Z.to_nat (c + 1)) with (S (Z.to_nat c)) by lia.
      cbn [repeat]. rewrite repeat_cons, <- app_assoc. exact Hno.
    + apply IH; [lia|].
      intros Hin. apply Hno.
      clear - Hin. induction (Z.to_nat c) as [|n IHn]; cbn.
      * apply contains_sync_cons. exact Hin.
      * apply contains_sync_cons. exact IHn.
Qed.

Lemma sync_count_after_last (G : list byte) (c : Z) :
  G <> [] -> ~ ends_with_5a G -> sync_count_after c G = 0.
Proof.
  intros Hne Hend. destruct (exists_last Hne) as (G' & b & ->).
  unfold sync_count_after. rewrite fold_left_app. cbn.
  destruct (Z.eqb_spec (Z_of_byte b) 0x5a) as [E|E]; [|reflexivity].
  apply Z_of_byte_5a in E. subst b. exfalso. apply Hend. exists G'.
  reflexivity.
Qed.

Lemma sync_loop_garbage (G input : list byte) :
  ~ contains_sync G -> ~ ends_with_5a G ->
  sync_loop 0 (G ++ input) = sync_loop 0 input.
Proof.
  intros Hno Hend. destruct G as [|b G]; [reflexivity|].
  destruct (sync_loop_skip (b :: G) 0 input ltac:(lia) Hno) as [-> _].
  rewrite sync_count_after_last by (assumption || discriminate).
  reflexivity.
Qed.

Lemma _read_header_garbage (G input : list byte) (st : state) :
  ~ contains_sync G -> ~ ends_with_5a G -> _read_length st <= 0 ->
  _read_header (set_chan_in (G ++ input) st) =
  _read_header (set_chan_in input st).
Proof.
  intros Hno Hend Hrl.
  unfold _read_header, bind, open, modify, gets, raise, wait_sync.
  cbn [_read_length set_chan_open set_chan_in chan_in].
  destruct (Z.ltb_spec 0 (_read_length st)); [lia|].
  change (chan_in (set_chan_open true (set_chan_in (G ++ input) st)))
    with (G ++ input).
  rewrite (sync_loop_garbage G input Hno Hend).
  reflexivity.
Qed.

(** C3, as the driver has it.  When the garbage [G] before an envelope
    holds no occurrence of the sync sequence and does not end with the
    byte 5a, [_read_header] gives on [G] followed by the envelope the
    same outcome, message type and remaining byte count as on the envelope
    alone. *)
Theorem resync_after_garbage (G : list byte) (raw_type : Z)
    (body rest : list byte) (st : state) :
  ~ contains_sync G -> ~ ends_with_5a G ->
  let with_garbage :=
    _read_header (set_chan_in (G ++ envelope raw_type body ++ rest) st) in
  let alone := _read_header (set_chan_in (envelope raw_type body ++ rest) st) in
  fst with_garbage = fst alone /\
  _read_type (snd with_garbage) = _read_type (snd alone) /\
  _read_length (snd with_garbage) = _read_length (snd alone).
Proof.
  intros Hno Hend. cbv zeta.
  destruct (Z_lt_le_dec 0 (_read_length st)) as [Hpos|Hrl].
  - rewrite !_read_header_underrun by exact Hpos. repeat split.
  - rewrite (_read_header_garbage G _ st Hno Hend Hrl). repeat split.
Qed.

Lemma contains_sync_length (G : list byte) :
  contains_sync G -> (4 <= List.length G)%nat.
Proof.
  intros (before & after & ->). rewrite !length_app. cbn. lia.
Qed.

Lemma ends_with_5a_last (G : list byte) :
  ends_with_5a G -> last G = Some x5a.
Proof. intros (before & ->). apply last_snoc. Qed.

(** C3, counterexample: the one-byte prefix 5a holds no sync sequence, yet
    it is taken for the first sync byte; the length field is then read one
    byte early. *)
Lemma resync_breaks_after_5a :
  let alone := _read_header (init (envelope 1 [])) in
  let with_garbage := _read_header (init ([x5a] ++ envelope 1 [])) in
  ~ contains_sync [x5a] /\
  fst alone = Ok tt /\
  _read_type (snd alone) = Some LOG_REPLY /\
  _read_length (snd alone) = 0 /\
  fst with_garbage = Ok tt /\
  _read_type (snd with_garbage) = Some KERNEL_EXCEPTION /\
  _read_length (snd with_garbage) = 1509949431.
Proof.
  cbv zeta. split; [|repeat split].
  intros H. apply contains_sync_length in H. cbn in H. lia.
Qed.

Lemma resync_after_garbage_witness :
  let with_garbage :=
    _read_header
      (set_chan_in ([x01; x5a; x02] ++ envelope 2 [x41] ++ []) (init [])) in
  let alone := _read_header (set_chan_in (envelope 2 [x41] ++ []) (init [])) in
  fst with_garbage = fst alone /\
  _read_type (snd with_garbage) = _read_type (snd alone) /\
  _read_length (snd with_garbage) = _read_length (snd alone).
Proof.
  apply (resync_after_garbage [x01; x5a; x02] 2 [x41] [] (init [])).
  - intros H. apply contains_sync_length in H. cbn in H. lia.
  - intros H. apply ends_with_5a_last in H. vm_compute in H. discriminate.
Defined.

(** ** The writer *)

Lemma for_each_write_chunk (chunks : list (list byte)) :
  forall st,
    for_each _write_chunk chunks st =
      (Ok tt, set_write_buffer (_write_buffer st ++ chunks) st).
Proof.
  induction chunks as [|c chunks IH]; intros st.
  - cbn. rewrite app_nil_r. destruct st; reflexivity.
  - cbn [for_each].
    rewrite (bind_Ok _ _ st tt
               (set_write_buffer (_write_buffer st ++ [c]) st))
      by reflexivity.
    rewrite IH. destruct st; cbn. rewrite <- app_assoc. reflexivity.
Qed.

Lemma for_each_write (buffer : list (list byte)) :
  forall st,
    for_each write buffer st =
      (Ok tt, set_chan_out (chan_out st ++ concat buffer) st).
Proof.
  induction buffer as [|c buffer IH]; intros st.
  - cbn. rewrite app_nil_r. destruct st; reflexivity.
  - cbn [for_each].
    rewrite (bind_Ok _ _ st tt (set_chan_out (chan_out st ++ c) st))
      by reflexivity.
    rewrite IH. destruct st; cbn. rewrite <- app_assoc. reflexivity.
Qed.

Lemma buffer_length_concat (buffer : list (list byte)) :
  buffer_length buffer = Z.of_nat (List.length (concat buffer)).
Proof.
  unfold buffer_length.
  induction buffer as [|c buffer IH]; [reflexivity|].
  cbn [map fold_right concat]. rewrite IH, length_app. lia.
Qed.

Lemma pack_llB_header (length : Z) (ty : _H2DMsgType) :
  - 2 ^ 31 <= length <= 2 ^ 31 - 1 ->
  pack_llB 0x5a5a5a5a length (H2D_value ty) =
    Ok (sync_sequence ++ be_encode 4 length ++ [byte_of_Z (H2D_value ty)]).
Proof.
  intros H. unfold pack_llB.
  change (pack_l 0x5a5a5a5a) with (@Ok (list byte) sync_sequence).
  unfold pack_l.
  replace ((- 2 ^ 31 <=? length) && (length <=? 2 ^ 31 - 1)) with true
    by (symmetry; apply andb_true_iff; split; apply Z.leb_le; lia).
  destruct ty; reflexivity.
Qed.

Lemma pack_llB_overflow (length : Z) (ty : Z) :
  2 ^ 31 - 1 < length -> pack_llB 0x5a5a5a5a length ty = Raise struct_error.
Proof.
  intros H. unfold pack_llB.
  change (pack_l 0x5a5a5a5a) with (@Ok (list byte) sync_sequence).
  unfold pack_l.
  replace (length <=? 2 ^ 31 - 1) with false
    by (symmetry; apply Z.leb_gt; lia).
  rewrite andb_false_r. reflexivity.
Qed.

Lemma _write_flush_run (st : state) (ty : _H2DMsgType) :
  _write_type st = Some ty ->
  9 + Z.of_nat (List.length (concat (_write_buffer st))) <= 2 ^ 31 - 1 ->
  _write_flush st =
    (Ok tt,
     set_chan_out
       (chan_out st ++ envelope (H2D_value ty) (concat (_write_buffer st))) st).
Proof.
  intros Hty Hlen. unfold _write_flush, bind, gets. rewrite Hty.
  rewrite buffer_length_concat, pack_llB_header by lia.
  unfold lift, write, modify. rewrite for_each_write.
  destruct st; cbn. unfold envelope. rewrite <- !app_assoc. reflexivity.
Qed.

Lemma _write_flush_buffer (st : state) :
  _write_buffer (snd (_write_flush st)) = _write_buffer st.
Proof.
  unfold _write_flush, bind, gets, raise, lift.
  destruct (_write_type st) as [ty|]; [|reflexivity].
  destruct (pack_llB _ _ _) as [header|e]; [|reflexivity].
  unfold write at 1, modify. rewrite for_each_write. reflexivity.
Qed.

Lemma send_message_prepare (ty : _H2DMsgType) (chunks : list (list byte))
    (st : state) :
  send_message ty chunks st =
    _write_flush (set_write_buffer chunks
                    (set_write_type (Some ty) (set_chan_open true st))).
Proof.
  unfold send_message, _write_header, open.
  rewrite (bind_Ok _ _ st tt
             (set_write_buffer [] (set_write_type (Some ty)
                                     (set_chan_open true st))))
    by reflexivity.
  erewrite bind_Ok by apply for_each_write_chunk.
  reflexivity.
Qed.

(** C4, as the driver has it.  After [_write_header], any sequence of
    chunk appends and [_write_flush], the pending chunk sequence still
    holds the appended chunks, whether the flush completed or raised: the
    flush does not touch it.  The next [_write_header] is what empties
    it. *)
Theorem flush_keeps_pending_chunks (ty : _H2DMsgType)
    (chunks : list (list byte)) (st : state) :
  let st' := snd (send_message ty chunks st) in
  _write_buffer st' = chunks /\
  forall ty', _write_buffer (snd (_write_header ty' st')) = [].
Proof.
  cbv zeta. split; [|reflexivity].
  rewrite send_message_prepare, _write_flush_buffer. reflexivity.
Qed.

(** C4, counterexample: after a flush that completes, a one-byte chunk is
    still pending in the builder. *)
Lemma flush_does_not_clear :
  let run := send_message LOAD_LIBRARY [[x01]] (init []) in
  fst run = Ok tt /\ _write_buffer (snd run) = [[x01]] /\
  _write_buffer (snd run) <> [].
Proof. cbv zeta. repeat split. discriminate. Qed.

Lemma _write_flush_overflow (st : state) (ty : _H2DMsgType) :
  _write_type st = Some ty ->
  2 ^ 31 - 1 < 9 + Z.of_nat (List.length (concat (_write_buffer st))) ->
  _write_flush st = (Raise struct_error, st).
Proof.
  intros Hty Hlen. unfold _write_flush, bind, gets. rewrite Hty.
  rewrite buffer_length_concat, pack_llB_overflow by lia.
  reflexivity.
Qed.

Lemma oversized_payload_length :
  Z.of_nat (List.length oversized_payload) = 2 ^ 31 - 9.
Proof.
  unfold oversized_payload. rewrite repeat_length, Z2Nat.id; lia.
Qed.

Lemma D2H_of_H2D (ty : _H2DMsgType) :
  exists ty', D2H_of_value (Z_of_byte (byte_of_Z (H2D_value ty))) = Some ty' /\
              D2H_value ty' = H2D_value ty.
Proof. destruct ty; vm_compute; eauto. Qed.

Lemma to_signed_be_l (v : Z) :
  - 2 ^ 31 <= v <= 2 ^ 31 - 1 -> to_signed 4 (be_decode (be_encode 4 v)) = v.
Proof.
  intros H. rewrite be_decode_encode.
  apply to_signed_wrap; [lia|]. change (8 * Z.of_nat 4 - 1) with 31. lia.
Qed.

Lemma _read_chunk_exact (body rest : list byte) (st : state) :
  _read_length st = Z.of_nat (List.length body) ->
  chan_in st = body ++ rest ->
  _read_chunk (Z.of_nat (List.length body)) st =
    (Ok body, set_chan_in rest (set_read_length 0 st)).
Proof.
  intros Hrl Hin. unfold _read_chunk.
  rewrite (bind_Ok _ _ st (_read_length st) st) by reflexivity.
  rewrite Hrl. rewrite Z.ltb_irrefl, Z.sub_diag.
  rewrite (bind_Ok _ _ st tt (set_read_length 0 st)) by reflexivity.
  apply read_exact; [reflexivity | exact Hin].
Qed.

Lemma _read_header_envelope (raw_type : Z) (ty : _D2HMsgType)
    (body rest : list byte) (st : state) :
  _read_length st <= 0 ->
  9 + Z.of_nat (List.length body) <= 2 ^ 31 - 1 ->
  D2H_of_value (Z_of_byte (byte_of_Z raw_type)) = Some ty ->
  _read_header (set_chan_in (envelope raw_type body ++ rest) st) =
    (Ok tt,
     set_read_length (Z.of_nat (List.length body))
       (set_read_type (Some ty)
          (set_chan_in (body ++ rest) (set_chan_open true st)))).
Proof.
  intros Hrl Hlen Hty.
  set (length := 9 + Z.of_nat (List.length body)) in *.
  pose proof (_read_header_synced
                (set_chan_in (envelope raw_type body ++ rest) st)
                (byte_of_Z (length / 256 / 256 / 256))
                (byte_of_Z (length / 256 / 256))
                (byte_of_Z (length / 256))
                (byte_of_Z length)
                (byte_of_Z raw_type :: body ++ rest) Hrl) as Hrun.
  cbv zeta in Hrun.
  change [byte_of_Z (length / 256 / 256 / 256); byte_of_Z (length / 256 / 256);
          byte_of_Z (length / 256); byte_of_Z length]
    with (be_encode 4 length) in Hrun.
  rewrite to_signed_be_l in Hrun by lia.
  rewrite Hty in Hrun.
  destruct (Z.eqb_spec length 0); [lia|].
  destruct (Z.ltb_spec length 9); [lia|].
  rewrite Hrun.
  - replace (length - 9) with (Z.of_nat (List.length body)) by lia.
    reflexivity.
  - cbn [chan_in set_chan_in]. unfold envelope. fold length.
    rewrite <- !app_assoc. cbn [sync_sequence app sync_loop].
    change (0 <? 4) with true. change (Z_of_byte x5a =? 0x5a) with true.
    cbn [Z.add]. cbv iota.
    change (0 + 1 <? 4) with true. change (0 + 1 + 1 <? 4) with true.
    change (0 + 1 + 1 + 1 <? 4) with true.
    apply sync_loop_done. reflexivity.
Qed.

(** C2, as the driver has it.  For every host-to-device type [ty] and
    chunks whose concatenation [P] fits the 32-bit length field
    ([9 + |P| <= 2^31 - 1]), building and flushing the message emits one
    envelope; parsing these bytes with [_read_header] and reading [|P|]
    bytes with [_read_chunk] gives the device-to-host type that has the
    code of [ty], the payload [P], and leaves no remaining byte. *)
Theorem envelope_roundtrip (ty : _H2DMsgType) (chunks : list (list byte))
    (writer reader : state) (rest : list byte) :
  let P := concat chunks in
  9 + Z.of_nat (List.length P) <= 2 ^ 31 - 1 ->
  _read_length reader = 0 ->
  exists frame ty',
    fst (send_message ty chunks writer) = Ok tt /\
    chan_out (snd (send_message ty chunks writer)) = chan_out writer ++ frame /\
    D2H_value ty' = H2D_value ty /\
    let parsed := receive_message (Z.of_nat (List.length P))
                    (set_chan_in (frame ++ rest) reader) in
    fst parsed = Ok P /\
    _read_type (snd parsed) = Some ty' /\
    _read_length (snd parsed) = 0 /\
    chan_in (snd parsed) = rest.
Proof.
  intros P Hlen Hrl.
  destruct (D2H_of_H2D ty) as (ty' & Hty' & Hval).
  exists (envelope (H2D_value ty) P), ty'.
  rewrite send_message_prepare.
  rewrite (_write_flush_run _ ty) by (try reflexivity; exact Hlen).
  repeat split; [exact Hval | ..]; cbv zeta; unfold receive_message;
    (erewrite bind_Ok;
     [| apply (_read_header_envelope _ ty' P rest reader);
        [lia | exact Hlen | exact Hty']]);
    (erewrite (_read_chunk_exact P rest) by reflexivity); reflexivity.
Qed.

(** C2, counterexample: a payload of [2^31 - 9] bytes cannot be framed,
    [struct.pack] refuses the length [2^31]; nothing is written. *)
Lemma oversized_message_not_framed :
  let run := send_message LOAD_LIBRARY [oversized_payload] (init []) in
  fst run = Raise struct_error /\ chan_out (snd run) = [].
Proof.
  cbv zeta. rewrite send_message_prepare.
  assert (H : 2 ^ 31 - 1 <
              9 + Z.of_nat (List.length (concat [oversized_payload]))).
  { cbn [concat]. rewrite app_nil_r, oversized_payload_length. lia. }
  pose proof (_write_flush_overflow
                (set_write_buffer [oversized_payload]
                   (set_write_type (Some LOAD_LIBRARY)
                      (set_chan_open true (init []))))
                LOAD_LIBRARY eq_refl H) as E.
  rewrite E. split; reflexivity.
Qed.

Lemma envelope_roundtrip_witness :
  exists frame ty',
    fst (send_message LOAD_LIBRARY [[x01]; [x02; x03]] (init [])) = Ok tt /\
    chan_out (snd (send_message LOAD_LIBRARY [[x01]; [x02; x03]] (init [])))
      = [] ++ frame /\
    D2H_value ty' = 5 /\
    let parsed := receive_message 3 (set_chan_in (frame ++ [xff]) (init [])) in
    fst parsed = Ok [x01; x02; x03] /\
    _read_type (snd parsed) = Some ty' /\
    _read_length (snd parsed) = 0 /\
    chan_in (snd parsed) = [xff].
Proof.
  apply (envelope_roundtrip LOAD_LIBRARY [[x01]; [x02; x03]]
           (init []) (init []) [xff]).
  - vm_compute. discriminate.
  - reflexivity.
Defined.

(** ** Identity check *)

Lemma set_chan_in_id (st : state) : set_chan_in (chan_in st) st = st.
Proof. destruct st; reflexivity. Qed.

Lemma _read_header_envelope_in (raw_type : Z) (ty : _D2HMsgType)
    (body rest : list byte) (st : state) :
  _read_length st <= 0 ->
  9 + Z.of_nat (List.length body) <= 2 ^ 31 - 1 ->
  D2H_of_value (Z_of_byte (byte_of_Z raw_type)) = Some ty ->
  chan_in st = envelope raw_type body ++ rest ->
  _read_header st =
    (Ok tt,
     set_read_length (Z.of_nat (List.length body))
       (set_read_type (Some ty)
          (set_chan_in (body ++ rest) (set_chan_open true st)))).
Proof.
  intros Hrl Hlen Hty Hin.
  rewrite <- (set_chan_in_id st) at 1. rewrite Hin.
  apply _read_header_envelope; assumption.
Qed.

Lemma _read_chunk_prefix (a b : list byte) (n : Z) (st : state) :
  n = Z.of_nat (List.length a) -> n <= _read_length st ->
  chan_in st = a ++ b ->
  _read_chunk n st =
    (Ok a, set_chan_in b (set_read_length (_read_length st - n) st)).
Proof.
  intros Hn Hrl Hin. unfold _read_chunk.
  rewrite (bind_Ok _ _ st (_read_length st) st) by reflexivity.
  destruct (Z.ltb_spec (_read_length st) n); [lia|].
  rewrite (bind_Ok _ _ st tt (set_read_length (_read_length st - n) st))
    by reflexivity.
  apply read_exact; [symmetry; exact Hn | exact Hin].
Qed.

Lemma _write_empty_run (ty : _H2DMsgType) (st : state) :
  _write_empty ty st =
    (Ok tt,
     set_chan_out (chan_out st ++ envelope (H2D_value ty) [])
       (set_write_buffer []
          (set_write_type (Some ty) (set_chan_open true st)))).
Proof.
  unfold _write_empty.
  rewrite (bind_Ok _ _ st tt
             (set_write_buffer [] (set_write_type (Some ty)
                                     (set_chan_open true st))))
    by reflexivity.
  rewrite (_write_flush_run _ ty); [reflexivity | reflexivity |].
  cbn. lia.
Qed.

(** C6, as the driver has it.  On an [IDENT_REPLY] whose body starts with
    four bytes other than "AROR", [check_ident] fails with the
    unsupported-device error.  When the body starts with "AROR" and the rest
    of it decodes as UTF-8 to a gateware version, [check_ident] returns
    [None]: the version is only compared with the software version, and a
    warning is logged when they differ by more than a [.dirty] suffix of
    the software version. *)
Theorem check_ident_outcomes (software_version : string)
    (runtime_id version_bytes rest : list byte) (st : state) :
  _read_length st <= 0 ->
  List.length runtime_id = 4%nat ->
  9 + Z.of_nat (List.length (runtime_id ++ version_bytes)) <= 2 ^ 31 - 1 ->
  chan_in st = envelope 2 (runtime_id ++ version_bytes) ++ rest ->
  let run := check_ident software_version st in
  (runtime_id <> AROR -> fst run = Raise (UnsupportedDevice runtime_id)) /\
  (runtime_id = AROR ->
   forall gateware_version,
     decode_utf8 version_bytes = Ok gateware_version ->
     fst run = Ok VNone /\
     _read_length (snd run) = 0 /\
     warnings (snd run) =
       warnings st ++
       (if bool_decide (gateware_version = software_version)
           || bool_decide (gateware_version +:+ ".dirty" = software_version)
        then [] else [(gateware_version, software_version)])).
Proof.
  intros Hrl Hid Hlen Hin run. subst run. unfold check_ident.
  rewrite (bind_Ok _ _ st tt _ (_write_empty_run IDENT_REQUEST st)).
  set (st1 := set_chan_out _ _).
  erewrite bind_Ok.
  2:{ apply (_read_header_envelope_in 2 IDENT_REPLY
               (runtime_id ++ version_bytes) rest st1);
        [exact Hrl | exact Hlen | reflexivity | exact Hin]. }
  set (st2 := set_read_length _ _).
  rewrite (bind_Ok _ _ st2 tt st2) by reflexivity.
  erewrite bind_Ok.
  2:{ apply (_read_chunk_prefix runtime_id (version_bytes ++ rest) 4 st2).
      - rewrite Hid. reflexivity.
      - subst st2. cbn [_read_length set_read_length]. rewrite length_app. lia.
      - subst st2. cbn [chan_in set_read_length set_read_type set_chan_in].
        rewrite <- app_assoc. reflexivity. }
  set (st3 := set_chan_in _ _).
  split.
  - intros Hne. rewrite bool_decide_eq_false_2 by exact Hne. reflexivity.
  - intros -> gateware_version Hdec.
    rewrite bool_decide_eq_true_2 by reflexivity. cbn [negb].
    rewrite (bind_Ok _ _ st3 (_read_length st3) st3) by reflexivity.
    assert (Hrem : _read_length st3 = Z.of_nat (List.length version_bytes)).
    { subst st3 st2. cbn [_read_length set_chan_in set_read_length].
      rewrite length_app, Hid. lia. }
    rewrite Hrem.
    erewrite bind_Ok.
    2:{ apply (_read_chunk_prefix version_bytes rest _ st3);
          [reflexivity | lia | reflexivity]. }
    set (st4 := set_chan_in _ _).
    rewrite (bind_Ok _ _ st4 gateware_version st4)
      by (unfold lift; rewrite Hdec; reflexivity).
    assert (Hrem4 : _read_length st4 = 0).
    { subst st4. cbn [_read_length set_chan_in set_read_length]. lia. }
    destruct (bool_decide (gateware_version = software_version));
      destruct (bool_decide (gateware_version +:+ ".dirty" = software_version));
      cbn [negb andb orb];
      (split; [reflexivity | split; [exact Hrem4 |]]);
      cbn; rewrite ?app_nil_r; reflexivity.
Qed.

(** C6, counterexample: on the reply of the identity scenario
    ("AROR" then "1.0"), [check_ident] returns [None], not the gateware
    version. *)
Lemma check_ident_returns_None :
  let reply := envelope 2 (AROR ++ [x31; x2e; x30]) in
  fst (check_ident "1.0" (init reply)) = Ok VNone /\
  fst (check_ident "1.0" (init reply)) <> Ok (VStr "1.0").
Proof. cbv zeta. split; [reflexivity | discriminate]. Qed.

Lemma check_ident_outcomes_witness :
  let run := check_ident "2.0"
               (init (envelope 2 (AROR ++ [x31; x2e; x30]) ++ [])) in
  fst (check_ident "2.0" (init (envelope 2 ([x41; x52; x54; x32] ++ []) ++ [])))
    = Raise (UnsupportedDevice [x41; x52; x54; x32]) /\
  fst run = Ok VNone /\
  _read_length (snd run) = 0 /\
  warnings (snd run) = [("1.0", "2.0")].
Proof.
  split.
  - apply (check_ident_outcomes "2.0" [x41; x52; x54; x32] [] []
             (init (envelope 2 ([x41; x52; x54; x32] ++ []) ++ [])));
      [vm_compute; discriminate | reflexivity | vm_compute; discriminate
      | reflexivity | discriminate].
  - cbv zeta.
    pose proof (check_ident_outcomes "2.0" AROR [x31; x2e; x30] []
                  (init (envelope 2 (AROR ++ [x31; x2e; x30]) ++ []))
                  ltac:(vm_compute; discriminate) eq_refl
                  ltac:(vm_compute; discriminate) eq_refl) as [_ H].
    exact (H eq_refl "1.0"%string eq_refl).
Defined.

(** ** The store of bytearrays under the codec *)

Lemma bind_Ok_inv {A B} (c : M A) (k : A -> M B) st b st' :
  bind c k st = (Ok b, st') ->
  exists a st1, c st = (Ok a, st1) /\ k a st1 = (Ok b, st').
Proof.
  unfold bind. destruct (c st) as [[a|e] st1]; [eauto | discriminate].
Qed.

Lemma frame_refl t st : frame t st st.
Proof. split; [lia | reflexivity]. Qed.

Lemma frame_trans t st1 st2 st3 :
  frame t st1 st2 -> frame t st2 st3 -> frame t st1 st3.
Proof.
  intros [L1 H1] [L2 H2]. split; [lia|].
  intros l Hl Hne. rewrite H2 by (lia || assumption). apply H1; assumption.
Qed.

Lemma preserved_refl st : preserved st st.
Proof. split; [lia | reflexivity]. Qed.

Lemma preserved_trans st1 st2 st3 :
  preserved st1 st2 -> preserved st2 st3 -> preserved st1 st3.
Proof.
  intros [L1 H1] [L2 H2]. split; [lia|].
  intros l Hl. rewrite H2 by lia. apply H1; assumption.
Qed.

Lemma preserved_frame t st st' : preserved st st' -> frame t st st'.
Proof. intros [L H]. split; [exact L | intros l Hl _; apply H; exact Hl]. Qed.

Lemma preserving_respects t {A} (c : M A) : preserving c -> respects t c.
Proof. intros H st. apply preserved_frame, H. Qed.

Lemma same_store_preserved st st' :
  bytearrays st' = bytearrays st -> preserved st st'.
Proof. intros E. unfold preserved. rewrite E. split; [lia | reflexivity]. Qed.

Lemma preserving_ret {A} (a : A) : preserving (ret a).
Proof. intros st. apply preserved_refl. Qed.

Lemma preserving_raise {A} (e : exn) : preserving (@raise A e).
Proof. intros st. apply preserved_refl. Qed.

Lemma preserving_lift {A} (r : result A) : preserving (lift r).
Proof. intros st. apply preserved_refl. Qed.

Lemma preserving_bind {A B} (c : M A) (k : A -> M B) :
  preserving c -> (forall a, preserving (k a)) -> preserving (bind c k).
Proof.
  intros Hc Hk st. unfold bind. specialize (Hc st).
  destruct (c st) as [[a|e] st1]; cbn [snd] in *; [|exact Hc].
  eapply preserved_trans; [exact Hc | apply Hk].
Qed.

Lemma respects_bind t {A B} (c : M A) (k : A -> M B) :
  respects t c -> (forall a, respects t (k a)) -> respects t (bind c k).
Proof.
  intros Hc Hk st. unfold bind. specialize (Hc st).
  destruct (c st) as [[a|e] st1]; cbn [snd] in *; [|exact Hc].
  eapply frame_trans; [exact Hc | apply Hk].
Qed.

Lemma respects_for_each t {A} (body : A -> M unit) (xs : list A) :
  (forall x, respects t (body x)) -> respects t (for_each body xs).
Proof.
  intros Hb. induction xs as [|x xs IH]; cbn [for_each].
  - apply preserving_respects, preserving_ret.
  - apply respects_bind; [apply Hb | intros _; exact IH].
Qed.

Lemma preserving_for_each {A} (body : A -> M unit) (xs : list A) :
  (forall x, preserving (body x)) -> preserving (for_each body xs).
Proof.
  intros Hb. induction xs as [|x xs IH]; cbn [for_each].
  - apply preserving_ret.
  - apply preserving_bind; [apply Hb | intros _; exact IH].
Qed.

Lemma preserving_append_chunk chunk : preserving (append_chunk chunk).
Proof. intros st. apply same_store_preserved. reflexivity. Qed.

Lemma preserving_write_int8 v : preserving (_write_int8 v).
Proof.
  apply preserving_bind; [apply preserving_lift|].
  intros a. apply preserving_append_chunk.
Qed.

Lemma preserving_write_int32 v : preserving (_write_int32 v).
Proof.
  apply preserving_bind; [apply preserving_lift|].
  intros a. apply preserving_append_chunk.
Qed.

Lemma preserving_write_int64 v : preserving (_write_int64 v).
Proof.
  apply preserving_bind; [apply preserving_lift|].
  intros a. apply preserving_append_chunk.
Qed.

Lemma preserving_write_bytes v : preserving (_write_bytes v).
Proof.
  apply preserving_bind; [apply preserving_write_int32|].
  intros a. apply preserving_append_chunk.
Qed.

Lemma preserving_write_string v : preserving (_write_string v).
Proof.
  apply preserving_bind; [apply preserving_lift|].
  intros a. apply preserving_write_bytes.
Qed.

Lemma respects_pop0 t : respects t (pop0 t).
Proof.
  intros st. unfold pop0.
  destruct (bytearrays st !!! t) as [|b rest]; [apply frame_refl|].
  unfold frame. cbn [snd bytearrays set_bytearrays]. split.
  - rewrite length_insert. lia.
  - intros l Hl Hne. rewrite !list_lookup_total_alt.
    rewrite list_lookup_insert_ne by congruence. reflexivity.
Qed.

Lemma preserving_copy (t : nat) {A} (body : nat -> M A) :
  (forall c, respects c (body c)) ->
  preserving (bind (bytearray_copy t) body).
Proof.
  intros Hb st. unfold bind, bytearray_copy, bytearray_new.
  set (st1 := set_bytearrays _ st).
  destruct (Hb (List.length (bytearrays st)) st1) as [L H].
  assert (L1 : List.length (bytearrays st1)
               = S (List.length (bytearrays st))).
  { subst st1. cbn [bytearrays set_bytearrays]. rewrite length_app.
    cbn. lia. }
  split; [lia|].
  intros l Hl. rewrite H by lia.
  subst st1. cbn [bytearrays set_bytearrays].
  rewrite !list_lookup_total_alt.
  rewrite lookup_app_l by exact Hl. reflexivity.
Qed.

Lemma respects_skip (fuel : nat) (t : nat) : respects t (_skip_rpc_value fuel t).
Proof.
  induction fuel as [|fuel IH]; cbn [_skip_rpc_value].
  - apply preserving_respects, preserving_raise.
  - apply respects_bind; [apply respects_pop0|]. intros tag.
    unfold int_eq_str. apply preserving_respects, preserving_ret.
Qed.

Ltac respects_step IH :=
  lazymatch goal with
  | |- respects _ (bind (pop0 _) _) =>
      apply respects_bind; [apply respects_pop0 | intros ?]
  | |- respects _ (bind (bytearray_copy _) _) =>
      apply preserving_respects, preserving_copy; intros ?
  | |- respects _ (bind _ _) => apply respects_bind; [| intros ?]
  | |- respects _ (for_each _ _) => apply respects_for_each; intros ?
  | |- respects _ (if ?c then _ else _) => destruct c
  | |- respects _ (let '(_, _) := ?p in _) => destruct p
  | |- respects _ (_send_rpc_value _ _ _ _ _) => apply IH
  | |- respects _ (_skip_rpc_value _ _) => apply respects_skip
  | |- respects _ (ret _) => apply preserving_respects, preserving_ret
  | |- respects _ (raise _) => apply preserving_respects, preserving_raise
  | |- respects _ (_write_int8 _) =>
      apply preserving_respects, preserving_write_int8
  | |- respects _ (_write_int32 _) =>
      apply preserving_respects, preserving_write_int32
  | |- respects _ (_write_int64 _) =>
      apply preserving_respects, preserving_write_int64
  | |- respects _ (_write_float64 _) =>
      apply preserving_respects, preserving_append_chunk
  | |- respects _ (_write_string _) =>
      apply preserving_respects, preserving_write_string
  end.

(** A send touches, of the bytearrays that exist, only the one it was
    given. *)
Lemma respects_send (fuel : nat) :
  forall t value root function,
    respects t (_send_rpc_value fuel t value root function).
Proof.
  induction fuel as [|fuel IH]; intros t value root function;
    cbn [_send_rpc_value].
  - apply preserving_respects, preserving_raise.
  - repeat respects_step IH.
Qed.

Lemma pop0_run (t : nat) (b : byte) (rest : list byte) (st : state) :
  bytearrays st !!! t = b :: rest ->
  pop0 t st =
    (Ok (Z_of_byte b), set_bytearrays (<[t := rest]> (bytearrays st)) st).
Proof. intros H. unfold pop0. rewrite H. reflexivity. Qed.

Lemma lookup_total_insert_store (t : nat) (content : list byte)
    (store : list (list byte)) :
  (t < List.length store)%nat -> <[t := content]> store !!! t = content.
Proof.
  intros H. rewrite list_lookup_total_alt, list_lookup_insert_eq by exact H.
  reflexivity.
Qed.

(** On a bytearray [_skip_rpc_value] pops one element and descends into
    nothing: no integer equals ["t"], ["l"] or ["r"]. *)
Lemma _skip_rpc_value_run (fuel : nat) (t : nat) (st : state) :
  _skip_rpc_value (S fuel) t st = bind (pop0 t) (fun _ => ret tt) st.
Proof.
  cbn [_skip_rpc_value]. unfold bind, int_eq_str.
  destruct (pop0 t st) as [[tag|e] st1]; reflexivity.
Qed.

Lemma _skip_rpc_value_Ok (fuel : nat) (t : nat) (st st' : state) :
  _skip_rpc_value fuel t st = (Ok tt, st') ->
  exists fuel' b rest,
    fuel = S fuel' /\ bytearrays st !!! t = b :: rest /\
    st' = set_bytearrays (<[t := rest]> (bytearrays st)) st.
Proof.
  destruct fuel as [|fuel]; [discriminate|].
  rewrite _skip_rpc_value_run. unfold bind, pop0.
  destruct (bytearrays st !!! t) as [|b rest]; [discriminate|].
  intros [= <-]. eauto 6.
Qed.

(** The tag that was popped is known: take the branch of the dispatch. *)
Ltac dispatch_tag :=
  repeat match goal with
         | |- context [chr_eq (Z_of_byte ?b) ?c] =>
             let v := eval vm_compute in (chr_eq (Z_of_byte b) c) in
             change (chr_eq (Z_of_byte b) c) with v
         end;
  cbv iota.

Ltac dispatch_tag_in H :=
  repeat match type of H with
         | context [chr_eq (Z_of_byte ?b) ?c] =>
             let v := eval vm_compute in (chr_eq (Z_of_byte b) c) in
             change (chr_eq (Z_of_byte b) c) with v in H
         end;
  cbv iota in H.

Lemma preserving_run {A} (c : M A) (st st' : state) (r : result A) :
  preserving c -> c st = (r, st') -> preserved st st'.
Proof. intros H E. specialize (H st). rewrite E in H. exact H. Qed.

(** C8.  When [_send_rpc_value] returns from sending a list of any number
    of elements against a tag stream ['l'] followed by [G], the tag stream
    of the caller holds what one [_skip_rpc_value] leaves of [G]: the
    elements were sent against copies, then the stream itself was skipped
    once. *)
Theorem send_list_skips_once (fuel : nat) (tags : nat) (elts : list pyval)
    (root function : pyval) (G : list byte) (st st' : state) :
  (tags < List.length (bytearrays st))%nat ->
  bytearrays st !!! tags = x6c :: G ->
  _send_rpc_value (S fuel) tags (VList elts) root function st = (Ok tt, st') ->
  forall (tags0 : nat) (st0 : state),
    (tags0 < List.length (bytearrays st0))%nat ->
    bytearrays st0 !!! tags0 = G ->
    exists st0',
      _skip_rpc_value fuel tags0 st0 = (Ok tt, st0') /\
      bytearrays st' !!! tags = bytearrays st0' !!! tags0.
Proof.
  intros Ht Htags Hsend tags0 st0 Ht0 Htags0.
  cbn [_send_rpc_value] in Hsend.
  rewrite (bind_Ok _ _ _ _ _ (pop0_run tags x6c G st Htags)) in Hsend.
  set (st1 := set_bytearrays _ st) in Hsend.
  dispatch_tag_in Hsend. cbn [as_list default from_option id] in Hsend.
  rewrite (bind_Ok _ _ st1 tt st1) in Hsend by reflexivity.
  apply bind_Ok_inv in Hsend as (? & st2 & Hlen & Hsend).
  apply bind_Ok_inv in Hsend as (? & st3 & Helts & Hskip).
  assert (H12 : preserved st1 st2).
  { eapply preserving_run; [apply preserving_write_int32 | exact Hlen]. }
  assert (H23 : preserved st2 st3).
  { eapply preserving_run; [|exact Helts].
    apply preserving_for_each. intros elt.
    apply preserving_copy. intros c. apply respects_send. }
  destruct (preserved_trans _ _ _ H12 H23) as [L13 H13].
  assert (Ht1 : (tags < List.length (bytearrays st1))%nat).
  { subst st1. cbn [bytearrays set_bytearrays]. rewrite length_insert.
    exact Ht. }
  assert (H3 : bytearrays st3 !!! tags = G).
  { rewrite H13 by exact Ht1. subst st1. cbn [bytearrays set_bytearrays].
    apply lookup_total_insert_store. exact Ht. }
  apply _skip_rpc_value_Ok in Hskip as (fuel' & b & rest & -> & HG & ->).
  rewrite H3 in HG. subst G.
  exists (set_bytearrays (<[tags0 := rest]> (bytearrays st0)) st0).
  split.
  - rewrite _skip_rpc_value_run.
    rewrite (bind_Ok _ _ _ _ _ (pop0_run tags0 b rest st0 Htags0)).
    reflexivity.
  - cbn [bytearrays set_bytearrays].
    rewrite !lookup_total_insert_store by lia. reflexivity.
Qed.

Lemma send_list_skips_once_witness :
  let st := set_bytearrays [[x6c; x74; x02; x69; x69; x6e]] (init []) in
  let st' := snd (_send_rpc_value 3 0
                    (VList [VTuple [VInt 1; VInt 2]; VTuple [VInt 3; VInt 4]])
                    VNone (VObject 7) st) in
  let st0 := set_bytearrays [[]; [x74; x02; x69; x69; x6e]] (init []) in
  exists st0',
    _skip_rpc_value 2 1 st0 = (Ok tt, st0') /\
    bytearrays st' !!! 0%nat = bytearrays st0' !!! 1%nat.
Proof.
  cbv zeta.
  apply (send_list_skips_once 2 0
           [VTuple [VInt 1; VInt 2]; VTuple [VInt 3; VInt 4]]
           VNone (VObject 7) [x74; x02; x69; x69; x6e]
           (set_bytearrays [[x6c; x74; x02; x69; x69; x6e]] (init []))).
  - cbn. lia.
  - reflexivity.
  - vm_compute. reflexivity.
  - cbn. lia.
  - reflexivity.
Defined.

Lemma preserving_copy_then (t : nat) {A B} (body : nat -> M A)
    (rest : nat -> A -> M B) :
  (forall c, respects c (body c)) ->
  (forall c a, preserving (rest c a)) ->
  preserving (bind (bytearray_copy t) (fun c => bind (body c) (rest c))).
Proof.
  intros Hb Hr st. unfold bind at 1. unfold bytearray_copy, bytearray_new.
  set (st1 := set_bytearrays _ st).
  set (c := List.length (bytearrays st)).
  assert (L1 : List.length (bytearrays st1) = S c).
  { subst st1 c. cbn [bytearrays set_bytearrays]. rewrite length_app.
    cbn. lia. }
  assert (H01 : forall l, (l < c)%nat ->
                          bytearrays st1 !!! l = bytearrays st !!! l).
  { intros l Hl. subst st1. cbn [bytearrays set_bytearrays].
    rewrite !list_lookup_total_alt, lookup_app_l by exact Hl. reflexivity. }
  unfold bind. pose proof (Hb c st1) as [L12 H12].
  destruct (body c st1) as [[a|e] st2]; cbn [snd] in *.
  - destruct (Hr c a st2) as [L23 H23]. split; [lia|].
    intros l Hl. rewrite H23, H12, H01 by lia. reflexivity.
  - split; [lia|]. intros l Hl. rewrite H12, H01 by lia. reflexivity.
Qed.

(** C1, what the driver does in general: when a range has been sent
    against a tag stream ['r'] followed by [G], the tag stream of the
    caller holds [G], all of the sub-grammar still ahead: only copies were
    advanced. *)
Lemma send_range_leaves_parent (fuel : nat) (tags : nat) (start stop step : Z)
    (root function : pyval) (G : list byte) (st st' : state) :
  (tags < List.length (bytearrays st))%nat ->
  bytearrays st !!! tags = x72 :: G ->
  _send_rpc_value (S fuel) tags (VRange start stop step) root function st
    = (Ok tt, st') ->
  bytearrays st' !!! tags = G.
Proof.
  intros Ht Htags Hsend.
  cbn [_send_rpc_value] in Hsend.
  rewrite (bind_Ok _ _ _ _ _ (pop0_run tags x72 G st Htags)) in Hsend.
  set (st1 := set_bytearrays _ st) in Hsend.
  dispatch_tag_in Hsend. cbn [as_range default from_option id] in Hsend.
  rewrite (bind_Ok _ _ st1 tt st1) in Hsend by reflexivity.
  assert (H : preserved st1 st').
  { eapply preserving_run; [|exact Hsend].
    apply preserving_copy_then; [intros c; apply respects_send|].
    intros _ _.
    apply preserving_copy_then; [intros c; apply respects_send|].
    intros _ _.
    apply preserving_copy_then; [intros c; apply respects_send|].
    intros _ _. apply preserving_ret. }
  destruct H as [_ H]. rewrite H.
  - subst st1. cbn [bytearrays set_bytearrays].
    apply lookup_total_insert_store. exact Ht.
  - subst st1. cbn [bytearrays set_bytearrays]. rewrite length_insert.
    exact Ht.
Qed.

(** C1, on the driver: the tags [b"rin"] with the value [range(1, 2, 1)],
    then the tags [b"t\x02rin"] with the value [(range(1, 2, 1), None)].
    Sending the range leaves the stream of the caller at ["in"], right
    after ['r']; the copy that was advanced stands at ["n"].  In the tuple
    the element [None] is therefore checked against ['i'] and refused,
    where the tag stream has ['n'] for it. *)
Theorem send_range_keeps_parent_stream :
  let range_alone :=
    _send_rpc_value 2 0 (VRange 1 2 1) (VRange 1 2 1) (VObject 7)
      (set_bytearrays [[x72; x69; x6e]] (init [])) in
  let in_tuple :=
    _send_rpc_value 3 0 (VTuple [VRange 1 2 1; VNone])
      (VTuple [VRange 1 2 1; VNone]) (VObject 7)
      (set_bytearrays [[x74; x02; x72; x69; x6e]] (init [])) in
  fst range_alone = Ok tt /\
  bytearrays (snd range_alone) !!! 0%nat = [x69; x6e] /\
  bytearrays (snd range_alone) !!! 3%nat = [x6e] /\
  fst in_tuple =
    Raise (RPCReturnValueError VNone shape_int32 (VObject 7)
             (VTuple [VRange 1 2 1; VNone])).
Proof. vm_compute. repeat split. Qed.

(** C5, what the driver does in general: an integer is accepted against
    ['i'] exactly in the open interval from [-2^31] to [2^31 - 1]. *)
Lemma send_int32_domain (fuel : nat) (tags : nat) (v : Z)
    (root function : pyval) (rest : list byte) (st : state) :
  bytearrays st !!! tags = x69 :: rest ->
  let run := _send_rpc_value (S fuel) tags (VInt v) root function st in
  (fst run = Ok tt <-> - 2 ^ 31 < v < 2 ^ 31 - 1) /\
  (- 2 ^ 31 < v < 2 ^ 31 - 1 ->
   _write_buffer (snd run) = _write_buffer st ++ [be_encode 4 v]) /\
  (~ (- 2 ^ 31 < v < 2 ^ 31 - 1) ->
   fst run = Raise (RPCReturnValueError (VInt v) shape_int32 function root) /\
   _write_buffer (snd run) = _write_buffer st).
Proof.
  intros Htags run. subst run.
  cbn [_send_rpc_value].
  rewrite (bind_Ok _ _ _ _ _ (pop0_run tags x69 rest st Htags)).
  set (st1 := set_bytearrays _ st).
  dispatch_tag. cbn [as_int default from_option id].
  destruct (Z.ltb_spec (- 2 ^ 31) v) as [Hlo|Hlo];
    destruct (Z.ltb_spec v (2 ^ 31 - 1)) as [Hhi|Hhi]; cbn [andb].
  2-4: (rewrite (bind_Raise _ _ st1
                   (RPCReturnValueError (VInt v) shape_int32 function root)
                   st1) by reflexivity;
        cbn [fst snd]; repeat split; try (intros; lia); discriminate).
  rewrite (bind_Ok _ _ st1 tt st1) by reflexivity.
  unfold _write_int32, pack_l.
  replace ((- 2 ^ 31 <=? v) && (v <=? 2 ^ 31 - 1)) with true
    by (symmetry; apply andb_true_iff; split; apply Z.leb_le; lia).
  rewrite (bind_Ok _ _ st1 (be_encode 4 v) st1) by reflexivity.
  cbn [fst snd append_chunk modify]. repeat split; intros; try lia.
Qed.

(** C5, on the driver: the integers [2^31 - 1] and [-2^31] lie in the
    signed 32-bit range, [struct.pack(">l", ...)] encodes both and a
    received ['i'] can hold both, yet [_send_rpc_value] refuses them
    against the tag ['i'] with the return-value type error.  The value next
    to each is accepted. *)
Theorem send_int32_refuses_extremes :
  let send v :=
    fst (_send_rpc_value 1 0 (VInt v) (VInt v) (VObject 7)
           (set_bytearrays [[x69]] (init []))) in
  send (2 ^ 31 - 1) =
    Raise (RPCReturnValueError (VInt (2 ^ 31 - 1)) shape_int32 (VObject 7)
             (VInt (2 ^ 31 - 1))) /\
  send (- 2 ^ 31) =
    Raise (RPCReturnValueError (VInt (- 2 ^ 31)) shape_int32 (VObject 7)
             (VInt (- 2 ^ 31))) /\
  send (2 ^ 31 - 2) = Ok tt /\
  send (- 2 ^ 31 + 1) = Ok tt /\
  pack_l (2 ^ 31 - 1) = Ok [x7f; xff; xff; xff] /\
  pack_l (- 2 ^ 31) = Ok [x80; x00; x00; x00] /\
  wrapping_int (2 ^ 31 - 1) 32 = VWrapInt (2 ^ 31 - 1) 32 /\
  wrapping_int (- 2 ^ 31) 32 = VWrapInt (- 2 ^ 31) 32.
Proof. vm_compute. repeat split. Qed.

(** ** Argument collation *)

Lemma collate_lookup (values : list pyval) :
  forall (kwargs : gmap string pyval) (name : string),
    collate values kwargs !! name =
      match last_keyword name values with
      | Some v => Some v
      | None => kwargs !! name
      end.
Proof.
  induction values as [|value values IH]; intros kwargs name; [reflexivity|].
  cbn [collate fold_left last_keyword]. fold (collate values).
  rewrite IH. destruct (last_keyword name values) as [v|]; [reflexivity|].
  destruct value; try reflexivity.
  destruct (decide (name0 = name)) as [->|Hne].
  - apply lookup_insert_eq.
  - apply lookup_insert_ne. exact Hne.
Qed.

Lemma receive_rpc_args_loop_run builtin_range fuel embedding_map
    (st : state) (values : list pyval) (st1 : state) :
  receives builtin_range fuel embedding_map st values st1 ->
  forall st2 turns args kwargs,
    _receive_rpc_value builtin_range fuel embedding_map st1
      = (Ok VSentinel, st2) ->
    (List.length values < turns)%nat ->
    receive_rpc_args_loop builtin_range turns fuel embedding_map args kwargs st
      = (Ok (args ++ positional_args values, collate values kwargs), st2).
Proof.
  induction 1 as [st|st value st1 values st' Hv Hns Hrest IH];
    intros st2 turns args kwargs Hend Hturns.
  - destruct turns as [|turns]; [cbn in Hturns; lia|].
    cbn [receive_rpc_args_loop]. rewrite (bind_Ok _ _ _ _ _ Hend).
    cbn [positional_args List.filter collate fold_left].
    rewrite app_nil_r. reflexivity.
  - destruct turns as [|turns]; [cbn in Hturns; lia|].
    cbn [List.length] in Hturns.
    cbn [receive_rpc_args_loop]. rewrite (bind_Ok _ _ _ _ _ Hv).
    destruct value; try contradiction;
      (rewrite (IH st2 turns _ _ Hend ltac:(lia));
       cbn [positional_args List.filter is_keyword negb collate fold_left];
       rewrite <- ?app_assoc; reflexivity).
Qed.

(** C9.  When the device sends a sequence of values, positional ones and
    keyword ones mixed, and then the sentinel, [_receive_rpc_args] returns
    the positional values in the order they came and a mapping from each
    keyword name to the value of its last occurrence. *)
Theorem receive_rpc_args_collates builtin_range fuel embedding_map
    (st : state) (values : list pyval) (st1 st2 : state) :
  receives builtin_range fuel embedding_map st values st1 ->
  _receive_rpc_value builtin_range fuel embedding_map st1
    = (Ok VSentinel, st2) ->
  exists kwargs,
    _receive_rpc_args builtin_range (S (List.length values)) fuel
                      embedding_map st
      = (Ok (positional_args values, kwargs), st2) /\
    forall name, kwargs !! name = last_keyword name values.
Proof.
  intros Hvalues Hend. exists (collate values ∅). split.
  - unfold _receive_rpc_args.
    rewrite (receive_rpc_args_loop_run _ _ _ _ _ _ Hvalues st2 _ [] ∅ Hend)
      by lia.
    reflexivity.
  - intros name. rewrite collate_lookup, lookup_empty.
    destruct (last_keyword name values); reflexivity.
Qed.

Lemma receive_rpc_args_collates_witness :
  (* k "a" i(1), i(3), k "a" i(9), sentinel *)
  let st := request [x6b; x00; x00; x00; x02; x61; x00; x69; x00; x00; x00; x01;
                     x69; x00; x00; x00; x03;
                     x6b; x00; x00; x00; x02; x61; x00; x69; x00; x00; x00; x09;
                     x00] in
  exists kwargs,
    _receive_rpc_args example_range 4 2 example_embedding_map st
      = (Ok (positional_args [VKeyword "a" (VWrapInt 1 32); VWrapInt 3 32;
                              VKeyword "a" (VWrapInt 9 32)], kwargs),
         set_read_type None (set_chan_in [] (set_read_length 0 st))) /\
    forall name,
      kwargs !! name =
        last_keyword name [VKeyword "a" (VWrapInt 1 32); VWrapInt 3 32;
                           VKeyword "a" (VWrapInt 9 32)].
Proof.
  cbv zeta.
  eapply (receive_rpc_args_collates example_range 2 example_embedding_map
            _ [VKeyword "a" (VWrapInt 1 32); VWrapInt 3 32;
               VKeyword "a" (VWrapInt 9 32)]).
  - eapply receives_cons; [vm_compute; reflexivity | discriminate |].
    eapply receives_cons; [vm_compute; reflexivity | discriminate |].
    eapply receives_cons; [vm_compute; reflexivity | discriminate |].
    apply receives_nil.
  - vm_compute. reflexivity.
Defined.

(** ** Reading writes nothing *)

Lemma silent_ret {A} (a : A) : silent (ret a).
Proof. intros st. repeat split. Qed.

Lemma silent_raise {A} (e : exn) : silent (@raise A e).
Proof. intros st. repeat split. Qed.

Lemma silent_lift {A} (r : result A) : silent (lift r).
Proof. intros st. repeat split. Qed.

Lemma silent_gets {A} (f : state -> A) : silent (gets f).
Proof. intros st. repeat split. Qed.

Lemma silent_bind {A B} (c : M A) (k : A -> M B) :
  silent c -> (forall a, silent (k a)) -> silent (bind c k).
Proof.
  intros Hc Hk st. unfold bind. specialize (Hc st).
  destruct (c st) as [[a|e] st1]; cbn [snd] in *; [|exact Hc].
  destruct Hc as (H1 & H2 & H3). destruct (Hk a st1) as (K1 & K2 & K3).
  repeat split; congruence.
Qed.

Lemma silent_collect {A B} (body : A -> M B) (xs : list A) :
  (forall x, silent (body x)) -> silent (collect body xs).
Proof.
  intros Hb. induction xs as [|x xs IH]; cbn [collect].
  - apply silent_ret.
  - apply silent_bind; [apply Hb | intros y].
    apply silent_bind; [exact IH | intros ys; apply silent_ret].
Qed.

Lemma silent_read n : silent (read n).
Proof.
  intros st. unfold read. destruct (_ && _); repeat split.
Qed.

Lemma silent_read_chunk n : silent (_read_chunk n).
Proof.
  unfold _read_chunk. apply silent_bind; [apply silent_gets | intros r].
  destruct (r <? n).
  - apply silent_bind; [apply silent_gets | intros ty; apply silent_raise].
  - apply silent_bind; [intros st; repeat split | intros _; apply silent_read].
Qed.

Lemma silent_read_int8 : silent _read_int8.
Proof.
  apply silent_bind; [apply silent_read_chunk | intros; apply silent_lift].
Qed.

Lemma silent_read_int32 : silent _read_int32.
Proof.
  apply silent_bind; [apply silent_read_chunk | intros; apply silent_lift].
Qed.

Lemma silent_read_int64 : silent _read_int64.
Proof.
  apply silent_bind; [apply silent_read_chunk | intros; apply silent_lift].
Qed.

Lemma silent_read_float64 : silent _read_float64.
Proof.
  apply silent_bind; [apply silent_read_chunk | intros data].
  destruct (decide _); [apply silent_ret | apply silent_raise].
Qed.

Lemma silent_read_bytes : silent _read_bytes.
Proof.
  apply silent_bind; [apply silent_read_int32 | intros; apply silent_read_chunk].
Qed.

Lemma silent_read_string : silent _read_string.
Proof.
  apply silent_bind; [apply silent_read_bytes | intros; apply silent_lift].
Qed.

Ltac silent_step IH :=
  lazymatch goal with
  | |- silent (bind _ _) => apply silent_bind; [| intros ?]
  | |- silent (collect _ _) => apply silent_collect; intros ?
  | |- silent (if ?c then _ else _) => destruct c
  | |- silent (_receive_rpc_value _ _ _) => apply IH
  | |- silent (ret _) => apply silent_ret
  | |- silent (raise _) => apply silent_raise
  | |- silent (lift _) => apply silent_lift
  | |- silent _read_int8 => apply silent_read_int8
  | |- silent _read_int32 => apply silent_read_int32
  | |- silent _read_int64 => apply silent_read_int64
  | |- silent _read_float64 => apply silent_read_float64
  | |- silent _read_string => apply silent_read_string
  end.

Lemma silent_receive_rpc_value builtin_range (fuel : nat) embedding_map :
  silent (_receive_rpc_value builtin_range fuel embedding_map).
Proof.
  induction fuel as [|fuel IH]; cbn [_receive_rpc_value].
  - apply silent_raise.
  - repeat silent_step IH.
Qed.

Lemma silent_receive_rpc_args_loop builtin_range (turns fuel : nat)
    embedding_map :
  forall args kwargs,
    silent (receive_rpc_args_loop builtin_range turns fuel embedding_map
                                  args kwargs).
Proof.
  induction turns as [|turns IH]; intros args kwargs;
    cbn [receive_rpc_args_loop].
  - apply silent_raise.
  - apply silent_bind; [apply silent_receive_rpc_value | intros value].
    destruct value; try apply IH. apply silent_ret.
Qed.

Lemma silent_run {A} (c : M A) (st st' : state) (r : result A) :
  silent c -> c st = (r, st') ->
  chan_out st' = chan_out st /\ _write_buffer st' = _write_buffer st /\
  _write_type st' = _write_type st.
Proof. intros H E. specialize (H st). rewrite E in H. exact H. Qed.

(** ** Building a message *)

Lemma builds_ret {A} (a : A) : builds (ret a).
Proof. intros st. repeat split. Qed.

Lemma builds_raise {A} (e : exn) : builds (@raise A e).
Proof. intros st. repeat split. Qed.

Lemma builds_lift {A} (r : result A) : builds (lift r).
Proof. intros st. repeat split. Qed.

Lemma builds_bind {A B} (c : M A) (k : A -> M B) :
  builds c -> (forall a, builds (k a)) -> builds (bind c k).
Proof.
  intros Hc Hk st. unfold bind. specialize (Hc st).
  destruct (c st) as [[a|e] st1]; cbn [snd] in *; [|exact Hc].
  destruct Hc as (H1 & H2). destruct (Hk a st1) as (K1 & K2).
  split; congruence.
Qed.

Lemma builds_for_each {A} (body : A -> M unit) (xs : list A) :
  (forall x, builds (body x)) -> builds (for_each body xs).
Proof.
  intros Hb. induction xs as [|x xs IH]; cbn [for_each].
  - apply builds_ret.
  - apply builds_bind; [apply Hb | intros _; exact IH].
Qed.

Lemma builds_append_chunk chunk : builds (append_chunk chunk).
Proof. intros st. repeat split. Qed.

Lemma builds_write_int32 v : builds (_write_int32 v).
Proof.
  apply builds_bind; [apply builds_lift | intros; apply builds_append_chunk].
Qed.

Lemma builds_write_int64 v : builds (_write_int64 v).
Proof.
  apply builds_bind; [apply builds_lift | intros; apply builds_append_chunk].
Qed.

Lemma builds_write_string s : builds (_write_string s).
Proof.
  apply builds_bind; [apply builds_lift | intros data].
  apply builds_bind; [apply builds_write_int32 |].
  intros; apply builds_append_chunk.
Qed.

Ltac builds_step :=
  lazymatch goal with
  | |- builds (bind _ _) => apply builds_bind; [| intros ?]
  | |- builds (for_each _ _) => apply builds_for_each; intros ?
  | |- builds (if ?c then _ else _) => destruct c
  | |- builds (match ?x with _ => _ end) => destruct x
  | |- builds (ret _) => apply builds_ret
  | |- builds (raise _) => apply builds_raise
  | |- builds (lift _) => apply builds_lift
  | |- builds (_write_int32 _) => apply builds_write_int32
  | |- builds (_write_int64 _) => apply builds_write_int64
  | |- builds (_write_string _) => apply builds_write_string
  end.

Lemma _write_flush_Ok_inv (st st' : state) (ty : _H2DMsgType) :
  _write_type st = Some ty ->
  _write_flush st = (Ok tt, st') ->
  chan_out st' =
    chan_out st ++ envelope (H2D_value ty) (concat (_write_buffer st)).
Proof.
  intros Hty. unfold _write_flush, bind, gets. rewrite Hty.
  rewrite buffer_length_concat.
  set (length := 9 + Z.of_nat (List.length (concat (_write_buffer st)))).
  destruct (Z_le_gt_dec length (2 ^ 31 - 1)) as [Hle|Hgt].
  - rewrite pack_llB_header by lia.
    unfold lift, write, modify. rewrite for_each_write.
    intros [= <-]. cbn [chan_out set_chan_out]. unfold envelope.
    fold length. rewrite <- !app_assoc. reflexivity.
  - rewrite pack_llB_overflow by lia. discriminate.
Qed.

(** Whenever the handler completes, it has written one envelope, of type
    [RPC_EXCEPTION]. *)
Lemma rpc_exception_handler_Ok introspect embedding_map (e : exn)
    (st st' : state) :
  rpc_exception_handler introspect embedding_map e st = (Ok tt, st') ->
  exists body, chan_out st' = chan_out st ++ envelope 8 body.
Proof.
  unfold rpc_exception_handler. intros H.
  apply bind_Ok_inv in H as ([] & sth & Hh & H).
  apply bind_Ok_inv in H as ([] & stm & Hm & Hf).
  assert (Ehd : sth = set_write_buffer []
                        (set_write_type (Some RPC_EXCEPTION)
                           (set_chan_open true st))).
  { unfold _write_header, open, bind, modify in Hh. congruence. }
  match type of Hm with
  | ?c sth = _ => assert (Hb : builds c) by (repeat builds_step)
  end.
  specialize (Hb sth). rewrite Hm in Hb. cbn [snd] in Hb.
  destruct Hb as [Hout Hty]. subst sth.
  cbn [chan_out _write_type set_write_buffer set_write_type set_chan_open]
    in Hout, Hty.
  exists (concat (_write_buffer stm)).
  rewrite (_write_flush_Ok_inv stm st' RPC_EXCEPTION Hty Hf), Hout.
  reflexivity.
Qed.

Lemma appends_seq (c1 c2 : M unit) (ch1 ch2 : list (list byte)) :
  appends c1 ch1 -> appends c2 ch2 -> appends (c1 >> c2) (ch1 ++ ch2).
Proof.
  intros H1 H2 st. rewrite (bind_Ok _ _ _ _ _ (H1 st)). rewrite H2.
  cbn [_write_buffer set_write_buffer]. rewrite <- app_assoc. reflexivity.
Qed.

Lemma appends_write_int32 (v : Z) :
  - 2 ^ 31 <= v <= 2 ^ 31 - 1 -> appends (_write_int32 v) [be_encode 4 v].
Proof.
  intros H st. unfold _write_int32, pack_l.
  replace ((- 2 ^ 31 <=? v) && (v <=? 2 ^ 31 - 1)) with true
    by (symmetry; apply andb_true_iff; split; apply Z.leb_le; lia).
  reflexivity.
Qed.

Lemma appends_write_int64_0 : appends (_write_int64 0) [be_encode 8 0].
Proof. intros st. reflexivity. Qed.

Lemma appends_write_string (s : string) :
  encodable s = true ->
  Z.of_nat (List.length (wire_string s)) <= 2 ^ 31 - 1 ->
  appends (_write_string s)
          [be_encode 4 (Z.of_nat (List.length (encode_utf8 s ++ [x00])));
           encode_utf8 s ++ [x00]].
Proof.
  intros Henc H. unfold _write_string, str_encode. rewrite Henc.
  intros st. rewrite (bind_Ok _ _ st (encode_utf8 s) st) by reflexivity.
  revert st. unfold _write_bytes.
  apply (appends_seq _ _ [_] [_]).
  - apply appends_write_int32. unfold wire_string in H.
    rewrite length_app, be_encode_length in H. lia.
  - intros st. reflexivity.
Qed.

(** The handler on a plain host exception: its class is a builtin one or
    can be stored, it has a traceback, and the message fits the length
    field.  The message written is the one of the exception bridge. *)
Lemma rpc_exception_handler_plain introspect embedding_map (h : host_exn)
    (name : string) (frame : frame_summary) (st : state) :
  artiq_core_exception h = None ->
  exception_name embedding_map h = Ok name ->
  last (take 2 (exn_traceback h)) = Some frame ->
  encodable name = true ->
  encodable (exn_str h) = true ->
  encodable (tb_filename frame) = true ->
  encodable (tb_function frame) = true ->
  - 2 ^ 31 <= tb_line frame <= 2 ^ 31 - 1 ->
  let body := rpc_exception_body name (exn_str h) (tb_filename frame)
                                 (tb_line frame) (-1) (tb_function frame) in
  9 + Z.of_nat (List.length body) <= 2 ^ 31 - 1 ->
  exists st',
    rpc_exception_handler introspect embedding_map (HostException h) st
      = (Ok tt, st') /\
    chan_out st' = chan_out st ++ envelope 8 body.
Proof.
  intros Hcore Hname Hlast Hen Hes Hef Heu Hline body Hlen.
  unfold rpc_exception_handler. cbn [observe]. rewrite Hcore.
  set (sth := set_write_buffer []
                (set_write_type (Some RPC_EXCEPTION) (set_chan_open true st))).
  rewrite (bind_Ok _ _ st tt sth) by reflexivity.
  subst body. unfold rpc_exception_body in Hlen.
  rewrite !length_app, !be_encode_length in Hlen.
  match goal with
  | |- context [bind ?c (fun _ => _write_flush)] =>
      assert (Hmid : appends c
                ([be_encode 4 (Z.of_nat (List.length (encode_utf8 name ++ [x00])));
                  encode_utf8 name ++ [x00]]
                 ++ [be_encode 4 (Z.of_nat (List.length
                                     (encode_utf8 (exn_str h) ++ [x00])));
                     encode_utf8 (exn_str h) ++ [x00]]
                 ++ ([be_encode 8 0] ++ [be_encode 8 0] ++ [be_encode 8 0] ++ [])
                 ++ [be_encode 4 (Z.of_nat (List.length
                                     (encode_utf8 (tb_filename frame) ++ [x00])));
                     encode_utf8 (tb_filename frame) ++ [x00]]
                 ++ [be_encode 4 (tb_line frame)]
                 ++ [be_encode 4 (-1)]
                 ++ [be_encode 4 (Z.of_nat (List.length
                                     (encode_utf8 (tb_function frame) ++ [x00])));
                     encode_utf8 (tb_function frame) ++ [x00]]))
  end.
  { apply appends_seq.
    - unfold exception_name in Hname.
      destruct (_ || _).
      + injection Hname as <-. apply appends_write_string; [assumption | lia].
      + destruct (store_object embedding_map (exn_type h)) as [exn_id|];
          [|discriminate].
        injection Hname as <-. intros st0.
        rewrite (bind_Ok _ _ st0 exn_id st0) by reflexivity.
        apply appends_write_string; [assumption | lia].
    - apply appends_seq; [apply appends_write_string; [assumption | lia]|].
      apply appends_seq.
      { change (range_list 3) with [0; 1; 2]. cbn [for_each].
        apply appends_seq; [apply appends_write_int64_0|].
        apply appends_seq; [apply appends_write_int64_0|].
        apply appends_seq; [apply appends_write_int64_0|].
        intros st0. cbn [ret]. rewrite app_nil_r. destruct st0; reflexivity. }
      assert (Hframe : appends
                (_write_string (tb_filename frame) >>
                 _write_int32 (tb_line frame) >>
                 _write_int32 (-1) >>
                 _write_string (tb_function frame))
                ([be_encode 4 (Z.of_nat (List.length
                                 (encode_utf8 (tb_filename frame) ++ [x00])));
                  encode_utf8 (tb_filename frame) ++ [x00]]
                 ++ [be_encode 4 (tb_line frame)]
                 ++ [be_encode 4 (-1)]
                 ++ [be_encode 4 (Z.of_nat (List.length
                                     (encode_utf8 (tb_function frame) ++ [x00])));
                     encode_utf8 (tb_function frame) ++ [x00]])).
      { apply appends_seq; [apply appends_write_string; [assumption | lia]|].
        apply appends_seq; [apply appends_write_int32; lia|].
        apply appends_seq; [apply appends_write_int32; lia|].
        apply appends_write_string; [assumption | lia]. }
      destruct (exn_traceback h) as [|f1 [|f2 tl]]; cbn [take] in *.
      + discriminate.
      + injection Hlast as <-. exact Hframe.
      + cbn in Hlast. injection Hlast as <-. exact Hframe. }
  rewrite (bind_Ok _ _ _ _ _ (Hmid sth)).
  eexists. split.
  - apply (_write_flush_run _ RPC_EXCEPTION); [reflexivity|].
    cbn [_write_buffer set_write_buffer sth app concat].
    rewrite !length_app, !be_encode_length, ?length_nil. cbn [List.length].
    unfold wire_string in Hlen. rewrite !length_app, !be_encode_length in Hlen.
    cbn [List.length] in *. lia.
  - cbn [chan_out set_chan_out set_write_buffer sth set_write_type
         set_chan_open _write_buffer app concat].
    unfold rpc_exception_body, wire_string.
    rewrite <- !app_assoc. cbn [app]. rewrite ?app_nil_r. reflexivity.
Qed.

Lemma bind_Raise_inv {A B} (c : M A) (k : A -> M B) st e st' :
  bind c k st = (Raise e, st') ->
  c st = (Raise e, st') \/
  exists a st1, c st = (Ok a, st1) /\ k a st1 = (Raise e, st').
Proof.
  unfold bind. destruct (c st) as [[a|x] st1]; [eauto | intros [= <- <-]; eauto].
Qed.

Lemma _write_flush_Raise (st st' : state) (e : exn) :
  _write_flush st = (Raise e, st') -> st' = st.
Proof.
  unfold _write_flush, bind, gets, raise, lift.
  destruct (_write_type st) as [ty|]; [|congruence].
  destruct (pack_llB _ _ _) as [header|x]; [|congruence].
  unfold write at 1, modify. rewrite for_each_write. discriminate.
Qed.





(* ================================================================= *)
(** * Further properties of the driver *)

(** ** The primitive codec *)

Lemma unpack_pack_q (v : Z) (data : list byte) :
  pack_q v = Ok data -> unpack_q data = Ok v.
Proof.
  unfold pack_q, unpack_q. intros H.
  destruct (andb _ _) eqn:E; [|discriminate].
  assert (data = be_encode 8 v) as -> by congruence. clear H.
  rewrite be_encode_length.
  destruct (decide (8%nat = 8%nat)); [|congruence].
  rewrite be_decode_encode. f_equal.
  apply andb_true_iff in E as [E1 E2].
  apply Z.leb_le in E1, E2.
  apply to_signed_wrap; [lia|]. change (8 * Z.of_nat 8 - 1) with 63. lia.
Qed.

Lemma unpack_pack_B (v : Z) (data : list byte) :
  pack_B v = Ok data -> unpack_B data = Ok v.
Proof.
  unfold pack_B, unpack_B. intros H.
  destruct (andb _ _) eqn:E; [|discriminate].
  apply andb_true_iff in E as [E1 E2]. apply Z.leb_le in E1, E2.
  injection H as <-. rewrite Z_of_byte_of_Z, Z.mod_small by lia.
  reflexivity.
Qed.

Lemma pack_l_in_range v :
  - 2 ^ 31 <= v <= 2 ^ 31 - 1 -> pack_l v = Ok (be_encode 4 v).
Proof.
  intros H. unfold pack_l.
  replace ((- 2 ^ 31 <=? v) && (v <=? 2 ^ 31 - 1)) with true
    by (symmetry; apply andb_true_iff; split; apply Z.leb_le; lia).
  reflexivity.
Qed.

Lemma pack_q_in_range v :
  - 2 ^ 63 <= v <= 2 ^ 63 - 1 -> pack_q v = Ok (be_encode 8 v).
Proof.
  intros H. unfold pack_q.
  replace ((- 2 ^ 63 <=? v) && (v <=? 2 ^ 63 - 1)) with true
    by (symmetry; apply andb_true_iff; split; apply Z.leb_le; lia).
  reflexivity.
Qed.

Lemma pack_B_in_range v : 0 <= v <= 255 -> pack_B v = Ok [byte_of_Z v].
Proof.
  intros H. unfold pack_B.
  replace ((0 <=? v) && (v <=? 255)) with true
    by (symmetry; apply andb_true_iff; split; apply Z.leb_le; lia).
  reflexivity.
Qed.

(** What one of the fixed-width writers appended is read back by the
    reader of the same width. *)
Lemma read_back_packed {A} (unpack : list byte -> result A) (n : Z)
    (data rest : list byte) (a : A) (reader : state) :
  Z.of_nat (List.length data) = n -> unpack data = Ok a ->
  n <= _read_length reader -> chan_in reader = data ++ rest ->
  (let! data := _read_chunk n in lift (unpack data)) reader
    = (Ok a,
       set_chan_in rest (set_read_length (_read_length reader - n) reader)).
Proof.
  intros Hn Hu Hrl Hin.
  rewrite (bind_Ok _ _ _ _ _
             (_read_chunk_prefix data rest n reader (eq_sym Hn) Hrl Hin)).
  unfold lift. rewrite Hu. reflexivity.
Qed.

(** X1.  An integer of the range of its format, written with [_write_int8],
    [_write_int32] or [_write_int64], is appended as one chunk: its 1, 4 or
    8 bytes, big-endian, two's complement; [_read_int8], [_read_int32] or
    [_read_int64] on these bytes gives the integer back and takes just these
    bytes off the message. *)
Theorem integers_round_trip (writer reader : state) (rest : list byte)
    (v : Z) :
  (0 <= v <= 255 ->
   _write_int8 v writer
     = (Ok tt, set_write_buffer (_write_buffer writer ++ [[byte_of_Z v]])
                                writer) /\
   (1 <= _read_length reader -> chan_in reader = [byte_of_Z v] ++ rest ->
    _read_int8 reader
      = (Ok v, set_chan_in rest
                 (set_read_length (_read_length reader - 1) reader))))
  /\
  (- 2 ^ 31 <= v <= 2 ^ 31 - 1 ->
   _write_int32 v writer
     = (Ok tt, set_write_buffer (_write_buffer writer ++ [be_encode 4 v])
                                writer) /\
   (4 <= _read_length reader -> chan_in reader = be_encode 4 v ++ rest ->
    _read_int32 reader
      = (Ok v, set_chan_in rest
                 (set_read_length (_read_length reader - 4) reader))))
  /\
  (- 2 ^ 63 <= v <= 2 ^ 63 - 1 ->
   _write_int64 v writer
     = (Ok tt, set_write_buffer (_write_buffer writer ++ [be_encode 8 v])
                                writer) /\
   (8 <= _read_length reader -> chan_in reader = be_encode 8 v ++ rest ->
    _read_int64 reader
      = (Ok v, set_chan_in rest
                 (set_read_length (_read_length reader - 8) reader)))).
Proof.
  split; [|split].
  - intros Hv. split.
    + unfold _write_int8. rewrite pack_B_in_range by exact Hv. reflexivity.
    + intros Hrl Hin.
      apply (read_back_packed unpack_B 1 [byte_of_Z v]);
        [reflexivity | | exact Hrl | exact Hin].
      apply (unpack_pack_B v), pack_B_in_range, Hv.
  - intros Hv. split.
    + unfold _write_int32. rewrite pack_l_in_range by exact Hv. reflexivity.
    + intros Hrl Hin.
      apply (read_back_packed unpack_l 4 (be_encode 4 v));
        [rewrite be_encode_length; reflexivity | | exact Hrl | exact Hin].
      apply (unpack_pack_l v), pack_l_in_range, Hv.
  - intros Hv. split.
    + unfold _write_int64. rewrite pack_q_in_range by exact Hv. reflexivity.
    + intros Hrl Hin.
      apply (read_back_packed unpack_q 8 (be_encode 8 v));
        [rewrite be_encode_length; reflexivity | | exact Hrl | exact Hin].
      apply (unpack_pack_q v), pack_q_in_range, Hv.
Qed.

Lemma integers_round_trip_witness :
  (* -5 as a 32-bit integer, with one more byte behind it *)
  let reader := request [xff; xff; xff; xfb; x01] in
  _write_int32 (-5) (init [])
    = (Ok tt, set_write_buffer [[xff; xff; xff; xfb]] (init [])) /\
  _read_int32 reader
    = (Ok (-5), set_chan_in [x01] (set_read_length 1 reader)).
Proof.
  intros reader.
  destruct (proj1 (proj2 (integers_round_trip (init []) reader [x01] (-5))))
    as [Hw Hr].
  - lia.
  - split; [exact Hw | apply Hr; [vm_compute; discriminate | reflexivity]].
Defined.

Lemma appends_write_bytes (value : list byte) :
  Z.of_nat (List.length value) <= 2 ^ 31 - 1 ->
  appends (_write_bytes value)
          [be_encode 4 (Z.of_nat (List.length value)); value].
Proof.
  intros H. unfold _write_bytes.
  apply (appends_seq _ _ [_] [_]).
  - apply appends_write_int32. lia.
  - intros st. reflexivity.
Qed.

Lemma _read_bytes_run (value rest : list byte) (reader : state) :
  Z.of_nat (List.length value) <= 2 ^ 31 - 1 ->
  4 + Z.of_nat (List.length value) <= _read_length reader ->
  chan_in reader
    = be_encode 4 (Z.of_nat (List.length value)) ++ value ++ rest ->
  _read_bytes reader
    = (Ok value,
       set_chan_in rest
         (set_read_length
            (_read_length reader - 4 - Z.of_nat (List.length value)) reader)).
Proof.
  intros Hlen Hrl Hin. unfold _read_bytes, _read_int32.
  rewrite (bind_Ok _ _ reader (Z.of_nat (List.length value))
             (set_chan_in (value ++ rest)
                (set_read_length (_read_length reader - 4) reader))).
  2:{ apply (read_back_packed unpack_l 4
               (be_encode 4 (Z.of_nat (List.length value))));
        [rewrite be_encode_length; reflexivity | | lia | exact Hin].
      apply (unpack_pack_l _), pack_l_in_range. lia. }
  rewrite (_read_chunk_prefix value rest); [reflexivity | reflexivity | |].
  - cbn [_read_length set_chan_in set_read_length]. lia.
  - reflexivity.
Qed.

(** X2.  A byte string of at most [2^31 - 1] bytes written with
    [_write_bytes] is appended as two chunks, its length on four bytes and
    the bytes themselves; [_read_bytes] on that gives the byte string back
    and takes just these bytes off the message. *)
Theorem bytes_round_trip (value rest : list byte) (writer reader : state) :
  Z.of_nat (List.length value) <= 2 ^ 31 - 1 ->
  _write_bytes value writer
    = (Ok tt,
       set_write_buffer
         (_write_buffer writer
            ++ [be_encode 4 (Z.of_nat (List.length value)); value]) writer) /\
  (4 + Z.of_nat (List.length value) <= _read_length reader ->
   chan_in reader
     = be_encode 4 (Z.of_nat (List.length value)) ++ value ++ rest ->
   _read_bytes reader
     = (Ok value,
        set_chan_in rest
          (set_read_length
             (_read_length reader - 4 - Z.of_nat (List.length value))
             reader))).
Proof.
  intros Hlen. split.
  - apply appends_write_bytes. exact Hlen.
  - intros Hrl Hin. apply _read_bytes_run; assumption.
Qed.

Lemma bytes_round_trip_witness :
  let reader := request [x00; x00; x00; x02; xaa; xbb; x01] in
  _write_bytes [xaa; xbb] (init [])
    = (Ok tt, set_write_buffer [[x00; x00; x00; x02]; [xaa; xbb]] (init [])) /\
  _read_bytes reader
    = (Ok [xaa; xbb], set_chan_in [x01] (set_read_length 1 reader)).
Proof.
  intros reader.
  destruct (bytes_round_trip [xaa; xbb] [x01] (init []) reader) as [Hw Hr].
  - vm_compute. discriminate.
  - split; [exact Hw | apply Hr; [vm_compute; discriminate | reflexivity]].
Defined.

Lemma appends_write_string_blob (s : string) :
  encodable s = true ->
  Z.of_nat (List.length (encode_utf8 s)) + 1 <= 2 ^ 31 - 1 ->
  appends (_write_string s)
          [be_encode 4 (Z.of_nat (List.length (encode_utf8 s ++ [x00])));
           encode_utf8 s ++ [x00]].
Proof.
  intros Henc H st. unfold _write_string, str_encode. rewrite Henc.
  rewrite (bind_Ok _ _ st (encode_utf8 s) st) by reflexivity.
  apply (appends_write_bytes (encode_utf8 s ++ [x00])).
  rewrite length_app. cbn [List.length]. lia.
Qed.

(** X3.  A string whose UTF-8 encoding with the final NUL fits a length
    field, written with [_write_string], is appended as a byte string, the
    encoding followed by one NUL, and is read back by [_read_string], also
    when the string itself holds NUL characters: the reader drops the last
    byte, whatever it is.  A byte string of length zero, with no NUL to
    drop, is read as the empty string. *)
Theorem string_round_trip (value : string) (rest : list byte)
    (writer reader : state) :
  utf8_valid (map Z_of_byte (encode_utf8 value)) = true ->
  Z.of_nat (List.length (encode_utf8 value)) + 1 <= 2 ^ 31 - 1 ->
  let blob := encode_utf8 value ++ [x00] in
  (_write_string value writer
     = (Ok tt,
        set_write_buffer
          (_write_buffer writer
             ++ [be_encode 4 (Z.of_nat (List.length blob)); blob]) writer) /\
   (4 + Z.of_nat (List.length blob) <= _read_length reader ->
    chan_in reader
      = be_encode 4 (Z.of_nat (List.length blob)) ++ blob ++ rest ->
    _read_string reader
      = (Ok value,
         set_chan_in rest
           (set_read_length
              (_read_length reader - 4 - Z.of_nat (List.length blob))
              reader))))
  /\
  (4 <= _read_length reader ->
   chan_in reader = be_encode 4 0 ++ rest ->
   _read_string reader
     = (Ok EmptyString,
        set_chan_in rest (set_read_length (_read_length reader - 4) reader))).
Proof.
  intros Hvalid Hlen blob.
  assert (Hblob : Z.of_nat (List.length blob) <= 2 ^ 31 - 1).
  { unfold blob. rewrite length_app. cbn [List.length]. lia. }
  split; [split|].
  - apply (appends_write_string_blob value Hvalid Hlen).
  - intros Hrl Hin. unfold _read_string.
    rewrite (bind_Ok _ _ _ _ _ (_read_bytes_run blob rest reader Hblob Hrl Hin)).
    unfold blob at 1. rewrite removelast_last. unfold lift, decode_utf8.
    rewrite Hvalid. unfold encode_utf8.
    rewrite string_of_list_byte_of_string. reflexivity.
  - intros Hrl Hin. unfold _read_string.
    rewrite (bind_Ok _ _ _ _ _
               (_read_bytes_run [] rest reader
                  ltac:(cbn; lia) ltac:(cbn [List.length]; lia) Hin)).
    cbn [List.length Z.of_nat]. rewrite Z.sub_0_r. reflexivity.
Qed.

Lemma string_round_trip_witness :
  (* the string "k", with one more byte behind it *)
  let reader := request [x00; x00; x00; x02; x6b; x00; x01] in
  _write_string "k" (init [])
    = (Ok tt, set_write_buffer [[x00; x00; x00; x02]; [x6b; x00]] (init [])) /\
  _read_string reader
    = (Ok "k"%string, set_chan_in [x01] (set_read_length 1 reader)).
Proof.
  intros reader.
  destruct (string_round_trip "k" [x01] (init []) reader) as [[Hw Hr] _].
  - reflexivity.
  - vm_compute. discriminate.
  - split; [exact Hw | apply Hr; [vm_compute; discriminate | reflexivity]].
Defined.

(** ** The reader stays within the message *)

Lemma within_ret {A} (a : A) : within_message (ret a).
Proof.
  intros st a' st' [= <- <-] H. exists []. repeat split; cbn; lia.
Qed.

Lemma within_raise {A} (e : exn) : within_message (@raise A e).
Proof. intros st a st' H. discriminate. Qed.

Lemma within_lift {A} (r : result A) : within_message (lift r).
Proof.
  intros st a st' H Hrl. unfold lift in H. injection H as _ <-.
  exists []. repeat split; cbn; lia.
Qed.

Lemma within_bind {A B} (c : M A) (k : A -> M B) :
  within_message c -> (forall a, within_message (k a)) ->
  within_message (bind c k).
Proof.
  intros Hc Hk st b st' H Hrl.
  apply bind_Ok_inv in H as (a & st1 & H1 & H2).
  destruct (Hc st a st1 H1 Hrl) as (t1 & E1 & L1 & P1).
  destruct (Hk a st1 b st' H2 P1) as (t2 & E2 & L2 & P2).
  exists (t1 ++ t2). rewrite length_app, <- app_assoc, <- E2.
  repeat split; [exact E1 | lia | exact P2].
Qed.

Lemma within_collect {A B} (body : A -> M B) (xs : list A) :
  (forall x, within_message (body x)) -> within_message (collect body xs).
Proof.
  intros Hb. induction xs as [|x xs IH]; cbn [collect].
  - apply within_ret.
  - apply within_bind; [apply Hb | intros y].
    apply within_bind; [exact IH | intros ys; apply within_ret].
Qed.

Lemma within_read_chunk n : within_message (_read_chunk n).
Proof.
  intros st a st' H Hrl. unfold _read_chunk, bind, gets, modify, raise in H.
  destruct (Z.ltb_spec (_read_length st) n) as [?|Hn]; [discriminate|].
  unfold read in H. cbn [chan_in set_read_length] in H.
  destruct (andb _ _) eqn:E; [|discriminate].
  apply andb_true_iff in E as [E1 E2]. apply Z.leb_le in E1, E2.
  injection H as _ <-.
  exists (take (Z.to_nat n) (chan_in st)).
  cbn [chan_in _read_length set_chan_in set_read_length].
  rewrite take_drop, length_take. repeat split; lia.
Qed.

Lemma within_read_int8 : within_message _read_int8.
Proof.
  apply within_bind; [apply within_read_chunk | intros; apply within_lift].
Qed.

Lemma within_read_int32 : within_message _read_int32.
Proof.
  apply within_bind; [apply within_read_chunk | intros; apply within_lift].
Qed.

Lemma within_read_int64 : within_message _read_int64.
Proof.
  apply within_bind; [apply within_read_chunk | intros; apply within_lift].
Qed.

Lemma within_read_float64 : within_message _read_float64.
Proof.
  apply within_bind; [apply within_read_chunk | intros data].
  destruct (decide _); [apply within_ret | apply within_raise].
Qed.

Lemma within_read_bytes : within_message _read_bytes.
Proof.
  apply within_bind; [apply within_read_int32 | intros; apply within_read_chunk].
Qed.

Lemma within_read_string : within_message _read_string.
Proof.
  apply within_bind; [apply within_read_bytes | intros; apply within_lift].
Qed.

Ltac within_step IH :=
  lazymatch goal with
  | |- within_message (bind _ _) => apply within_bind; [| intros ?]
  | |- within_message (collect _ _) => apply within_collect; intros ?
  | |- within_message (if ?c then _ else _) => destruct c
  | |- within_message (_receive_rpc_value _ _ _) => apply IH
  | |- within_message (ret _) => apply within_ret
  | |- within_message (raise _) => apply within_raise
  | |- within_message (lift _) => apply within_lift
  | |- within_message _read_int8 => apply within_read_int8
  | |- within_message _read_int32 => apply within_read_int32
  | |- within_message _read_int64 => apply within_read_int64
  | |- within_message _read_float64 => apply within_read_float64
  | |- within_message _read_string => apply within_read_string
  end.

Lemma within_receive_rpc_value builtin_range (fuel : nat) embedding_map :
  within_message (_receive_rpc_value builtin_range fuel embedding_map).
Proof.
  induction fuel as [|fuel IH]; cbn [_receive_rpc_value].
  - apply within_raise.
  - repeat within_step IH.
Qed.

Lemma within_receive_rpc_args_loop builtin_range (turns fuel : nat)
    embedding_map :
  forall args kwargs,
    within_message (receive_rpc_args_loop builtin_range turns fuel
                                          embedding_map args kwargs).
Proof.
  induction turns as [|turns IH]; intros args kwargs;
    cbn [receive_rpc_args_loop].
  - apply within_raise.
  - apply within_bind; [apply within_receive_rpc_value | intros value].
    destruct value; try apply IH. apply within_ret.
Qed.

(** X4.  Reading the arguments of a request stays within the message.
    Take a reader whose count of remaining bytes is the length of what is
    left of the message body on the channel, as it is after [_read_header]
    and after each read of the body that returned.  A [_receive_rpc_args]
    that returns has taken a prefix of that body and nothing else: the rest
    of the body and all that follows the message are still on the channel,
    and the count is the length of the rest of the body. *)
Theorem receive_rpc_args_stays_within_message builtin_range
    (turns fuel : nat) embedding_map (st st' : state)
    (args : list pyval) (kwargs : gmap string pyval)
    (body rest : list byte) :
  _read_length st = Z.of_nat (List.length body) ->
  chan_in st = body ++ rest ->
  _receive_rpc_args builtin_range turns fuel embedding_map st
    = (Ok (args, kwargs), st') ->
  exists taken left,
    body = taken ++ left /\
    chan_in st' = left ++ rest /\
    _read_length st' = Z.of_nat (List.length left).
Proof.
  intros Hrl Hin H.
  destruct (within_receive_rpc_args_loop builtin_range turns fuel
              embedding_map [] ∅ st _ st' H ltac:(lia))
    as (taken & E & L & P).
  assert (Hn : (List.length taken <= List.length body)%nat) by lia.
  exists (take (List.length taken) body), (drop (List.length taken) body).
  rewrite Hin in E.
  assert (Htake : take (List.length taken) body = taken).
  { rewrite <- (take_app_le body rest) by exact Hn.
    rewrite E. apply take_app_length. }
  assert (Hdrop : chan_in st' = drop (List.length taken) body ++ rest).
  { rewrite <- (drop_app_le body rest) by exact Hn.
    rewrite E. symmetry. apply drop_app_length. }
  split; [symmetry; apply take_drop|]. split; [exact Hdrop|].
  rewrite L, Hrl, length_drop. lia.
Qed.

Lemma receive_rpc_args_stays_within_message_witness :
  (* a message body k "a" i(1), i(3), sentinel and the two bytes 01 02,
     followed on the channel by the first byte of the next message *)
  let body := [x6b; x00; x00; x00; x02; x61; x00; x69; x00; x00; x00; x01;
               x69; x00; x00; x00; x03; x00; x01; x02] in
  let st := set_read_length 20 (init (body ++ [x5a])) in
  let st' := set_chan_in [x01; x02; x5a] (set_read_length 2 st) in
  exists taken left,
    body = taken ++ left /\
    chan_in st' = left ++ [x5a] /\
    _read_length st' = Z.of_nat (List.length left).
Proof.
  intros body st st'.
  apply (receive_rpc_args_stays_within_message example_range 3 2
           example_embedding_map st st' [VWrapInt 3 32]
           {["a"%string := VWrapInt 1 32]} body [x5a]).
  - reflexivity.
  - reflexivity.
  - vm_compute. reflexivity.
Defined.

(** ** Sending only extends the message under construction *)

Lemma extends_same {A} (c : M A) :
  (forall st, chan_in (snd (c st)) = chan_in st /\
              _read_length (snd (c st)) = _read_length st /\
              _read_type (snd (c st)) = _read_type st /\
              chan_out (snd (c st)) = chan_out st /\
              _write_type (snd (c st)) = _write_type st /\
              _write_buffer (snd (c st)) = _write_buffer st) ->
  extends_message c.
Proof.
  intros H st. destruct (H st) as (H1 & H2 & H3 & H4 & H5 & H6).
  repeat split; try assumption. exists []. rewrite app_nil_r. exact H6.
Qed.

Lemma extends_ret {A} (a : A) : extends_message (ret a).
Proof. apply extends_same. intros st. repeat split. Qed.

Lemma extends_raise {A} (e : exn) : extends_message (@raise A e).
Proof. apply extends_same. intros st. repeat split. Qed.

Lemma extends_lift {A} (r : result A) : extends_message (lift r).
Proof. apply extends_same. intros st. repeat split. Qed.

Lemma extends_bind {A B} (c : M A) (k : A -> M B) :
  extends_message c -> (forall a, extends_message (k a)) ->
  extends_message (bind c k).
Proof.
  intros Hc Hk st. unfold bind. specialize (Hc st).
  destruct (c st) as [[a|e] st1]; cbn [snd] in *; [|exact Hc].
  destruct Hc as (H1 & H2 & H3 & H4 & H5 & ch1 & H6).
  destruct (Hk a st1) as (K1 & K2 & K3 & K4 & K5 & ch2 & K6).
  repeat split; try congruence.
  exists (ch1 ++ ch2). rewrite K6, H6, app_assoc. reflexivity.
Qed.

Lemma extends_for_each {A} (body : A -> M unit) (xs : list A) :
  (forall x, extends_message (body x)) -> extends_message (for_each body xs).
Proof.
  intros Hb. induction xs as [|x xs IH]; cbn [for_each].
  - apply extends_ret.
  - apply extends_bind; [apply Hb | intros _; exact IH].
Qed.

Lemma extends_append_chunk chunk : extends_message (append_chunk chunk).
Proof. intros st. repeat split. exists [chunk]. reflexivity. Qed.

Lemma extends_write_int8 v : extends_message (_write_int8 v).
Proof.
  apply extends_bind; [apply extends_lift | intros; apply extends_append_chunk].
Qed.

Lemma extends_write_int32 v : extends_message (_write_int32 v).
Proof.
  apply extends_bind; [apply extends_lift | intros; apply extends_append_chunk].
Qed.

Lemma extends_write_int64 v : extends_message (_write_int64 v).
Proof.
  apply extends_bind; [apply extends_lift | intros; apply extends_append_chunk].
Qed.

Lemma extends_write_bytes v : extends_message (_write_bytes v).
Proof.
  apply extends_bind; [apply extends_write_int32 |].
  intros; apply extends_append_chunk.
Qed.

Lemma extends_write_string v : extends_message (_write_string v).
Proof.
  apply extends_bind; [apply extends_lift | intros data].
  apply extends_write_bytes.
Qed.

Lemma extends_pop0 t : extends_message (pop0 t).
Proof.
  apply extends_same. intros st. unfold pop0.
  destruct (bytearrays st !!! t); repeat split.
Qed.

Lemma extends_bytearray_copy t : extends_message (bytearray_copy t).
Proof. apply extends_same. intros st. repeat split. Qed.

Lemma extends_skip (fuel : nat) (t : nat) :
  extends_message (_skip_rpc_value fuel t).
Proof.
  destruct fuel as [|fuel]; cbn [_skip_rpc_value].
  - apply extends_raise.
  - apply extends_bind; [apply extends_pop0 | intros tag].
    unfold int_eq_str. apply extends_ret.
Qed.

Ltac extends_step IH :=
  lazymatch goal with
  | |- extends_message (bind _ _) => apply extends_bind; [| intros ?]
  | |- extends_message (for_each _ _) => apply extends_for_each; intros ?
  | |- extends_message (if ?c then _ else _) => destruct c
  | |- extends_message (let '(_, _) := ?p in _) => destruct p
  | |- extends_message (_send_rpc_value _ _ _ _ _) => apply IH
  | |- extends_message (_skip_rpc_value _ _) => apply extends_skip
  | |- extends_message (pop0 _) => apply extends_pop0
  | |- extends_message (bytearray_copy _) => apply extends_bytearray_copy
  | |- extends_message (ret _) => apply extends_ret
  | |- extends_message (raise _) => apply extends_raise
  | |- extends_message (_write_int8 _) => apply extends_write_int8
  | |- extends_message (_write_int32 _) => apply extends_write_int32
  | |- extends_message (_write_int64 _) => apply extends_write_int64
  | |- extends_message (_write_float64 _) => apply extends_append_chunk
  | |- extends_message (_write_string _) => apply extends_write_string
  end.

Lemma extends_send (fuel : nat) :
  forall t value root function,
    extends_message (_send_rpc_value fuel t value root function).
Proof.
  induction fuel as [|fuel IH]; intros t value root function;
    cbn [_send_rpc_value].
  - apply extends_raise.
  - repeat extends_step IH.
Qed.

(** X5.  Whatever value [_send_rpc_value] is given and whether it returns
    or raises, it writes nothing to the channel and reads nothing, it
    keeps the type of the message under construction, and the chunks that
    were pending are still there, in order, before those it added. *)
Theorem send_rpc_value_only_extends_message (fuel : nat) (tags : nat)
    (value root function : pyval) (st : state) :
  let st' := snd (_send_rpc_value fuel tags value root function st) in
  chan_in st' = chan_in st /\
  _read_length st' = _read_length st /\
  _read_type st' = _read_type st /\
  chan_out st' = chan_out st /\
  _write_type st' = _write_type st /\
  exists chunks, _write_buffer st' = _write_buffer st ++ chunks.
Proof. apply extends_send. Qed.

(** ** Scalars *)

Lemma check_bind {B} (cond : bool) (e : exn) (k : M B) (st : state) :
  ((if cond then ret tt else raise e) >> k) st
    = if cond then k st else (Raise e, st).
Proof. destruct cond; reflexivity. Qed.

(** X6.  Against the tag of a scalar (['n'], ['b'], ['i'], ['I'], ['f'],
    ['F'], ['s']) a send is all or nothing: when it raises, no chunk has
    been added to the message under construction.  The exception is the
    return-value type error about the value that was given, or, for a
    string that passed the check, [UnicodeEncodeError] when it holds a
    surrogate and otherwise the error of [struct.pack], the string being
    too long for its length field. *)
Theorem send_scalar_all_or_nothing (fuel : nat) (tags : nat) (tag : byte)
    (rest : list byte) (value root function : pyval) (st : state) (e : exn) :
  bytearrays st !!! tags = tag :: rest ->
  In tag scalar_tags ->
  fst (_send_rpc_value (S fuel) tags value root function st) = Raise e ->
  _write_buffer (snd (_send_rpc_value (S fuel) tags value root function st))
    = _write_buffer st /\
  ((exists expected, e = RPCReturnValueError value expected function root) \/
   (tag = x73 /\
    exists s, value = VStr s /\ no_NUL s = true /\
      ((encodable s = false /\ e = UnicodeEncodeError) \/
       (encodable s = true /\ e = struct_error)))).
Proof.
  intros Htags Hin. cbn [_send_rpc_value].
  rewrite (bind_Ok _ _ _ _ _ (pop0_run tags tag rest st Htags)).
  set (st1 := set_bytearrays _ st).
  assert (Hbuf : _write_buffer st1 = _write_buffer st) by reflexivity.
  clearbody st1.
  cbn [In scalar_tags] in Hin.
  destruct Hin as [<-|[<-|[<-|[<-|[<-|[<-|[<-|[]]]]]]]]; dispatch_tag;
    rewrite ?check_bind.
  - destruct value; cbn [fst snd]; intros [= <-] || discriminate;
      (split; [exact Hbuf | left; eauto]).
  - destruct value; cbn [as_bool as_int default from_option Datatypes.id fst snd];
      try (intros [= <-]; split; [exact Hbuf | left; eauto]).
    destruct b; discriminate.
  - destruct value; cbn [as_int default from_option Datatypes.id fst snd];
      try (intros [= <-]; split; [exact Hbuf | left; eauto]).
    + destruct b; discriminate.
    + destruct (Z.ltb_spec (- 2 ^ 31) n); destruct (Z.ltb_spec n (2 ^ 31 - 1));
        cbn [andb fst snd];
        try (intros [= <-]; split; [exact Hbuf | left; eauto]).
      unfold _write_int32. rewrite pack_l_in_range by lia. discriminate.
  - destruct value; cbn [as_int default from_option Datatypes.id fst snd];
      try (intros [= <-]; split; [exact Hbuf | left; eauto]).
    + destruct b; discriminate.
    + destruct (Z.ltb_spec (- 2 ^ 63) n); destruct (Z.ltb_spec n (2 ^ 63 - 1));
        cbn [andb fst snd];
        try (intros [= <-]; split; [exact Hbuf | left; eauto]).
      unfold _write_int64. rewrite pack_q_in_range by lia. discriminate.
  - destruct value; cbn [as_float default from_option Datatypes.id fst snd];
      try (intros [= <-]; split; [exact Hbuf | left; eauto]).
    discriminate.
  - destruct value; cbn [as_Fraction default from_option Datatypes.id fst snd];
      try (intros [= <-]; split; [exact Hbuf | left; eauto]).
    destruct (Z.ltb_spec (- 2 ^ 63) numerator);
      destruct (Z.ltb_spec numerator (2 ^ 63 - 1));
      destruct (Z.ltb_spec (- 2 ^ 63) denominator);
      destruct (Z.ltb_spec denominator (2 ^ 63 - 1));
      cbn [andb fst snd];
      try (intros [= <-]; split; [exact Hbuf | left; eauto]).
    unfold _write_int64. rewrite !pack_q_in_range by lia. discriminate.
  - destruct value; cbn [as_str default from_option Datatypes.id fst snd];
      try (intros [= <-]; split; [exact Hbuf | left; eauto]).
    destruct (no_NUL s) eqn:Hnul;
      try (intros [= <-]; split; [exact Hbuf | left; eauto]).
    unfold _write_string, str_encode.
    destruct (encodable s) eqn:Henc.
    + rewrite (bind_Ok _ _ st1 (encode_utf8 s) st1) by reflexivity.
      unfold _write_bytes, _write_int32, bind, lift.
      destruct (pack_l _) as [data|x] eqn:Hpack; [discriminate|].
      cbn [fst snd]. intros [= <-]. split; [exact Hbuf|]. right.
      split; [reflexivity|]. exists s. split; [reflexivity|].
      split; [exact Hnul|]. right. split; [exact Henc|].
      unfold pack_l in Hpack. destruct (andb _ _); congruence.
    + cbn [fst snd bind lift]. intros [= <-]. split; [exact Hbuf|]. right.
      split; [reflexivity|]. exists s. split; [reflexivity|].
      split; [exact Hnul|]. left. split; [exact Henc | reflexivity].
Qed.

Lemma send_scalar_all_or_nothing_witness :
  (* the one-character string of the lone surrogate U+DC80, against the
     tag 's' *)
  let st := set_write_buffer [[x01]] (set_bytearrays [[x73; x6e]] (init [])) in
  let surrogate := String "237" (String "178" (String "128" EmptyString)) in
  let run := _send_rpc_value 1 0 (VStr surrogate) VNone (VObject 7) st in
  fst run = Raise UnicodeEncodeError /\
  _write_buffer (snd run) = [[x01]].
Proof.
  intros st surrogate run.
  assert (H : fst run = Raise UnicodeEncodeError) by reflexivity.
  split; [exact H|].
  apply (send_scalar_all_or_nothing 0 0 x73 [x6e] (VStr surrogate) VNone
           (VObject 7) st UnicodeEncodeError eq_refl
           ltac:(cbn; tauto) H).
Defined.

(** X7.  An integer sent against the tag ['I'] is accepted exactly in the
    open interval from [-2^63] to [2^63 - 1], and is then appended as its
    eight-byte big-endian encoding; the two extreme values of the signed
    64-bit range are refused with the return-value type error. *)
Theorem send_int64_domain (fuel : nat) (tags : nat) (v : Z)
    (root function : pyval) (rest : list byte) (st : state) :
  bytearrays st !!! tags = x49 :: rest ->
  let run := _send_rpc_value (S fuel) tags (VInt v) root function st in
  (fst run = Ok tt <-> - 2 ^ 63 < v < 2 ^ 63 - 1) /\
  (- 2 ^ 63 < v < 2 ^ 63 - 1 ->
   _write_buffer (snd run) = _write_buffer st ++ [be_encode 8 v]) /\
  (~ (- 2 ^ 63 < v < 2 ^ 63 - 1) ->
   fst run = Raise (RPCReturnValueError (VInt v) shape_int64 function root) /\
   _write_buffer (snd run) = _write_buffer st).
Proof.
  intros Htags run. subst run.
  cbn [_send_rpc_value].
  rewrite (bind_Ok _ _ _ _ _ (pop0_run tags x49 rest st Htags)).
  set (st1 := set_bytearrays _ st).
  dispatch_tag. cbn [as_int default from_option id]. rewrite check_bind.
  destruct (Z.ltb_spec (- 2 ^ 63) v) as [Hlo|Hlo];
    destruct (Z.ltb_spec v (2 ^ 63 - 1)) as [Hhi|Hhi]; cbn [andb].
  2-4: (cbn [fst snd]; repeat split; try (intros; lia); discriminate).
  unfold _write_int64. rewrite pack_q_in_range by lia.
  rewrite (bind_Ok _ _ st1 (be_encode 8 v) st1) by reflexivity.
  cbn [fst snd append_chunk modify]. repeat split; intros; try lia.
Qed.

Lemma send_int64_domain_witness :
  (* the largest signed 64-bit integer *)
  let st := set_bytearrays [[x49]] (init []) in
  let run := _send_rpc_value 1 0 (VInt (2 ^ 63 - 1)) VNone (VObject 7) st in
  fst run = Raise (RPCReturnValueError (VInt (2 ^ 63 - 1)) shape_int64
                     (VObject 7) VNone) /\
  _write_buffer (snd run) = _write_buffer st.
Proof.
  intros st run.
  destruct (send_int64_domain 0 0 (2 ^ 63 - 1) VNone (VObject 7) [] st eq_refl)
    as (_ & _ & H).
  apply H. lia.
Defined.

(** X8.  On a bytearray [_skip_rpc_value] removes the first element and
    nothing else, whatever that element is, the tags ['t'], ['l'] and ['r']
    included: the element is an integer and is compared with strings, so
    no branch that descends is ever taken.  On an empty bytearray it fails
    with the index error of [pop]. *)
Theorem skip_rpc_value_pops_one (fuel : nat) (tags : nat) (st : state) :
  (bytearrays st !!! tags = [] ->
   _skip_rpc_value (S fuel) tags st = (Raise IndexError, st)) /\
  (forall tag rest,
     bytearrays st !!! tags = tag :: rest ->
     _skip_rpc_value (S fuel) tags st
       = (Ok tt, set_bytearrays (<[tags := rest]> (bytearrays st)) st)).
Proof.
  split.
  - intros H. rewrite _skip_rpc_value_run. unfold bind, pop0. rewrite H.
    reflexivity.
  - intros tag rest H. rewrite _skip_rpc_value_run.
    rewrite (bind_Ok _ _ _ _ _ (pop0_run tags tag rest st H)). reflexivity.
Qed.

Lemma skip_rpc_value_pops_one_witness :
  (* the tags of a tuple of two integers, then of None: t 2 i i n *)
  _skip_rpc_value 3 0 (set_bytearrays [[x74; x02; x69; x69; x6e]] (init []))
    = (Ok tt, set_bytearrays [[x02; x69; x69; x6e]] (init [])) /\
  _skip_rpc_value 3 0 (set_bytearrays [[]] (init []))
    = (Raise IndexError, set_bytearrays [[]] (init [])).
Proof.
  split.
  - apply (proj2 (skip_rpc_value_pops_one 2 0
                    (set_bytearrays [[x74; x02; x69; x69; x6e]] (init [])))
             x74 [x02; x69; x69; x6e]).
    reflexivity.
  - apply (proj1 (skip_rpc_value_pops_one 2 0
                    (set_bytearrays [[]] (init [])))).
    reflexivity.
Defined.

(** ** The serve loop *)

Lemma bind_never_Ok {A B} (c : M A) (k : A -> M B) :
  (forall a st, exists e st', k a st = (Raise e, st')) ->
  forall st, exists e st', bind c k st = (Raise e, st').
Proof.
  intros Hk st. unfold bind. destruct (c st) as [[a|e] st1]; eauto.
Qed.

Lemma _serve_exception_raises kernel_exception embedding_map (st : state) :
  exists e st',
    _serve_exception kernel_exception embedding_map st = (Raise e, st').
Proof.
  unfold _serve_exception. revert st.
  repeat (apply bind_never_Ok; intros ?). intros st. unfold raise. eauto.
Qed.

Lemma serve_Ok_inv builtin_range call_service introspect kernel_exception
    (turns fuel : nat) embedding_map :
  forall st st',
    serve builtin_range call_service introspect kernel_exception
          turns fuel embedding_map st = (Ok tt, st') ->
    _read_type st' = Some KERNEL_FINISHED.
Proof.
  induction turns as [|turns IH]; intros st st' H; [discriminate|].
  cbn [serve] in H.
  apply bind_Ok_inv in H as ([] & st1 & _ & H).
  apply bind_Ok_inv in H as (ty & st2 & Hty & H).
  injection Hty as <- <-.
  destruct (decide (_read_type st1 = Some RPC_REQUEST)).
  { apply bind_Ok_inv in H as ([] & st3 & _ & H). exact (IH _ _ H). }
  destruct (decide (_read_type st1 = Some KERNEL_EXCEPTION)).
  { apply bind_Ok_inv in H as ([] & st3 & Hexn & _).
    destruct (_serve_exception_raises kernel_exception embedding_map st1)
      as (x & st4 & E).
    congruence. }
  destruct (decide (_read_type st1 = Some WATCHDOG_EXPIRED)); [discriminate|].
  destruct (decide (_read_type st1 = Some CLOCK_FAILURE)); [discriminate|].
  unfold _read_expect, bind, gets in H.
  destruct (decide (_read_type st1 = Some KERNEL_FINISHED)) as [E|];
    [|discriminate].
  injection H as <-. exact E.
Qed.

(** X9.  [serve] returns only on a message of type [KERNEL_FINISHED]: when
    it returns, after however many requests, that is the type of the last
    header read.  On a message of type [KERNEL_EXCEPTION] it raises,
    whatever the body holds: [_serve_exception] ends with a [raise] on
    every path. *)
Theorem serve_returns_on_kernel_finished
    builtin_range call_service introspect kernel_exception
    (turns fuel : nat) embedding_map (st : state) :
  (forall st',
     serve builtin_range call_service introspect kernel_exception
           turns fuel embedding_map st = (Ok tt, st') ->
     _read_type st' = Some KERNEL_FINISHED) /\
  (forall st1,
     _read_header st = (Ok tt, st1) ->
     _read_type st1 = Some KERNEL_EXCEPTION ->
     exists e st',
       serve builtin_range call_service introspect kernel_exception
             (S turns) fuel embedding_map st = (Raise e, st')).
Proof.
  split.
  - intros st'. apply serve_Ok_inv.
  - intros st1 Hhead Hty. cbn [serve].
    rewrite (bind_Ok _ _ _ _ _ Hhead).
    rewrite (bind_Ok _ _ st1 (_read_type st1) st1) by reflexivity.
    rewrite Hty.
    destruct (decide (Some KERNEL_EXCEPTION = Some RPC_REQUEST));
      [discriminate|].
    destruct (decide (Some KERNEL_EXCEPTION = Some KERNEL_EXCEPTION));
      [|congruence].
    destruct (_serve_exception_raises kernel_exception embedding_map st1)
      as (x & st4 & E).
    exists x, st4. apply (bind_Raise _ _ _ _ _ E).
Qed.

Lemma serve_returns_on_kernel_finished_witness :
  let serve1 := serve example_range example_call_service example_introspect
                      (fun _ _ _ _ _ _ _ _ _ => AssertionError)
                      1 1 example_embedding_map in
  (* a KERNEL_FINISHED message with an empty body *)
  _read_type (snd (serve1 (init (envelope 7 [])))) = Some KERNEL_FINISHED /\
  (* a KERNEL_EXCEPTION message with an empty body *)
  exists e st', serve1 (init (envelope 9 [])) = (Raise e, st').
Proof.
  intros serve1. split.
  - apply (proj1 (serve_returns_on_kernel_finished example_range
                    example_call_service example_introspect
                    (fun _ _ _ _ _ _ _ _ _ => AssertionError)
                    1 1 example_embedding_map (init (envelope 7 [])))).
    vm_compute. reflexivity.
  - apply (proj2 (serve_returns_on_kernel_finished example_range
                    example_call_service example_introspect
                    (fun _ _ _ _ _ _ _ _ _ => AssertionError)
                    0 1 example_embedding_map (init (envelope 9 [])))
             (snd (_read_header (init (envelope 9 []))))).
    + vm_compute. reflexivity.
    + vm_compute. reflexivity.
Defined.

Lemma serve_first_message builtin_range call_service introspect
    kernel_exception (turns fuel : nat) embedding_map
    (raw_type : Z) (ty : _D2HMsgType) (body rest : list byte) (st : state) :
  _read_length st <= 0 ->
  9 + Z.of_nat (List.length body) <= 2 ^ 31 - 1 ->
  D2H_of_value (Z_of_byte (byte_of_Z raw_type)) = Some ty ->
  chan_in st = envelope raw_type body ++ rest ->
  ty <> RPC_REQUEST -> ty <> KERNEL_EXCEPTION ->
  let st1 := set_read_length (Z.of_nat (List.length body))
               (set_read_type (Some ty)
                  (set_chan_in (body ++ rest) (set_chan_open true st))) in
  serve builtin_range call_service introspect kernel_exception
        (S turns) fuel embedding_map st
    = if decide (ty = WATCHDOG_EXPIRED) then (Raise WatchdogExpired, st1)
      else if decide (ty = CLOCK_FAILURE) then (Raise ClockFailure, st1)
      else if decide (ty = KERNEL_FINISHED) then (Ok tt, st1)
      else (Raise (IOError_IncorrectReply (Some ty) KERNEL_FINISHED), st1).
Proof.
  intros Hrl Hlen Hty Hin Hrpc Hexn st1. cbn [serve].
  rewrite (bind_Ok _ _ _ _ _
             (_read_header_envelope_in raw_type ty body rest st
                Hrl Hlen Hty Hin)).
  fold st1. rewrite (bind_Ok _ _ st1 (Some ty) st1) by reflexivity.
  destruct (decide (Some ty = Some RPC_REQUEST)); [congruence|].
  destruct (decide (Some ty = Some KERNEL_EXCEPTION)); [congruence|].
  destruct (decide (ty = WATCHDOG_EXPIRED)) as [->|].
  { reflexivity. }
  destruct (decide (Some ty = Some WATCHDOG_EXPIRED)); [congruence|].
  destruct (decide (ty = CLOCK_FAILURE)) as [->|].
  { reflexivity. }
  destruct (decide (Some ty = Some CLOCK_FAILURE)); [congruence|].
  unfold _read_expect, bind, gets. cbn [_read_type st1 set_read_length
                                         set_read_type].
  destruct (decide (ty = KERNEL_FINISHED)) as [->|].
  { reflexivity. }
  destruct (decide (Some ty = Some KERNEL_FINISHED)); [congruence|].
  reflexivity.
Qed.

(** X10.  How [serve] ends on a first message that is neither a request
    nor a kernel exception: on [KERNEL_FINISHED] it returns, leaving the
    body of that message unread; on [WATCHDOG_EXPIRED] and on
    [CLOCK_FAILURE] it raises the exception of that name; on every other
    type, [LOAD_FAILED] and [KERNEL_STARTUP_FAILED] included, it fails with
    the incorrect-reply error that names [KERNEL_FINISHED] as expected. *)
Theorem serve_terminal_messages builtin_range call_service introspect
    kernel_exception (turns fuel : nat) embedding_map
    (raw_type : Z) (ty : _D2HMsgType) (body rest : list byte) (st : state) :
  _read_length st <= 0 ->
  9 + Z.of_nat (List.length body) <= 2 ^ 31 - 1 ->
  D2H_of_value (Z_of_byte (byte_of_Z raw_type)) = Some ty ->
  chan_in st = envelope raw_type body ++ rest ->
  let run := serve builtin_range call_service introspect kernel_exception
                   (S turns) fuel embedding_map st in
  (ty = KERNEL_FINISHED ->
   fst run = Ok tt /\
   _read_length (snd run) = Z.of_nat (List.length body) /\
   chan_in (snd run) = body ++ rest) /\
  (ty = WATCHDOG_EXPIRED -> fst run = Raise WatchdogExpired) /\
  (ty = CLOCK_FAILURE -> fst run = Raise ClockFailure) /\
  (~ In ty [RPC_REQUEST; KERNEL_EXCEPTION; KERNEL_FINISHED;
            WATCHDOG_EXPIRED; CLOCK_FAILURE] ->
   fst run = Raise (IOError_IncorrectReply (Some ty) KERNEL_FINISHED)).
Proof.
  intros Hrl Hlen Hty Hin run. subst run.
  split; [|split; [|split]].
  - intros ->. rewrite (serve_first_message _ _ _ _ _ _ _ _ _ _ _ _
                          Hrl Hlen Hty Hin) by discriminate.
    repeat split.
  - intros ->. rewrite (serve_first_message _ _ _ _ _ _ _ _ _ _ _ _
                          Hrl Hlen Hty Hin) by discriminate. reflexivity.
  - intros ->. rewrite (serve_first_message _ _ _ _ _ _ _ _ _ _ _ _
                          Hrl Hlen Hty Hin) by discriminate. reflexivity.
  - intros Hnot. cbn [In] in Hnot.
    rewrite (serve_first_message _ _ _ _ _ _ _ _ _ _ _ _
               Hrl Hlen Hty Hin) by (intros ->; tauto).
    destruct (decide (ty = WATCHDOG_EXPIRED)) as [->|]; [tauto|].
    destruct (decide (ty = CLOCK_FAILURE)) as [->|]; [tauto|].
    destruct (decide (ty = KERNEL_FINISHED)) as [->|]; [tauto|].
    reflexivity.
Qed.

Lemma serve_terminal_messages_witness :
  (* a LOAD_FAILED message while a kernel is served *)
  let run := serve example_range example_call_service example_introspect
                   (fun _ _ _ _ _ _ _ _ _ => AssertionError)
                   1 1 example_embedding_map (init (envelope 6 [])) in
  fst run = Raise (IOError_IncorrectReply (Some LOAD_FAILED) KERNEL_FINISHED).
Proof.
  intros run.
  destruct (serve_terminal_messages example_range example_call_service
              example_introspect (fun _ _ _ _ _ _ _ _ _ => AssertionError)
              0 1 example_embedding_map 6 LOAD_FAILED [] []
              (init (envelope 6 [])))
    as (_ & _ & _ & H).
  - vm_compute. discriminate.
  - vm_compute. discriminate.
  - reflexivity.
  - reflexivity.
  - apply H. cbn [In]. intuition discriminate.
Defined.

(** ** One envelope per request *)

Lemma answered_after_silent {A} (c : M A) (k : A -> M unit) :
  silent c ->
  (forall a st1 r st', k a st1 = (r, st') -> answered (chan_out st1) r st') ->
  forall st r st', bind c k st = (r, st') -> answered (chan_out st) r st'.
Proof.
  intros Hc Hk st r st'. unfold bind. destruct (Hc st) as (Hout & _).
  destruct (c st) as [[a|e] st1]; cbn [snd] in Hout.
  - intros H. rewrite <- Hout. exact (Hk a st1 r st' H).
  - intros [= <- <-]. left. exact Hout.
Qed.

Lemma rpc_exception_handler_answered introspect embedding_map (e : exn)
    (st : state) (r : result unit) (st' : state) :
  rpc_exception_handler introspect embedding_map e st = (r, st') ->
  answered (chan_out st) r st'.
Proof.
  intros H. destruct r as [[]|x].
  - right. split; [reflexivity|].
    destruct (rpc_exception_handler_Ok _ _ _ _ _ H) as [body Hbody].
    exists body. right. exact Hbody.
  - left. unfold rpc_exception_handler in H.
    rewrite (bind_Ok _ _ st tt
               (set_write_buffer []
                  (set_write_type (Some RPC_EXCEPTION)
                     (set_chan_open true st)))) in H by reflexivity.
    set (sth := set_write_buffer _ _) in H.
    apply bind_Raise_inv in H as [H|([] & stm & H & Hf)];
      match type of H with
      | ?c sth = _ => assert (Hb : builds c) by (repeat builds_step);
                      specialize (Hb sth); rewrite H in Hb;
                      destruct Hb as [Hout _]; cbn [snd] in Hout
      end.
    + exact Hout.
    + apply _write_flush_Raise in Hf. subst st'. exact Hout.
Qed.

Lemma reply_answered (fuel : nat) (returned service : pyval)
    (return_tags : list byte) (st : state) (r : result unit) (st' : state) :
  (_write_header RPC_REPLY >>
   _write_bytes return_tags >>
   let! tags := bytearray_new return_tags in
   _send_rpc_value fuel tags returned returned service >>
   _write_flush) st = (r, st') ->
  chan_out st' = chan_out st \/
  (r = Ok tt /\ exists body, chan_out st' = chan_out st ++ envelope 7 body).
Proof.
  rewrite (bind_Ok _ _ st tt
             (set_write_buffer []
                (set_write_type (Some RPC_REPLY) (set_chan_open true st))))
    by reflexivity.
  set (sth := set_write_buffer _ _).
  unfold bind.
  pose proof (extends_write_bytes return_tags sth) as (_ & _ & _ & O1 & T1 & _).
  destruct (_write_bytes return_tags sth) as [[[]|x] s1]; cbn [snd] in O1, T1;
    [|intros [= <- <-]; left; exact O1].
  unfold bytearray_new.
  set (s2 := set_bytearrays _ s1).
  pose proof (extends_send fuel (List.length (bytearrays s1)) returned returned
                service s2) as (_ & _ & _ & O3 & T3 & _).
  destruct (_send_rpc_value fuel _ returned returned service s2) as [[[]|x] s3];
    cbn [snd] in O3, T3;
    [|intros [= <- <-]; left; rewrite O3; exact O1].
  assert (Hout : chan_out s3 = chan_out st) by (rewrite O3; exact O1).
  assert (Hty : _write_type s3 = Some RPC_REPLY) by (rewrite T3; exact T1).
  intros H. destruct r as [[]|x].
  - right. split; [reflexivity|].
    exists (concat (_write_buffer s3)).
    rewrite (_write_flush_Ok_inv s3 st' RPC_REPLY Hty H), Hout. reflexivity.
  - left. apply _write_flush_Raise in H. subst st'. exact Hout.
Qed.

(** X11.  On a channel that takes every write, [_serve_rpc] has, when it
    ends, written either nothing or, and then it has returned, exactly one
    envelope, of type [RPC_REPLY] or [RPC_EXCEPTION]: a reply whose
    construction fails, as when the returned value does not fit the return
    tags, is dropped as a whole, and the request is not answered twice. *)
Theorem serve_rpc_answers_at_most_once
    builtin_range call_service introspect (fuel : nat) embedding_map
    (st : state) (r : result unit) (st' : state) :
  _serve_rpc builtin_range call_service introspect fuel embedding_map st
    = (r, st') ->
  chan_out st' = chan_out st \/
  (r = Ok tt /\
   exists body, chan_out st' = chan_out st ++ envelope 7 body \/
                chan_out st' = chan_out st ++ envelope 8 body).
Proof.
  change (_serve_rpc builtin_range call_service introspect fuel
                     embedding_map st = (r, st') ->
          answered (chan_out st) r st').
  revert st r st'. unfold _serve_rpc.
  apply answered_after_silent; [apply silent_read_int32 | intros service_id].
  apply answered_after_silent.
  { destruct (service_id =? 0); [apply silent_ret | apply silent_lift]. }
  intros service.
  apply answered_after_silent; [apply silent_receive_rpc_args_loop|].
  intros [args kwargs].
  apply answered_after_silent; [apply silent_read_bytes | intros return_tags].
  intros st r st'. unfold try_except.
  match goal with
  | |- context [match ?body st with _ => _ end] =>
      assert (Hbody : forall rb stb,
                body st = (rb, stb) ->
                chan_out stb = chan_out st \/
                (rb = Ok tt /\
                 exists payload,
                   chan_out stb = chan_out st ++ envelope 7 payload));
      [| destruct (body st) as [rb stb] eqn:Eb;
         specialize (Hbody rb stb eq_refl)]
  end.
  { intros rb stb. unfold bind at 1, lift.
    destruct (call_service service args kwargs) as [result|x];
      [|intros [= <- <-]; left; reflexivity].
    destruct (negb (service_id =? 0));
      [apply reply_answered | intros [= <- <-]; left; reflexivity]. }
  destruct rb as [[]|x].
  - intros [= <- <-]. destruct Hbody as [H|(_ & payload & H)].
    + left. exact H.
    + right. split; [reflexivity|]. exists payload. left. exact H.
  - destruct Hbody as [Hout|(Habs & _)]; [|discriminate].
    destruct (is_Exception x).
    + intros H. rewrite <- Hout.
      exact (rpc_exception_handler_answered _ _ _ _ _ _ H).
    + intros [= <- <-]. left. exact Hout.
Qed.

Lemma serve_rpc_answers_at_most_once_witness :
  (* service 7 on the arguments i(2) i(3), with the return tags "i" *)
  let st := request [x00; x00; x00; x07;
                     x69; x00; x00; x00; x02; x69; x00; x00; x00; x03; x00;
                     x00; x00; x00; x01; x69] in
  let run := _serve_rpc example_range example_call_service example_introspect
                        3 example_embedding_map st in
  chan_out (snd run) = chan_out st \/
  (fst run = Ok tt /\
   exists body, chan_out (snd run) = chan_out st ++ envelope 7 body \/
                chan_out (snd run) = chan_out st ++ envelope 8 body).
Proof.
  intros st run.
  apply (serve_rpc_answers_at_most_once example_range example_call_service
           example_introspect 3 example_embedding_map st (fst run) (snd run)).
  apply surjective_pairing.
Defined.

(** ** A failing service does not end the loop *)

Lemma silent_modify_reader (f : state -> state) :
  (forall st, chan_out (f st) = chan_out st /\
              _write_buffer (f st) = _write_buffer st /\
              _write_type (f st) = _write_type st) ->
  silent (modify f).
Proof. intros H st. apply H. Qed.

Lemma silent_read_header : silent _read_header.
Proof.
  unfold _read_header.
  apply silent_bind; [apply silent_modify_reader; repeat split | intros _].
  apply silent_bind; [apply silent_gets | intros remaining].
  destruct (0 <? remaining); [apply silent_raise|].
  apply silent_bind.
  { intros st. unfold wait_sync. destruct (sync_loop 0 (chan_in st));
      repeat split. }
  intros _.
  apply silent_bind; [apply silent_read | intros data].
  apply silent_bind; [apply silent_lift | intros length].
  apply silent_bind; [apply silent_modify_reader; repeat split | intros _].
  destruct (length =? 0); [apply silent_raise|].
  apply silent_bind; [apply silent_read | intros data1].
  apply silent_bind; [apply silent_lift | intros raw_type].
  destruct (D2H_of_value raw_type); [|apply silent_raise].
  apply silent_bind; [apply silent_modify_reader; repeat split | intros _].
  destruct (length <? 9); [apply silent_raise|].
  apply silent_modify_reader; repeat split.
Qed.

(** X12.  An exception of a service that [except Exception] catches does
    not end [serve].  When the request at hand, for whatever service, has
    been read and the call raises an instance of [Exception] that the
    handler can describe (no [artiq_core_exception]; a class that is a
    well-known builtin or is stored by the embedding map; a traceback,
    whose line fits 32 bits; a name, a message, a file name and a function
    name without surrogates; a body that fits the length field),
    [_serve_rpc] returns normally after having written one
    [RPC_EXCEPTION] envelope that describes it, and [serve] goes on with
    the next message.  When the call raises what is not an instance of
    [Exception], nothing is written and [serve] ends with that
    exception. *)
Theorem serve_contains_service_exception
    builtin_range call_service introspect kernel_exception
    (turns fuel : nat) embedding_map (st st0 st1 st2 st3 : state)
    (service_id : Z) (service : pyval) (args : list pyval)
    (kwargs : gmap string pyval) (return_tags : list byte) :
  _read_header st = (Ok tt, st0) ->
  _read_type st0 = Some RPC_REQUEST ->
  _read_int32 st0 = (Ok service_id, st1) ->
  (if service_id =? 0 then Ok VSetattr
   else retrieve_object embedding_map service_id) = Ok service ->
  _receive_rpc_args builtin_range fuel fuel embedding_map st1
    = (Ok (args, kwargs), st2) ->
  _read_bytes st2 = (Ok return_tags, st3) ->
  (forall (h : host_exn) (name : string) (frame : frame_summary),
     call_service service args kwargs = Raise (HostException h) ->
     artiq_core_exception h = None ->
     exception_name embedding_map h = Ok name ->
     last (take 2 (exn_traceback h)) = Some frame ->
     encodable name = true ->
     encodable (exn_str h) = true ->
     encodable (tb_filename frame) = true ->
     encodable (tb_function frame) = true ->
     - 2 ^ 31 <= tb_line frame <= 2 ^ 31 - 1 ->
     let body := rpc_exception_body name (exn_str h) (tb_filename frame)
                   (tb_line frame) (-1) (tb_function frame) in
     9 + Z.of_nat (List.length body) <= 2 ^ 31 - 1 ->
     exists st',
       _serve_rpc builtin_range call_service introspect fuel embedding_map st0
         = (Ok tt, st') /\
       chan_out st' = chan_out st ++ envelope 8 body /\
       serve builtin_range call_service introspect kernel_exception
             (S turns) fuel embedding_map st
         = serve builtin_range call_service introspect kernel_exception
                 turns fuel embedding_map st') /\
  (forall h : host_exn,
     call_service service args kwargs = Raise (HostBaseException h) ->
     serve builtin_range call_service introspect kernel_exception
           (S turns) fuel embedding_map st
       = (Raise (HostBaseException h), st3) /\
     chan_out st3 = chan_out st).
Proof.
  intros Hhead Hty Hid Hservice Hargs Htags.
  assert (Hout : chan_out st3 = chan_out st).
  { destruct (silent_run _ _ _ _ silent_read_header Hhead) as (A & _).
    destruct (silent_run _ _ _ _ silent_read_int32 Hid) as (B & _).
    destruct (silent_run _ _ _ _
                (silent_receive_rpc_args_loop builtin_range fuel fuel
                   embedding_map [] ∅) Hargs) as (C & _).
    destruct (silent_run _ _ _ _ silent_read_bytes Htags) as (D & _).
    congruence. }
  assert (Hrpc : forall e : exn,
            call_service service args kwargs = Raise e ->
            _serve_rpc builtin_range call_service introspect fuel
                       embedding_map st0
              = if is_Exception e
                then rpc_exception_handler introspect embedding_map e st3
                else (Raise e, st3)).
  { intros e Hcall. unfold _serve_rpc. rewrite (bind_Ok _ _ _ _ _ Hid).
    rewrite (bind_Ok _ _ st1 service st1).
    2:{ destruct (service_id =? 0); [injection Hservice as <-|];
          [reflexivity | unfold lift; rewrite Hservice; reflexivity]. }
    rewrite (bind_Ok _ _ _ _ _ Hargs).
    rewrite (bind_Ok _ _ _ _ _ Htags).
    unfold try_except, bind at 1, lift. rewrite Hcall. reflexivity. }
  assert (Hserve : forall r st',
            _serve_rpc builtin_range call_service introspect fuel
                       embedding_map st0 = (r, st') ->
            serve builtin_range call_service introspect kernel_exception
                  (S turns) fuel embedding_map st
              = bind (fun _ => (r, st'))
                     (fun _ => serve builtin_range call_service introspect
                                     kernel_exception turns fuel embedding_map)
                     st0).
  { intros r st' E. cbn [serve]. rewrite (bind_Ok _ _ _ _ _ Hhead).
    rewrite (bind_Ok _ _ st0 (_read_type st0) st0) by reflexivity.
    rewrite Hty.
    destruct (decide (Some RPC_REQUEST = Some RPC_REQUEST)); [|congruence].
    unfold bind at 1. rewrite E. reflexivity. }
  split.
  - intros h name frame Hcall Hcore Hname Hlast Hen Hes Hef Heu Hline
           body Hlen.
    destruct (rpc_exception_handler_plain introspect embedding_map h name
                frame st3 Hcore Hname Hlast Hen Hes Hef Heu Hline Hlen)
      as (st' & Hok & Hbody).
    specialize (Hrpc _ Hcall). cbn [is_Exception] in Hrpc.
    rewrite Hok in Hrpc.
    exists st'. split; [exact Hrpc|]. split.
    + rewrite Hbody, Hout. reflexivity.
    + rewrite (Hserve _ _ Hrpc). reflexivity.
  - intros h Hcall. specialize (Hrpc _ Hcall). cbn [is_Exception] in Hrpc.
    split; [|exact Hout].
    rewrite (Hserve _ _ Hrpc). reflexivity.
Qed.

Lemma serve_contains_service_exception_witness :
  (* a request for service 7 with the single argument i(2): the call raises
     ValueError("bad"); a KERNEL_FINISHED message follows *)
  let st := init (envelope 10 [x00; x00; x00; x07;
                               x69; x00; x00; x00; x02; x00;
                               x00; x00; x00; x01; x6e]
                  ++ envelope 7 []) in
  let kernel_exception :=
    fun (_ : EmbeddingMap) (_ _ : string) (_ : list Z) (_ : string)
        (_ _ : Z) (_ : string) (_ : list Z) => AssertionError in
  exists st',
    _serve_rpc example_range example_call_service example_introspect 3
               example_embedding_map (snd (_read_header st)) = (Ok tt, st') /\
    chan_out st' =
      chan_out st ++
      envelope 8 (rpc_exception_body "0:ValueError" "bad" "services.py" 3 (-1)
                                     "service") /\
    serve example_range example_call_service example_introspect
          kernel_exception 2 3 example_embedding_map st
      = serve example_range example_call_service example_introspect
              kernel_exception 1 3 example_embedding_map st'.
Proof.
  intros st kernel_exception.
  assert (H0 : _read_header st = (Ok tt, snd (_read_header st))).
  { vm_compute; reflexivity. }
  set (st0 := snd (_read_header st)) in *.
  assert (H1 : _read_int32 st0 = (Ok 7, snd (_read_int32 st0))).
  { vm_compute; reflexivity. }
  set (st1 := snd (_read_int32 st0)) in H1.
  assert (H2 : _receive_rpc_args example_range 3 3 example_embedding_map st1
               = (Ok ([VWrapInt 2 32], ∅),
                  snd (_receive_rpc_args example_range 3 3
                         example_embedding_map st1))).
  { vm_compute; reflexivity. }
  set (st2 := snd (_receive_rpc_args _ _ _ _ st1)) in H2.
  assert (H3 : _read_bytes st2 = (Ok [x6e], snd (_read_bytes st2))).
  { vm_compute; reflexivity. }
  apply (proj1 (serve_contains_service_exception example_range
                  example_call_service example_introspect kernel_exception
                  1 3 example_embedding_map st st0 st1 st2 _ 7 (VObject 7)
                  [VWrapInt 2 32] ∅ [x6e] H0 eq_refl H1 eq_refl H2 H3)
           ValueError_bad "0:ValueError"%string
           (mkFrame "services.py" 3 "service")
           eq_refl eq_refl eq_refl eq_refl eq_refl eq_refl eq_refl eq_refl).
  - vm_compute; split; discriminate.
  - vm_compute; discriminate.
Defined.

(** ** Control operations: one request, one reply *)

Lemma D2H_of_value_value (ty : _D2HMsgType) :
  D2H_of_value (Z_of_byte (byte_of_Z (D2H_value ty))) = Some ty.
Proof. destruct ty; reflexivity. Qed.

Lemma reply_header (got : _D2HMsgType) (body rest : list byte) (st : state) :
  _read_length st <= 0 ->
  9 + Z.of_nat (List.length body) <= 2 ^ 31 - 1 ->
  chan_in st = envelope (D2H_value got) body ++ rest ->
  _read_header st =
    (Ok tt,
     set_read_length (Z.of_nat (List.length body))
       (set_read_type (Some got)
          (set_chan_in (body ++ rest) (set_chan_open true st)))).
Proof.
  intros Hrl Hlen Hin.
  apply (_read_header_envelope_in (D2H_value got));
    [exact Hrl | exact Hlen | apply D2H_of_value_value | exact Hin].
Qed.

Lemma _read_expect_run (expected : _D2HMsgType) (st : state) :
  _read_expect expected st
    = (if decide (_read_type st = Some expected) then Ok tt
       else Raise (IOError_IncorrectReply (_read_type st) expected), st).
Proof. unfold _read_expect, bind, gets. destruct (decide _); reflexivity. Qed.

Lemma _read_expect_run_bind {B} (expected : _D2HMsgType) (k : M B)
    (st : state) :
  (_read_expect expected >> k) st
    = if decide (_read_type st = Some expected) then k st
      else (Raise (IOError_IncorrectReply (_read_type st) expected), st).
Proof.
  unfold bind at 1. rewrite _read_expect_run. destruct (decide _); reflexivity.
Qed.

Lemma _read_empty_reply (expected got : _D2HMsgType) (body rest : list byte)
    (st : state) :
  _read_length st <= 0 ->
  9 + Z.of_nat (List.length body) <= 2 ^ 31 - 1 ->
  chan_in st = envelope (D2H_value got) body ++ rest ->
  _read_empty expected st =
    (if decide (got = expected) then Ok tt
     else Raise (IOError_IncorrectReply (Some got) expected),
     set_read_length (Z.of_nat (List.length body))
       (set_read_type (Some got)
          (set_chan_in (body ++ rest) (set_chan_open true st)))).
Proof.
  intros Hrl Hlen Hin. unfold _read_empty.
  rewrite (bind_Ok _ _ _ _ _ (reply_header got body rest st Hrl Hlen Hin)).
  rewrite _read_expect_run. cbn [_read_type set_read_length set_read_type].
  destruct (decide (got = expected)) as [->|Hne].
  - destruct (decide (Some expected = Some expected)); [reflexivity|congruence].
  - destruct (decide (Some got = Some expected)); [congruence|reflexivity].
Qed.

(** X13.  [_read_empty] checks the type of the message it reads and nothing
    else: a message of the expected type is accepted with its body left
    unread, and when that body is not empty the next [_read_header] fails
    with the underrun error that counts the bytes left.  A message of
    another type fails with the incorrect-reply error. *)
Theorem read_empty_leaves_body (expected got : _D2HMsgType)
    (body rest : list byte) (st : state) :
  _read_length st <= 0 ->
  9 + Z.of_nat (List.length body) <= 2 ^ 31 - 1 ->
  chan_in st = envelope (D2H_value got) body ++ rest ->
  let run := _read_empty expected st in
  (got = expected ->
   fst run = Ok tt /\
   chan_in (snd run) = body ++ rest /\
   (body <> [] ->
    fst (_read_header (snd run))
      = Raise (IOError_ReadUnderrun (Z.of_nat (List.length body))))) /\
  (got <> expected ->
   fst run = Raise (IOError_IncorrectReply (Some got) expected)).
Proof.
  intros Hrl Hlen Hin run. subst run.
  rewrite (_read_empty_reply expected got body rest st Hrl Hlen Hin).
  cbn [fst snd]. split.
  - intros ->. destruct (decide (expected = expected)); [|congruence].
    split; [reflexivity|]. split; [reflexivity|].
    intros Hbody. rewrite _read_header_underrun; [reflexivity|].
    cbn [_read_length set_read_length]. destruct body; [congruence|].
    cbn [List.length]. lia.
  - intros Hne. destruct (decide (got = expected)); [congruence|reflexivity].
Qed.

Lemma read_empty_leaves_body_witness :
  (* a CLOCK_SWITCH_COMPLETED message that carries one byte *)
  let run := _read_empty CLOCK_SWITCH_COMPLETED (init (envelope 3 [x2a])) in
  fst run = Ok tt /\
  chan_in (snd run) = [x2a] /\
  fst (_read_header (snd run)) = Raise (IOError_ReadUnderrun 1).
Proof.
  intros run.
  destruct (read_empty_leaves_body CLOCK_SWITCH_COMPLETED
              CLOCK_SWITCH_COMPLETED [x2a] [] (init (envelope 3 [x2a])))
    as [H _].
  - vm_compute. discriminate.
  - vm_compute. discriminate.
  - reflexivity.
  - destruct (H eq_refl) as (H1 & H2 & H3).
    split; [exact H1|]. split; [exact H2|]. apply H3. discriminate.
Defined.

Lemma header_then {B} (ty : _H2DMsgType) (k : M B) (st : state) :
  (_write_header ty >> k) st
    = k (set_write_buffer []
           (set_write_type (Some ty) (set_chan_open true st))).
Proof. reflexivity. Qed.

Lemma appends_then {B} (c : M unit) (chunks : list (list byte)) (k : M B)
    (st : state) :
  appends c chunks ->
  (c >> k) st = k (set_write_buffer (_write_buffer st ++ chunks) st).
Proof. intros H. unfold bind. rewrite (H st). reflexivity. Qed.

Lemma flush_then {B} (ty : _H2DMsgType) (k : M B) (st : state) :
  _write_type st = Some ty ->
  9 + Z.of_nat (List.length (concat (_write_buffer st))) <= 2 ^ 31 - 1 ->
  (_write_flush >> k) st
    = k (set_chan_out
           (chan_out st ++ envelope (H2D_value ty) (concat (_write_buffer st)))
           st).
Proof.
  intros Hty Hlen. unfold bind. rewrite (_write_flush_run st ty Hty Hlen).
  reflexivity.
Qed.

Lemma appends_write_int8 (v : Z) :
  0 <= v <= 255 -> appends (_write_int8 v) [[byte_of_Z v]].
Proof.
  intros Hv st. unfold _write_int8. rewrite pack_B_in_range by exact Hv.
  reflexivity.
Qed.

Lemma appends_write_chunk (chunk : list byte) :
  appends (_write_chunk chunk) [chunk].
Proof. intros st. reflexivity. Qed.

(** X14.  [switch_clock] sends one [SWITCH_CLOCK] message whose body is the
    flag on one byte, and then accepts a [CLOCK_SWITCH_COMPLETED] message
    only: every other reply, [CLOCK_SWITCH_FAILED] included, ends in the
    incorrect-reply error.  A flag that does not fit a byte fails in
    [struct.pack] before anything is sent or read. *)
Theorem switch_clock_outcomes (external : Z) (got : _D2HMsgType)
    (body rest : list byte) (st : state) :
  _read_length st <= 0 ->
  9 + Z.of_nat (List.length body) <= 2 ^ 31 - 1 ->
  chan_in st = envelope (D2H_value got) body ++ rest ->
  let run := switch_clock external st in
  (0 <= external <= 255 ->
   chan_out (snd run) = chan_out st ++ envelope 4 [byte_of_Z external] /\
   (got = CLOCK_SWITCH_COMPLETED -> fst run = Ok tt) /\
   (got <> CLOCK_SWITCH_COMPLETED ->
    fst run = Raise (IOError_IncorrectReply (Some got) CLOCK_SWITCH_COMPLETED)))
  /\
  (~ 0 <= external <= 255 ->
   fst run = Raise struct_error /\
   chan_out (snd run) = chan_out st /\ chan_in (snd run) = chan_in st).
Proof.
  intros Hrl Hlen Hin run. subst run. unfold switch_clock.
  rewrite header_then. split.
  - intros Hv.
    rewrite (appends_then _ _ _ _ (appends_write_int8 external Hv)).
    rewrite (flush_then SWITCH_CLOCK) by (cbn; try reflexivity; lia).
    rewrite (_read_empty_reply CLOCK_SWITCH_COMPLETED got body rest)
      by assumption.
    cbn [fst snd]. split; [reflexivity|]. split.
    + intros ->. reflexivity.
    + intros Hne. destruct (decide (got = CLOCK_SWITCH_COMPLETED));
        [congruence|reflexivity].
  - intros Hv.
    rewrite (bind_Raise _ _ _ struct_error
               (set_write_buffer []
                  (set_write_type (Some SWITCH_CLOCK) (set_chan_open true st)))).
    + repeat split.
    + unfold _write_int8, bind, lift, pack_B.
      destruct (Z.leb_spec 0 external); destruct (Z.leb_spec external 255);
        cbn [andb]; try lia; reflexivity.
Qed.

Lemma switch_clock_outcomes_witness :
  let st := init (envelope 4 []) in
  chan_out (snd (switch_clock 1 st)) = envelope 4 [x01] /\
  fst (switch_clock 1 st)
    = Raise (IOError_IncorrectReply (Some CLOCK_SWITCH_FAILED)
                                    CLOCK_SWITCH_COMPLETED).
Proof.
  intros st.
  destruct (switch_clock_outcomes 1 CLOCK_SWITCH_FAILED [] [] st) as [H _].
  - vm_compute. discriminate.
  - vm_compute. discriminate.
  - reflexivity.
  - destruct H as (H1 & _ & H3); [lia|].
    split; [exact H1 | apply H3; discriminate].
Defined.

Lemma _write_string_unencodable {B} (value : string) (k : M B) (st : state) :
  encodable value = false ->
  (_write_string value >> k) st = (Raise UnicodeEncodeError, st).
Proof.
  intros H. unfold _write_string, str_encode, bind, lift. rewrite H.
  reflexivity.
Qed.

Lemma flash_storage_write_run (key : string) (value : list byte)
    (got : _D2HMsgType) (body rest : list byte) (st : state) :
  encodable key = true ->
  9 + Z.of_nat (List.length (wire_string key))
    + 4 + Z.of_nat (List.length value) <= 2 ^ 31 - 1 ->
  _read_length st <= 0 ->
  9 + Z.of_nat (List.length body) <= 2 ^ 31 - 1 ->
  chan_in st = envelope (D2H_value got) body ++ rest ->
  let run := flash_storage_write key value st in
  chan_out (snd run)
    = chan_out st
      ++ envelope 10 (wire_string key
                      ++ be_encode 4 (Z.of_nat (List.length value)) ++ value) /\
  (got = FLASH_OK_REPLY -> fst run = Ok tt) /\
  (got = FLASH_ERROR_REPLY -> fst run = Raise IOError_FlashFull) /\
  (got <> FLASH_OK_REPLY -> got <> FLASH_ERROR_REPLY ->
   fst run = Raise (IOError_IncorrectReply (Some got) FLASH_OK_REPLY)).
Proof.
  intros Henc Hsize Hrl Hlen Hin run. subst run. unfold flash_storage_write.
  assert (Hkey : Z.of_nat (List.length (wire_string key))
                 = 4 + (Z.of_nat (List.length (encode_utf8 key)) + 1)).
  { unfold wire_string. rewrite !length_app, be_encode_length.
    cbn [List.length]. lia. }
  rewrite header_then.
  rewrite (appends_then _ _ _ _ (appends_write_string_blob key Henc ltac:(lia))).
  rewrite (appends_then _ _ _ _ (appends_write_bytes value ltac:(lia))).
  cbn [_write_buffer set_write_buffer app].
  rewrite (flush_then FLASH_WRITE_REQUEST); [|reflexivity|].
  2:{ cbn [_write_buffer set_write_buffer concat].
      rewrite app_nil_r, !length_app, !be_encode_length.
      cbn [List.length]. lia. }
  cbn [_write_buffer set_write_buffer concat chan_out set_write_type
       set_chan_open].
  rewrite app_nil_r.
  match goal with
  | |- context [bind _read_header ?k ?s] =>
      rewrite (bind_Ok _read_header k s tt _
                 (reply_header got body rest s Hrl Hlen Hin))
  end.
  match goal with
  | |- context [bind (gets _read_type) ?k ?s] =>
      rewrite (bind_Ok (gets _read_type) k s (Some got) s) by reflexivity
  end.
  split.
  { destruct (decide (Some got = Some FLASH_ERROR_REPLY));
      [|rewrite _read_expect_run]; cbn [snd chan_out set_read_length
        set_read_type set_chan_in set_chan_open set_chan_out];
      unfold wire_string; rewrite <- !app_assoc; reflexivity. }
  split; [|split].
  - intros ->.
    destruct (decide (Some FLASH_OK_REPLY = Some FLASH_ERROR_REPLY));
      [discriminate|].
    rewrite _read_expect_run. reflexivity.
  - intros ->.
    destruct (decide (Some FLASH_ERROR_REPLY = Some FLASH_ERROR_REPLY));
      [reflexivity|congruence].
  - intros Hok Herr.
    destruct (decide (Some got = Some FLASH_ERROR_REPLY)); [congruence|].
    rewrite _read_expect_run. cbn [_read_type set_read_length set_read_type].
    destruct (decide (Some got = Some FLASH_OK_REPLY)); [congruence|].
    reflexivity.
Qed.

(** X15.  [flash_storage_write] with a key that holds no surrogate sends
    one [FLASH_WRITE_REQUEST] message whose body is the key as a string
    and the value as a byte string.  It returns on [FLASH_OK_REPLY],
    raises the "Flash storage is full" error on [FLASH_ERROR_REPLY], and
    fails with the incorrect-reply error on every other reply.  With a key
    that holds a surrogate it fails with [UnicodeEncodeError] before
    anything is sent or read. *)
Theorem flash_storage_write_outcomes (key : string) (value : list byte)
    (got : _D2HMsgType) (body rest : list byte) (st : state) :
  9 + Z.of_nat (List.length (wire_string key))
    + 4 + Z.of_nat (List.length value) <= 2 ^ 31 - 1 ->
  _read_length st <= 0 ->
  9 + Z.of_nat (List.length body) <= 2 ^ 31 - 1 ->
  chan_in st = envelope (D2H_value got) body ++ rest ->
  let run := flash_storage_write key value st in
  (encodable key = true ->
   chan_out (snd run)
     = chan_out st
       ++ envelope 10 (wire_string key
                       ++ be_encode 4 (Z.of_nat (List.length value)) ++ value)
   /\
   (got = FLASH_OK_REPLY -> fst run = Ok tt) /\
   (got = FLASH_ERROR_REPLY -> fst run = Raise IOError_FlashFull) /\
   (got <> FLASH_OK_REPLY -> got <> FLASH_ERROR_REPLY ->
    fst run = Raise (IOError_IncorrectReply (Some got) FLASH_OK_REPLY))) /\
  (encodable key = false ->
   fst run = Raise UnicodeEncodeError /\
   chan_out (snd run) = chan_out st /\ chan_in (snd run) = chan_in st).
Proof.
  intros Hsize Hrl Hlen Hin run. split.
  - intros Henc.
    exact (flash_storage_write_run key value got body rest st Henc Hsize Hrl
             Hlen Hin).
  - intros Henc. subst run. unfold flash_storage_write.
    rewrite header_then, (_write_string_unencodable key _ _ Henc).
    repeat split.
Qed.

Lemma flash_storage_write_outcomes_witness :
  (* the device answers FLASH_ERROR_REPLY *)
  let st := init (envelope 13 []) in
  chan_out (snd (flash_storage_write "k" [xaa] st))
    = envelope 10 [x00; x00; x00; x02; x6b; x00; x00; x00; x00; x01; xaa] /\
  fst (flash_storage_write "k" [xaa] st) = Raise IOError_FlashFull.
Proof.
  intros st.
  destruct (flash_storage_write_outcomes "k" [xaa] FLASH_ERROR_REPLY [] [] st)
    as (H & _).
  - vm_compute. discriminate.
  - vm_compute. discriminate.
  - vm_compute. discriminate.
  - reflexivity.
  - destruct (H eq_refl) as (H1 & _ & H3 & _).
    split; [exact H1 | exact (H3 eq_refl)].
Defined.

Lemma flash_storage_read_run (key : string) (got : _D2HMsgType)
    (body rest : list byte) (st : state) :
  encodable key = true ->
  9 + Z.of_nat (List.length (wire_string key)) <= 2 ^ 31 - 1 ->
  _read_length st <= 0 ->
  9 + Z.of_nat (List.length body) <= 2 ^ 31 - 1 ->
  chan_in st = envelope (D2H_value got) body ++ rest ->
  let run := flash_storage_read key st in
  chan_out (snd run) = chan_out st ++ envelope 9 (wire_string key) /\
  (got = FLASH_READ_REPLY ->
   fst run = Ok body /\ chan_in (snd run) = rest /\
   _read_length (snd run) = 0) /\
  (got <> FLASH_READ_REPLY ->
   fst run = Raise (IOError_IncorrectReply (Some got) FLASH_READ_REPLY)).
Proof.
  intros Henc Hsize Hrl Hlen Hin run. subst run. unfold flash_storage_read.
  assert (Hkey : Z.of_nat (List.length (wire_string key))
                 = 4 + (Z.of_nat (List.length (encode_utf8 key)) + 1)).
  { unfold wire_string. rewrite !length_app, be_encode_length.
    cbn [List.length]. lia. }
  rewrite header_then.
  rewrite (appends_then _ _ _ _ (appends_write_string_blob key Henc ltac:(lia))).
  cbn [_write_buffer set_write_buffer app].
  rewrite (flush_then FLASH_READ_REQUEST); [|reflexivity|].
  2:{ cbn [_write_buffer set_write_buffer concat].
      rewrite app_nil_r, !length_app, !be_encode_length.
      cbn [List.length]. lia. }
  cbn [_write_buffer set_write_buffer concat chan_out set_write_type
       set_chan_open].
  rewrite app_nil_r.
  match goal with
  | |- context [bind _read_header ?k ?s] =>
      rewrite (bind_Ok _read_header k s tt _
                 (reply_header got body rest s Hrl Hlen Hin))
  end.
  rewrite _read_expect_run_bind.
  cbn [_read_type set_read_length set_read_type].
  destruct (decide (Some got = Some FLASH_READ_REPLY)) as [E|E].
  - match goal with
    | |- context [bind (gets _read_length) ?k ?s] =>
        rewrite (bind_Ok (gets _read_length) k s
                   (Z.of_nat (List.length body)) s) by reflexivity
    end.
    rewrite (_read_chunk_exact body rest) by reflexivity.
    cbn [fst snd chan_out chan_in _read_length set_read_length set_read_type
         set_chan_in set_chan_open set_chan_out].
    split; [unfold wire_string; rewrite <- ?app_assoc; reflexivity|].
    split; [intros _; repeat split | congruence].
  - cbn [fst snd chan_out set_read_length set_read_type set_chan_in
         set_chan_open set_chan_out].
    split; [unfold wire_string; rewrite <- ?app_assoc; reflexivity|].
    split; [congruence | reflexivity].
Qed.

(** X16.  [flash_storage_read] with a key that holds no surrogate sends
    one [FLASH_READ_REQUEST] message whose body is the key as a string.
    On a [FLASH_READ_REPLY] it returns the whole body of the reply,
    whatever its length (the empty byte string for an empty body), and
    leaves nothing of the message unread; on every other reply it fails
    with the incorrect-reply error.  With a key that holds a surrogate it
    fails with [UnicodeEncodeError] before anything is sent or read. *)
Theorem flash_storage_read_returns_body (key : string) (got : _D2HMsgType)
    (body rest : list byte) (st : state) :
  9 + Z.of_nat (List.length (wire_string key)) <= 2 ^ 31 - 1 ->
  _read_length st <= 0 ->
  9 + Z.of_nat (List.length body) <= 2 ^ 31 - 1 ->
  chan_in st = envelope (D2H_value got) body ++ rest ->
  let run := flash_storage_read key st in
  (encodable key = true ->
   chan_out (snd run) = chan_out st ++ envelope 9 (wire_string key) /\
   (got = FLASH_READ_REPLY ->
    fst run = Ok body /\ chan_in (snd run) = rest /\
    _read_length (snd run) = 0) /\
   (got <> FLASH_READ_REPLY ->
    fst run = Raise (IOError_IncorrectReply (Some got) FLASH_READ_REPLY))) /\
  (encodable key = false ->
   fst run = Raise UnicodeEncodeError /\
   chan_out (snd run) = chan_out st /\ chan_in (snd run) = chan_in st).
Proof.
  intros Hsize Hrl Hlen Hin run. split.
  - intros Henc.
    exact (flash_storage_read_run key got body rest st Henc Hsize Hrl Hlen
             Hin).
  - intros Henc. subst run. unfold flash_storage_read.
    rewrite header_then, (_write_string_unencodable key _ _ Henc).
    repeat split.
Qed.

Lemma flash_storage_read_returns_body_witness :
  (* the device answers with an empty body, as for a key it does not hold *)
  let st := init (envelope 11 []) in
  chan_out (snd (flash_storage_read "k" st))
    = envelope 9 [x00; x00; x00; x02; x6b; x00] /\
  fst (flash_storage_read "k" st) = Ok [].
Proof.
  intros st.
  destruct (flash_storage_read_returns_body "k" FLASH_READ_REPLY [] [] st)
    as (H & _).
  - vm_compute. discriminate.
  - vm_compute. discriminate.
  - vm_compute. discriminate.
  - reflexivity.
  - destruct (H eq_refl) as (H1 & H2 & _).
    split; [exact H1 | exact (proj1 (H2 eq_refl))].
Defined.

Lemma command_run_eq (ty : _H2DMsgType) (c : M unit)
    (chunks : list (list byte)) (expected got : _D2HMsgType)
    (body rest : list byte) (st : state) :
  appends c chunks ->
  9 + Z.of_nat (List.length (concat chunks)) <= 2 ^ 31 - 1 ->
  _read_length st <= 0 ->
  9 + Z.of_nat (List.length body) <= 2 ^ 31 - 1 ->
  chan_in st = envelope (D2H_value got) body ++ rest ->
  (_write_header ty >> c >> _write_flush >> _read_empty expected) st
    = (if decide (got = expected) then Ok tt
       else Raise (IOError_IncorrectReply (Some got) expected),
       set_read_length (Z.of_nat (List.length body))
         (set_read_type (Some got)
            (set_chan_in (body ++ rest)
               (set_chan_open true
                  (set_chan_out
                     (chan_out st ++ envelope (H2D_value ty) (concat chunks))
                     (set_write_buffer chunks
                        (set_write_type (Some ty)
                           (set_chan_open true st)))))))).
Proof.
  intros Hc Hsize Hrl Hlen Hin.
  rewrite header_then, (appends_then _ _ _ _ Hc).
  cbn [_write_buffer set_write_buffer app].
  rewrite (flush_then ty) by (try reflexivity; exact Hsize).
  rewrite (_read_empty_reply expected got body rest) by assumption.
  reflexivity.
Qed.

Lemma command_run (ty : _H2DMsgType) (c : M unit) (chunks : list (list byte))
    (expected got : _D2HMsgType) (body rest : list byte) (st : state) :
  appends c chunks ->
  9 + Z.of_nat (List.length (concat chunks)) <= 2 ^ 31 - 1 ->
  _read_length st <= 0 ->
  9 + Z.of_nat (List.length body) <= 2 ^ 31 - 1 ->
  chan_in st = envelope (D2H_value got) body ++ rest ->
  let run := (_write_header ty >> c >> _write_flush >> _read_empty expected) st in
  chan_out (snd run) = chan_out st ++ envelope (H2D_value ty) (concat chunks) /\
  (got = expected -> fst run = Ok tt) /\
  (got <> expected ->
   fst run = Raise (IOError_IncorrectReply (Some got) expected)).
Proof.
  intros Hc Hsize Hrl Hlen Hin run. subst run.
  rewrite (command_run_eq ty c chunks expected got body rest st)
    by assumption.
  cbn [fst snd]. split; [reflexivity|]. split.
  - intros ->. destruct (decide (expected = expected)); [reflexivity|congruence].
  - intros Hne. destruct (decide (got = expected)); [congruence|reflexivity].
Qed.

(** X17.  [load] sends the kernel library as the whole body of one
    [LOAD_LIBRARY] message, with no length in front, and accepts a
    [LOAD_COMPLETED] message only; [LOAD_FAILED], as every other reply,
    ends in the incorrect-reply error.  When [run] follows a [load] that
    returned, the [RUN_KERNEL] message, with an empty body, comes right
    after the library and no reply is awaited; after a [load] that raised
    nothing more is sent. *)
Theorem load_then_run (kernel_library : list byte) (got : _D2HMsgType)
    (body rest : list byte) (st : state) :
  9 + Z.of_nat (List.length kernel_library) <= 2 ^ 31 - 1 ->
  _read_length st <= 0 ->
  9 + Z.of_nat (List.length body) <= 2 ^ 31 - 1 ->
  chan_in st = envelope (D2H_value got) body ++ rest ->
  let loaded := load kernel_library st in
  let started := (load kernel_library >> run) st in
  chan_out (snd loaded) = chan_out st ++ envelope 5 kernel_library /\
  (got = LOAD_COMPLETED ->
   fst loaded = Ok tt /\ fst started = Ok tt /\
   chan_out (snd started)
     = chan_out st ++ envelope 5 kernel_library ++ envelope 6 [] /\
   chan_in (snd started) = body ++ rest) /\
  (got <> LOAD_COMPLETED ->
   fst loaded = Raise (IOError_IncorrectReply (Some got) LOAD_COMPLETED) /\
   started = loaded).
Proof.
  intros Hsize Hrl Hlen Hin loaded started.
  assert (Hsize' : 9 + Z.of_nat (List.length (concat [kernel_library]))
                   <= 2 ^ 31 - 1).
  { cbn [concat]. rewrite app_nil_r. exact Hsize. }
  pose proof (command_run_eq LOAD_LIBRARY (_write_chunk kernel_library)
                [kernel_library] LOAD_COMPLETED got body rest st
                (appends_write_chunk kernel_library) Hsize' Hrl Hlen Hin)
    as E.
  fold (load kernel_library) in E. cbn [concat] in E.
  rewrite app_nil_r in E.
  subst loaded started. rewrite E. cbn [fst snd].
  split; [reflexivity|]. split.
  - intros ->.
    destruct (decide (LOAD_COMPLETED = LOAD_COMPLETED)); [|congruence].
    rewrite (bind_Ok _ _ _ _ _ E). unfold run. rewrite _write_empty_run.
    cbn [fst snd chan_out chan_in set_chan_out set_write_buffer set_write_type
         set_chan_open set_read_length set_read_type set_chan_in].
    rewrite <- app_assoc. repeat split.
  - intros Hne. destruct (decide (got = LOAD_COMPLETED)); [congruence|].
    split; [reflexivity|]. apply (bind_Raise _ _ _ _ _ E).
Qed.

Lemma load_then_run_witness :
  (* a library of two bytes; the device answers LOAD_COMPLETED *)
  let st := init (envelope 5 []) in
  fst ((load [x7f; x45] >> run) st) = Ok tt /\
  chan_out (snd ((load [x7f; x45] >> run) st))
    = envelope 5 [x7f; x45] ++ envelope 6 [].
Proof.
  intros st.
  destruct (load_then_run [x7f; x45] LOAD_COMPLETED [] [] st)
    as (_ & H & _).
  - vm_compute. discriminate.
  - vm_compute. discriminate.
  - vm_compute. discriminate.
  - reflexivity.
  - destruct (H eq_refl) as (_ & H2 & H3 & _). split; [exact H2 | exact H3].
Defined.

(** X18.  The commands without a result send one message and accept one
    type of reply: [clear_log] sends [LOG_CLEAR] with an empty body and
    expects [LOG_REPLY]; [flash_storage_erase] sends [FLASH_ERASE_REQUEST]
    with an empty body and [flash_storage_remove] sends
    [FLASH_REMOVE_REQUEST] with the key, when it holds no surrogate, as a
    string, and both expect [FLASH_OK_REPLY].  Every other reply ends in
    the incorrect-reply error: unlike [flash_storage_write], these two
    report a [FLASH_ERROR_REPLY] as an incorrect reply.  With a key that
    holds a surrogate [flash_storage_remove] fails with
    [UnicodeEncodeError] before anything is sent or read. *)
Theorem commands_expect_one_reply (key : string) (got : _D2HMsgType)
    (body rest : list byte) (st : state) :
  9 + Z.of_nat (List.length (wire_string key)) <= 2 ^ 31 - 1 ->
  _read_length st <= 0 ->
  9 + Z.of_nat (List.length body) <= 2 ^ 31 - 1 ->
  chan_in st = envelope (D2H_value got) body ++ rest ->
  (chan_out (snd (clear_log st)) = chan_out st ++ envelope 2 [] /\
   (got = LOG_REPLY -> fst (clear_log st) = Ok tt) /\
   (got <> LOG_REPLY ->
    fst (clear_log st) = Raise (IOError_IncorrectReply (Some got) LOG_REPLY)))
  /\
  (chan_out (snd (flash_storage_erase st)) = chan_out st ++ envelope 11 [] /\
   (got = FLASH_OK_REPLY -> fst (flash_storage_erase st) = Ok tt) /\
   (got <> FLASH_OK_REPLY ->
    fst (flash_storage_erase st)
      = Raise (IOError_IncorrectReply (Some got) FLASH_OK_REPLY)))
  /\
  (encodable key = true ->
   chan_out (snd (flash_storage_remove key st))
     = chan_out st ++ envelope 12 (wire_string key) /\
   (got = FLASH_OK_REPLY -> fst (flash_storage_remove key st) = Ok tt) /\
   (got <> FLASH_OK_REPLY ->
    fst (flash_storage_remove key st)
      = Raise (IOError_IncorrectReply (Some got) FLASH_OK_REPLY)))
  /\
  (encodable key = false ->
   fst (flash_storage_remove key st) = Raise UnicodeEncodeError /\
   chan_out (snd (flash_storage_remove key st)) = chan_out st /\
   chan_in (snd (flash_storage_remove key st)) = chan_in st).
Proof.
  intros Hsize Hrl Hlen Hin.
  assert (Hempty : forall ty expected,
            let run := (_write_empty ty >> _read_empty expected) st in
            chan_out (snd run) = chan_out st ++ envelope (H2D_value ty) [] /\
            (got = expected -> fst run = Ok tt) /\
            (got <> expected ->
             fst run = Raise (IOError_IncorrectReply (Some got) expected))).
  { intros ty expected run. subst run.
    rewrite (bind_Ok _ _ _ _ _ (_write_empty_run ty st)).
    rewrite (_read_empty_reply expected got body rest) by assumption.
    cbn [fst snd]. split; [reflexivity|]. split.
    - intros ->.
      destruct (decide (expected = expected)); [reflexivity|congruence].
    - intros Hne. destruct (decide (got = expected)); [congruence|reflexivity]. }
  split; [exact (Hempty LOG_CLEAR LOG_REPLY)|].
  split; [exact (Hempty FLASH_ERASE_REQUEST FLASH_OK_REPLY)|].
  split.
  2:{ intros Henc. unfold flash_storage_remove.
      rewrite header_then, (_write_string_unencodable key _ _ Henc).
      repeat split. }
  intros Henc.
  assert (Hkey : Z.of_nat (List.length (wire_string key))
                 = 4 + (Z.of_nat (List.length (encode_utf8 key)) + 1)).
  { unfold wire_string. rewrite !length_app, be_encode_length.
    cbn [List.length]. lia. }
  destruct (command_run FLASH_REMOVE_REQUEST (_write_string key) _
              FLASH_OK_REPLY got body rest st
              (appends_write_string_blob key Henc ltac:(lia)))
    as (Hout & Hok & Herr); try assumption.
  { cbn [concat]. rewrite app_nil_r. fold (wire_string key). exact Hsize. }
  cbn [concat] in Hout. rewrite app_nil_r in Hout.
  fold (wire_string key) in Hout.
  split; [exact Hout|]. split; [exact Hok | exact Herr].
Qed.

Lemma commands_expect_one_reply_witness :
  (* the device answers FLASH_ERROR_REPLY to the removal of a key *)
  let st := init (envelope 13 []) in
  chan_out (snd (flash_storage_remove "k" st))
    = envelope 12 [x00; x00; x00; x02; x6b; x00] /\
  fst (flash_storage_remove "k" st)
    = Raise (IOError_IncorrectReply (Some FLASH_ERROR_REPLY) FLASH_OK_REPLY).
Proof.
  intros st.
  destruct (commands_expect_one_reply "k" FLASH_ERROR_REPLY [] [] st)
    as (_ & _ & H & _).
  - vm_compute. discriminate.
  - vm_compute. discriminate.
  - vm_compute. discriminate.
  - reflexivity.
  - destruct (H eq_refl) as (H1 & _ & H3).
    split; [exact H1 | apply H3; discriminate].
Defined.

(** ** The reply to a request *)

(** X19.  When the call of a service other than [setattr] returns and the
    returned value is sent against the return tags without error,
    [_serve_rpc] writes one [RPC_REPLY] envelope: the return tags as a byte
    string, then what [_send_rpc_value] appended for the value, sent
    against a fresh bytearray of the return tags. *)
Theorem serve_rpc_reply_layout
    builtin_range call_service introspect (fuel : nat) embedding_map
    (st st1 st2 st3 sent : state) (service_id : Z) (service : pyval)
    (args : list pyval) (kwargs : gmap string pyval)
    (return_tags : list byte) (returned : pyval) :
  _read_int32 st = (Ok service_id, st1) ->
  service_id <> 0 ->
  retrieve_object embedding_map service_id = Ok service ->
  _receive_rpc_args builtin_range fuel fuel embedding_map st1
    = (Ok (args, kwargs), st2) ->
  _read_bytes st2 = (Ok return_tags, st3) ->
  call_service service args kwargs = Ok returned ->
  Z.of_nat (List.length return_tags) <= 2 ^ 31 - 1 ->
  let tags := List.length (bytearrays st3) in
  let begun :=
    set_bytearrays (bytearrays st3 ++ [return_tags])
      (set_write_buffer
         [be_encode 4 (Z.of_nat (List.length return_tags)); return_tags]
         (set_write_type (Some RPC_REPLY) (set_chan_open true st3))) in
  _send_rpc_value fuel tags returned returned service begun = (Ok tt, sent) ->
  9 + Z.of_nat (List.length (concat (_write_buffer sent))) <= 2 ^ 31 - 1 ->
  exists chunks,
    _write_buffer sent
      = [be_encode 4 (Z.of_nat (List.length return_tags)); return_tags]
        ++ chunks /\
    _serve_rpc builtin_range call_service introspect fuel embedding_map st
      = (Ok tt,
         set_chan_out
           (chan_out st
              ++ envelope 7 (be_encode 4 (Z.of_nat (List.length return_tags))
                             ++ return_tags ++ concat chunks))
           sent).
Proof.
  intros Hid Hne Hservice Hargs Htags Hcall Hlen tags begun Hsent Hsize.
  destruct (extends_send fuel tags returned returned service begun)
    as (_ & _ & _ & Hout & Hty & chunks & Hbuf).
  rewrite Hsent in Hout, Hty, Hbuf. cbn [snd] in Hout, Hty, Hbuf.
  exists chunks. split; [exact Hbuf|].
  assert (Hout3 : chan_out st3 = chan_out st).
  { destruct (silent_run _ _ _ _ silent_read_int32 Hid) as (B & _).
    destruct (silent_run _ _ _ _
                (silent_receive_rpc_args_loop builtin_range fuel fuel
                   embedding_map [] ∅) Hargs) as (C & _).
    destruct (silent_run _ _ _ _ silent_read_bytes Htags) as (D & _).
    congruence. }
  unfold _serve_rpc. rewrite (bind_Ok _ _ _ _ _ Hid).
  apply Z.eqb_neq in Hne. rewrite Hne.
  rewrite (bind_Ok _ _ st1 service st1)
    by (unfold lift; rewrite Hservice; reflexivity).
  rewrite (bind_Ok _ _ _ _ _ Hargs).
  rewrite (bind_Ok _ _ _ _ _ Htags).
  unfold try_except.
  rewrite (bind_Ok _ _ st3 returned st3)
    by (unfold lift; rewrite Hcall; reflexivity).
  cbn [negb]. rewrite header_then.
  rewrite (appends_then _ _ _ _ (appends_write_bytes return_tags Hlen)).
  cbn [_write_buffer set_write_buffer app].
  match goal with
  | |- context [bind (bytearray_new return_tags) ?k ?s] =>
      rewrite (bind_Ok (bytearray_new return_tags) k s tags begun)
        by reflexivity
  end.
  rewrite (bind_Ok _ _ _ _ _ Hsent).
  rewrite (_write_flush_run sent RPC_REPLY); [|exact Hty|exact Hsize].
  rewrite Hout, Hbuf. cbn [concat app chan_out begun set_bytearrays
                           set_write_buffer set_write_type set_chan_open].
  rewrite Hout3, concat_app. unfold begun.
  cbn [_write_buffer set_bytearrays set_write_buffer concat H2D_value].
  rewrite app_nil_r, <- ?app_assoc. reflexivity.
Qed.

Lemma serve_rpc_reply_layout_witness :
  (* service 7 on the arguments i(2) i(3), with the return tags "i" *)
  let st := request [x00; x00; x00; x07;
                     x69; x00; x00; x00; x02; x69; x00; x00; x00; x03; x00;
                     x00; x00; x00; x01; x69] in
  let run := _serve_rpc example_range example_call_service example_introspect
                        3 example_embedding_map st in
  fst run = Ok tt /\
  chan_out (snd run)
    = envelope 7 [x00; x00; x00; x01; x69; x00; x00; x00; x05].
Proof.
  intros st run.
  assert (H1 : _read_int32 st = (Ok 7, snd (_read_int32 st))).
  { vm_compute; reflexivity. }
  set (st1 := snd (_read_int32 st)) in H1.
  assert (H2 : _receive_rpc_args example_range 3 3 example_embedding_map st1
               = (Ok ([VWrapInt 2 32; VWrapInt 3 32], ∅),
                  snd (_receive_rpc_args example_range 3 3
                         example_embedding_map st1))).
  { vm_compute; reflexivity. }
  set (st2 := snd (_receive_rpc_args _ _ _ _ st1)) in H2.
  assert (H3 : _read_bytes st2 = (Ok [x69], snd (_read_bytes st2))).
  { vm_compute; reflexivity. }
  set (st3 := snd (_read_bytes st2)) in H3.
  set (begun :=
         set_bytearrays (bytearrays st3 ++ [[x69]])
           (set_write_buffer [be_encode 4 1; [x69]]
              (set_write_type (Some RPC_REPLY) (set_chan_open true st3)))).
  assert (H4 : _send_rpc_value 3 (List.length (bytearrays st3)) (VInt 5)
                 (VInt 5) (VObject 7) begun
               = (Ok tt, snd (_send_rpc_value 3 (List.length (bytearrays st3))
                                (VInt 5) (VInt 5) (VObject 7) begun))).
  { vm_compute; reflexivity. }
  destruct (serve_rpc_reply_layout example_range example_call_service
              example_introspect 3 example_embedding_map st st1 st2 st3 _ 7
              (VObject 7) [VWrapInt 2 32; VWrapInt 3 32] ∅ [x69] (VInt 5)
              H1 ltac:(discriminate) eq_refl H2 H3 eq_refl
              ltac:(vm_compute; discriminate) H4
              ltac:(vm_compute; discriminate))
    as (chunks & Hbuf & Hrun).
  assert (Hchunks : chunks = [[x00; x00; x00; x05]]).
  { vm_compute in Hbuf. congruence. }
  subst chunks. fold run in Hrun. rewrite Hrun. split; reflexivity.
Defined.
